(** * Fetchtium API wrapper: request orchestration layer

    A shallow embedding of the client-side orchestration code of the
    wrapper ([src/utils.ts], [src/errors.ts], [src/client.ts], class
    [FetchtiumClient]) together with the properties its specification
    states about it.

    Conventions.
    - JavaScript numbers that hold counts, sizes, delays and clock readings
      are unbounded integers ([Z]); fractions, NaN and the loss of precision
      above 2^53 are outside the model.
    - [undefined]/[null] are [None].
    - A string is the sequence of its code units, and the code units of the
      model are those below 256: the no-break space is the one unit 160.
    - A timer runs for the delay the platform arms it with, which is that
      of Node.js: [setTimeout] takes a delay from 1 to 2^31 - 1 as given and
      any other as 1.
    - An [async] method is a state transformer returning either a value or
      the thrown exception.  The two places where several tasks really
      interleave, the concurrency gate and [fetchBatch], are labelled
      transition systems whose events are the callbacks the event loop can
      run. *)

From Stdlib Require Import ZArith String Ascii List Bool Lia DecimalString FinFun Sorted.
From Stdlib Require Import Permutation.
Import ListNotations.

Local Open Scope string_scope.
Local Open Scope Z_scope.

(* ====================================================================== *)
(** * JavaScript primitives used by the code *)
(* ====================================================================== *)

Module Js.

(** Template-literal rendering of an integer. *)
Definition showZ (z : Z) : string := NilZero.string_of_int (Z.to_int z).

(** Truthiness of a string: every string but the empty one. *)
Definition truthyStr (s : string) : bool :=
  match s with EmptyString => false | String _ _ => true end.

(** Truthiness of an optional number: [undefined] and [0] are falsy. *)
Definition truthyNum (n : option Z) : bool :=
  match n with Some v => negb (v =? 0) | None => false end.

(** [a || b] on optional strings. *)
Definition orStr (a : option string) (b : string) : string :=
  match a with Some s => if truthyStr s then s else b | None => b end.

Definition lowerChar (c : ascii) : ascii :=
  let n := nat_of_ascii c in
  if (Nat.leb 65 n && Nat.leb n 90)%bool then ascii_of_nat (n + 32) else c.

(** [String.prototype.toLowerCase] on ASCII text. *)
Fixpoint toLowerCase (s : string) : string :=
  match s with
  | EmptyString => EmptyString
  | String c r => String (lowerChar c) (toLowerCase r)
  end.

(** [s.includes(pat)]; also [/pat/.test(s)] for a pattern made of literal
    characters only. *)
Fixpoint includes (pat s : string) : bool :=
  match s with
  | EmptyString => prefix pat EmptyString
  | String _ r => prefix pat s || includes pat r
  end.

(** [s.startsWith(p)]. *)
Definition startsWith (p s : string) : bool := prefix p s.

(** [Array.prototype.includes] on an array of strings. *)
Definition arrIncludes (xs : list string) (x : string) : bool :=
  existsb (String.eqb x) xs.

(** [Array.prototype.join]. *)
Fixpoint join (sep : string) (xs : list string) : string :=
  match xs with
  | [] => EmptyString
  | [x] => x
  | x :: r => x ++ sep ++ join sep r
  end.

(** The white space and line terminators [parseInt] skips: tab to carriage
    return, space, and the no-break space. *)
Definition isWhite (c : ascii) : bool :=
  let n := nat_of_ascii c in
  (Nat.eqb n 32 || (Nat.leb 9 n && Nat.leb n 13) || Nat.eqb n 160)%bool.

Fixpoint trimStart (s : string) : string :=
  match s with
  | String c r => if isWhite c then trimStart r else s
  | EmptyString => s
  end.

Definition digitVal (radix : Z) (c : ascii) : option Z :=
  let n := Z.of_nat (nat_of_ascii c) in
  let v :=
    if (48 <=? n) && (n <=? 57) then Some (n - 48)
    else if (97 <=? n) && (n <=? 122) then Some (n - 87)
    else if (65 <=? n) && (n <=? 90) then Some (n - 55)
    else None in
  match v with
  | Some d => if d <? radix then Some d else None
  | None => None
  end.

Fixpoint digits (radix : Z) (s : string) (acc : option Z) : option Z :=
  match s with
  | String c r =>
      match digitVal radix c with
      | Some d =>
          digits radix r (Some (match acc with Some a => a * radix + d | None => d end))
      | None => acc
      end
  | EmptyString => acc
  end.

(** [parseInt(s)] without a radix argument; [None] is NaN.  The value is
    the integer the digits spell; it is the number the code gets as long as
    it lies within 2^53 of zero, beyond which the code gets it rounded. *)
Definition parseInt (s : string) : option Z :=
  let s1 := trimStart s in
  let '(sign, s2) :=
    match s1 with
    | String "-" r => (-1, r)
    | String "+" r => (1, r)
    | _ => (1, s1)
    end in
  let '(radix, s3) :=
    match s2 with
    | String "0" (String "x" r) => (16, r)
    | String "0" (String "X" r) => (16, r)
    | _ => (10, s2)
    end in
  match digits radix s3 None with
  | Some v => Some (sign * v)
  | None => None
  end.

(** The integers a number holds without rounding. *)
Definition exact (z : Z) : Prop := Z.abs z <= 2 ^ 53.

(** The delay [setTimeout(f, ms)] arms: [ms] itself from 1 to 2^31 - 1, and
    1 for any other argument. *)
Definition timerDelay (ms : Z) : Z :=
  if (ms <? 1) || (2147483647 <? ms) then 1 else ms.

End Js.

(* ====================================================================== *)
(** * [src/utils.ts]: URL validation and platform detection *)
(* ====================================================================== *)

Module Utils.

Inductive Platform :=
| instagram | facebook | twitter | tiktok | youtube | weibo
| reddit | bilibili | soundcloud | pixiv
| erome | eporner | pornhub | rule34video.

Definition platformName (p : Platform) : string :=
  match p with
  | instagram => "instagram" | facebook => "facebook" | twitter => "twitter"
  | tiktok => "tiktok" | youtube => "youtube" | weibo => "weibo"
  | reddit => "reddit" | bilibili => "bilibili" | soundcloud => "soundcloud"
  | pixiv => "pixiv" | erome => "erome" | eporner => "eporner"
  | pornhub => "pornhub" | rule34video => "rule34video"
  end.

(** The platform table, in the order [Object.entries] enumerates it.  Every
    regular expression of the source consists of literal characters and
    escaped dots, so each is recorded as the text it matches. *)
Definition PLATFORM_PATTERNS : list (Platform * list string) :=
  [ (instagram, ["instagram.com"; "instagr.am"]);
    (facebook, ["facebook.com"; "fb.watch"; "fb.com"]);
    (twitter, ["twitter.com"; "x.com"; "t.co"]);
    (tiktok, ["tiktok.com"; "vm.tiktok.com"]);
    (youtube, ["youtube.com"; "youtu.be"; "youtube.shorts"]);
    (weibo, ["weibo.com"; "weibo.cn"]);
    (reddit, ["reddit.com"; "redd.it"]);
    (bilibili, ["bilibili.com"; "b23.tv"]);
    (soundcloud, ["soundcloud.com"]);
    (pixiv, ["pixiv.net"]);
    (erome, ["erome.com"]);
    (eporner, ["eporner.com"]);
    (pornhub, ["pornhub.com"]);
    (rule34video, ["rule34video.com"]) ].

(** The two fields of a parsed [URL] object the code reads. *)
Record URL := { protocol : string; hostname : string }.

(** [pattern.test(hostname)]: an unanchored search. *)
Definition test (pattern hostname : string) : bool := Js.includes pattern hostname.

(** [patterns.some(pattern => pattern.test(hostname))]. *)
Definition some_test (patterns : list string) (hostname : string) : bool :=
  existsb (fun pattern => test pattern hostname) patterns.

(** The [for ... of Object.entries(...)] loop of [detectPlatform]. *)
Fixpoint scanPatterns (table : list (Platform * list string)) (hostname : string)
  : option Platform :=
  match table with
  | [] => None
  | (platform, patterns) :: rest =>
      if some_test patterns hostname then Some platform
      else scanPatterns rest hostname
  end.

Section WithURL.

(** [new URL(s)]: the platform's URL parser, [None] when it throws. *)
Variable parseURL : string -> option URL.

Definition isValidURL (url : string) : bool :=
  match parseURL url with
  | Some parsed => Js.arrIncludes ["http:"; "https:"] (protocol parsed)
  | None => false
  end.

Definition detectPlatform (url : string) : option Platform :=
  if negb (isValidURL url) then None
  else
    match parseURL url with
    | Some parsed => scanPatterns PLATFORM_PATTERNS (Js.toLowerCase (hostname parsed))
    | None => None
    end.

End WithURL.

(** A reader for the URLs the samples are made of.  It is not the platform
    parser: it reads [scheme://host], followed by nothing or by a slash, a
    question mark or a hash and anything, where the scheme is made of
    letters and the host of labels of letters and digits joined by dots, the
    last label of letters only.  On such a string the platform parser gives
    the protocol the reader gives and, for http and https, the hostname it
    gives.  On any other string the reader gives up, whatever the platform
    parser does. *)
Fixpoint splitAt (stop : ascii -> bool) (s : string) : string * string :=
  match s with
  | EmptyString => (EmptyString, EmptyString)
  | String c r =>
      if stop c then (EmptyString, s)
      else let '(a, b) := splitAt stop r in (String c a, b)
  end.

Definition isColon (c : ascii) : bool := Ascii.eqb c ":".
Definition endsHost (c : ascii) : bool :=
  (Ascii.eqb c "/" || Ascii.eqb c "?" || Ascii.eqb c "#")%bool.

Definition isLetter (c : ascii) : bool :=
  let n := nat_of_ascii c in
  ((Nat.leb 65 n && Nat.leb n 90) || (Nat.leb 97 n && Nat.leb n 122))%bool.

Definition isDigit (c : ascii) : bool :=
  let n := nat_of_ascii c in
  (Nat.leb 48 n && Nat.leb n 57)%bool.

Fixpoint lettersOnly (s : string) : bool :=
  match s with
  | EmptyString => true
  | String c r => isLetter c && lettersOnly r
  end.

(** [s] continues a host whose current label is non-empty when [started]
    and made of letters when [letters]. *)
Fixpoint plainHost (started letters : bool) (s : string) : bool :=
  match s with
  | EmptyString => started && letters
  | String c r =>
      if Ascii.eqb c "." then started && plainHost false true r
      else if isLetter c then plainHost true letters r
      else if isDigit c then plainHost true false r
      else false
  end.

Definition plainURL (s : string) : option URL :=
  match splitAt isColon s with
  | (scheme, String ":" (String "/" (String "/" rest))) =>
      if Js.truthyStr scheme && lettersOnly scheme then
        let '(host, _) := splitAt endsHost rest in
        if plainHost false true host
        then Some {| protocol := Js.toLowerCase scheme ++ ":";
                     hostname := Js.toLowerCase host |}
        else None
      else None
  | _ => None
  end.

End Utils.

(* ====================================================================== *)
(** * [src/utils.ts]: helpers on download lists and file names *)
(* ====================================================================== *)

Module Downloads.

Inductive MediaType := video | image | audio.

Definition MediaType_eqb (a b : MediaType) : bool :=
  match a, b with
  | video, video | image, image | audio, audio => true
  | _, _ => false
  end.

(** The members of a [Download] the helpers read. *)
Record Download := {
  type : MediaType;
  quality : string;
  url : string;
  width : option Z;
  height : option Z;
  needsMerge : option bool;
  hasAudio : option bool
}.

(** [n || 0] on an optional number. *)
Definition orZero (n : option Z) : Z :=
  match n with Some v => v | None => 0 end.

(** [parseInt(d.quality) || 0]. *)
Definition qualityOf (d : Download) : Z := orZero (Js.parseInt (quality d)).

(** [(d.width || 0) * (d.height || 0)]. *)
Definition resolutionOf (d : Download) : Z := orZero (width d) * orZero (height d).

(** The comparator [findBestQuality] sorts with. *)
Definition compare (a b : Download) : Z :=
  let qualityA := qualityOf a in
  let qualityB := qualityOf b in
  if negb (qualityA =? qualityB) then qualityB - qualityA
  else resolutionOf b - resolutionOf a.

(** [Array.prototype.sort] is stable, and [compare] is a consistent
    ordering, so the sorted array is the one a stable insertion sort
    produces: every element goes behind the elements it does not beat. *)
Fixpoint insert (x : Download) (sorted : list Download) : list Download :=
  match sorted with
  | [] => [x]
  | y :: rest => if compare x y <? 0 then x :: sorted else y :: insert x rest
  end.

Definition sort (l : list Download) : list Download :=
  fold_left (fun sorted x => insert x sorted) l [].

(** [findBestQuality(downloads, type)]. *)
Definition findBestQuality (downloads : list Download) (ty : MediaType)
  : option Download :=
  let filtered := filter (fun d => MediaType_eqb (type d) ty) downloads in
  if Z.of_nat (length filtered) =? 0 then None
  else hd_error (sort filtered).

(** [findByQuality(downloads, quality, type)]. *)
Definition findByQuality (downloads : list Download) (q : string)
    (ty : option MediaType) : option Download :=
  find (fun d =>
          let matchesQuality := String.eqb (Js.toLowerCase (quality d)) (Js.toLowerCase q) in
          let matchesType :=
            match ty with Some t => MediaType_eqb (type d) t | None => true end in
          matchesQuality && matchesType)
       downloads.

(** [new Set(values)] followed by [Array.from]: the distinct values in the
    order of their first occurrence. *)
Definition setAdd (set : list string) (x : string) : list string :=
  if Js.arrIncludes set x then set else (set ++ [x])%list.

Definition arrayFromSet (values : list string) : list string :=
  fold_left setAdd values [].

(** [getAvailableQualities(downloads, type)]. *)
Definition getAvailableQualities (downloads : list Download) (ty : option MediaType)
  : list string :=
  let filtered :=
    match ty with
    | Some t => filter (fun d => MediaType_eqb (type d) t) downloads
    | None => downloads
    end in
  arrayFromSet (map quality filtered).

(** [d.flag === true]. *)
Definition isTrue (b : option bool) : bool :=
  match b with Some true => true | _ => false end.

Definition getDownloadsNeedingMerge (downloads : list Download) : list Download :=
  filter (fun d => isTrue (needsMerge d)) downloads.

Definition getDownloadsWithAudio (downloads : list Download) : list Download :=
  filter (fun d => isTrue (hasAudio d) || MediaType_eqb (type d) audio) downloads.

End Downloads.

(** [sanitizeFilename] works on strings of code units; the code units
    modelled are those below 256. *)
Module Filenames.

Definition codeOf (c : ascii) : nat := nat_of_ascii c.

(** The characters the first pattern removes: less-than, greater-than,
    colon, double quote, slash, backslash, bar, question mark and star,
    together with the control characters 0 to 31. *)
Definition isInvalid (c : ascii) : bool :=
  let n := codeOf c in
  (Nat.leb n 31
   || Nat.eqb n 60 || Nat.eqb n 62 || Nat.eqb n 58 || Nat.eqb n 34
   || Nat.eqb n 47 || Nat.eqb n 92 || Nat.eqb n 124 || Nat.eqb n 63
   || Nat.eqb n 42)%bool.

(** The class [\s], which is also what [trim] strips: tab to carriage
    return, space, and the no-break space. *)
Definition isSpace (c : ascii) : bool :=
  let n := codeOf c in
  ((Nat.leb 9 n && Nat.leb n 13) || Nat.eqb n 32 || Nat.eqb n 160)%bool.

Definition isUnderscore (c : ascii) : bool := Nat.eqb (codeOf c) 95.
Definition isDot (c : ascii) : bool := Nat.eqb (codeOf c) 46.

(** [s.replace(re, '')] for a global pattern matching single characters. *)
Fixpoint removeAll (p : ascii -> bool) (s : string) : string :=
  match s with
  | EmptyString => EmptyString
  | String c r => if p c then removeAll p r else String c (removeAll p r)
  end.

(** [s.replace(re, '_')] for a global pattern matching every maximal run of
    characters of one class; [inRun] tells that the previous character was
    of the class. *)
Fixpoint squeeze (p : ascii -> bool) (inRun : bool) (s : string) : string :=
  match s with
  | EmptyString => EmptyString
  | String c r =>
      if p c then
        if inRun then squeeze p true r else String "_" (squeeze p true r)
      else String c (squeeze p false r)
  end.

(** [s.replace(/^\.+/, '')], and the front half of [trim]. *)
Fixpoint dropWhile (p : ascii -> bool) (s : string) : string :=
  match s with
  | EmptyString => EmptyString
  | String c r => if p c then dropWhile p r else s
  end.

(** The back half of [trim]. *)
Fixpoint dropWhileEnd (p : ascii -> bool) (s : string) : string :=
  match s with
  | EmptyString => EmptyString
  | String c r =>
      match dropWhileEnd p r with
      | EmptyString => if p c then EmptyString else String c EmptyString
      | r' => String c r'
      end
  end.

Definition trim (s : string) : string := dropWhileEnd isSpace (dropWhile isSpace s).

(** [s.slice(0, n)]. *)
Fixpoint take (n : nat) (s : string) : string :=
  match n, s with
  | O, _ => EmptyString
  | _, EmptyString => EmptyString
  | S n', String c r => String c (take n' r)
  end.

Definition sanitizeFilename (filename : string) : string :=
  take 200
    (trim
       (dropWhile isDot
          (squeeze isUnderscore false
             (squeeze isSpace false
                (removeAll isInvalid filename))))).

End Filenames.

(* ====================================================================== *)
(** * [src/errors.ts]: the error model *)
(* ====================================================================== *)

(** [ErrorCode] is a union of string literals; at run time the code field
    holds whatever string the server sent (see the cast in [fetch]), so it is
    a string here. *)
Definition ErrorCode := string.

Inductive Severity := low | medium | high | critical.

Record ErrorContext := {
  ctx_url : option string;
  ctx_platform : option string;
  (** the clock reading whose ISO rendering the source stores *)
  ctx_timestamp : option Z;
  ctx_requestId : option string;
  ctx_statusCode : option Z;
  ctx_retryAttempt : option Z;
  ctx_maxRetries : option Z;
  ctx_retryAfter : option Z;
  ctx_responseTime : option Z
}.

Definition emptyContext : ErrorContext :=
  {| ctx_url := None; ctx_platform := None; ctx_timestamp := None;
     ctx_requestId := None; ctx_statusCode := None; ctx_retryAttempt := None;
     ctx_maxRetries := None; ctx_retryAfter := None; ctx_responseTime := None |}.

Definition set_timestamp (c : ErrorContext) (t : Z) : ErrorContext :=
  {| ctx_url := ctx_url c; ctx_platform := ctx_platform c; ctx_timestamp := Some t;
     ctx_requestId := ctx_requestId c; ctx_statusCode := ctx_statusCode c;
     ctx_retryAttempt := ctx_retryAttempt c; ctx_maxRetries := ctx_maxRetries c;
     ctx_retryAfter := ctx_retryAfter c; ctx_responseTime := ctx_responseTime c |}.

(** The two assignments [context.retryAttempt = a; context.maxRetries = m]. *)
Definition set_retryInfo (c : ErrorContext) (a m : Z) : ErrorContext :=
  {| ctx_url := ctx_url c; ctx_platform := ctx_platform c;
     ctx_timestamp := ctx_timestamp c;
     ctx_requestId := ctx_requestId c; ctx_statusCode := ctx_statusCode c;
     ctx_retryAttempt := Some a; ctx_maxRetries := Some m;
     ctx_retryAfter := ctx_retryAfter c; ctx_responseTime := ctx_responseTime c |}.

(** The [options] argument of the constructor. *)
Record ErrorOptions := {
  opt_statusCode : option Z;
  opt_cause : option string;
  opt_context : option ErrorContext;
  opt_severity : option Severity;
  opt_suggestions : option (list string)
}.

Definition noOptions : ErrorOptions :=
  {| opt_statusCode := None; opt_cause := None; opt_context := None;
     opt_severity := None; opt_suggestions := None |}.

Record FetchtiumError := {
  code : ErrorCode;
  message : string;
  statusCode : option Z;
  cause : option string;
  context : ErrorContext;
  severity : Severity;
  suggestions : list string
}.

Module FetchtiumError.

(** [new FetchtiumError(code, message, options)], built when the clock
    reads [now]. *)
Definition new (now : Z) (code : ErrorCode) (message : string)
    (options : ErrorOptions) : FetchtiumError :=
  let ctx := match opt_context options with Some c => c | None => emptyContext end in
  {| code := code;
     message := message;
     statusCode := opt_statusCode options;
     cause := opt_cause options;
     context :=
       match ctx_timestamp ctx with
       | Some _ => ctx
       | None => set_timestamp ctx now
       end;
     severity := match opt_severity options with Some s => s | None => medium end;
     suggestions := match opt_suggestions options with Some l => l | None => [] end |}.

Definition fromAPIError (now : Z) (code : ErrorCode) (message : string)
    (statusCode : option Z) : FetchtiumError :=
  new now code message
    {| opt_statusCode := statusCode; opt_cause := None; opt_context := None;
       opt_severity := None; opt_suggestions := None |}.

Definition networkError (now : Z) (message : string) (cause : option string)
  : FetchtiumError :=
  new now "NETWORK_ERROR" message
    {| opt_statusCode := None; opt_cause := cause; opt_context := None;
       opt_severity := Some medium;
       opt_suggestions := Some
         ["Check your internet connection";
          "Verify the server is running";
          "Try again later"] |}.

Definition timeoutError (now : Z) (timeout : Z) : FetchtiumError :=
  new now "TIMEOUT" ("Request timed out after " ++ Js.showZ timeout ++ "ms")
    {| opt_statusCode := None; opt_cause := None; opt_context := None;
       opt_severity := Some medium;
       opt_suggestions := Some
         ["Check your internet connection";
          "Try increasing the timeout";
          "The server may be experiencing high load"] |}.

Definition invalidURL (now : Z) (url : string) : FetchtiumError :=
  new now "INVALID_URL" ("Invalid or unsupported URL: " ++ url)
    {| opt_statusCode := None; opt_cause := None;
       opt_context := Some
         {| ctx_url := Some url; ctx_platform := None; ctx_timestamp := None;
            ctx_requestId := None; ctx_statusCode := None;
            ctx_retryAttempt := None; ctx_maxRetries := None;
            ctx_retryAfter := None; ctx_responseTime := None |};
       opt_severity := Some low;
       opt_suggestions := Some
         ["Check the URL format";
          "Ensure the URL is from a supported platform";
          "Supported platforms: Instagram, Facebook, Twitter/X, TikTok, YouTube, Reddit, Bilibili, SoundCloud, Pixiv, Erome, Eporner, Rule34Video"] |}.

Definition invalidAPIKey (now : Z) : FetchtiumError :=
  new now "UNAUTHORIZED" "Invalid or missing API key"
    {| opt_statusCode := Some 401; opt_cause := None; opt_context := None;
       opt_severity := Some high;
       opt_suggestions := Some
         ["Check your API key";
          "Ensure the API key is valid and not expired";
          "Contact support if the issue persists"] |}.

(** [rateLimited(retryAfter)]: the argument reaches the message and the
    first suggestion; the options carry no [context]. *)
Definition rateLimited (now : Z) (retryAfter : option Z) : FetchtiumError :=
  let message :=
    match retryAfter with
    | Some r =>
        if Js.truthyNum retryAfter
        then "Rate limited. Retry after " ++ Js.showZ r ++ " seconds"
        else "Rate limited. Please try again later"
    | None => "Rate limited. Please try again later"
    end in
  new now "RATE_LIMITED" message
    {| opt_statusCode := Some 429; opt_cause := None; opt_context := None;
       opt_severity := Some medium;
       opt_suggestions := Some
         [ match retryAfter with
           | Some r =>
               if Js.truthyNum retryAfter
               then "Wait " ++ Js.showZ r ++ " seconds before retrying"
               else "Wait a moment before retrying"
           | None => "Wait a moment before retrying"
           end;
           "Reduce the frequency of your requests";
           "Consider upgrading your API plan for higher limits" ] |}.

Definition serverError (now : Z) (message : string) (statusCode : Z)
  : FetchtiumError :=
  new now "INTERNAL_ERROR" message
    {| opt_statusCode := Some statusCode; opt_cause := None; opt_context := None;
       opt_severity := Some high;
       opt_suggestions := Some
         ["The server encountered an error";
          "Try again later";
          "Contact support if the issue persists"] |}.

Definition unknownError (now : Z) (message : string) (cause : option string)
  : FetchtiumError :=
  new now "API_ERROR" message
    {| opt_statusCode := None; opt_cause := cause; opt_context := None;
       opt_severity := Some high;
       opt_suggestions := Some
         ["An unexpected error occurred";
          "Try again later";
          "Contact support with the error details"] |}.

Definition isRetryable (e : FetchtiumError) : bool :=
  Js.arrIncludes ["NETWORK_ERROR"; "TIMEOUT"; "RATE_LIMITED"; "INTERNAL_ERROR"]
    (code e).

End FetchtiumError.

(** What a [throw] can carry: an error of the library, a foreign exception,
    or [undefined]. *)
Inductive Thrown :=
| ThrowError (e : FetchtiumError)
| ThrowOther (description : string)
| ThrowUndefined.

Inductive Result (A : Type) :=
| Returned (a : A)
| Threw (t : Thrown).
Arguments Returned {A} a.
Arguments Threw {A} t.

(* ====================================================================== *)
(** * [src/types.ts]: the records the orchestration code touches *)
(* ====================================================================== *)

(** [MediaData]: the extraction payload is opaque to the client, which only
    reads [issues]; [media] stands for all the other fields. *)
Record MediaData := {
  media : string;
  issues : option (list string)
}.

Record FetchtiumResponse := {
  success : bool;
  data : option MediaData;
  cached : option bool;
  resp_code : option string;
  resp_error : option string
}.

Record RetryConfig := {
  maxRetries : Z;
  retryDelay : Z;
  backoffMultiplier : Z;
  retryableErrors : list ErrorCode
}.

Record CacheConfig := {
  enabled : bool;
  ttl : Z;
  maxSize : Z
}.

Record RateLimitConfig := {
  maxConcurrent : Z;
  queueTimeout : Z;
  respectServerLimits : bool
}.

(* ====================================================================== *)
(** * A JavaScript [Map] with string keys *)
(* ====================================================================== *)

(** A [Map] iterates in insertion order, and the cache relies on it, so the
    map is the list of its entries in that order. *)
Module JsMap.

Section Ops.
Context {V : Type}.

Definition t := list (string * V).

Fixpoint get (k : string) (m : t) : option V :=
  match m with
  | [] => None
  | (k', v) :: r => if String.eqb k k' then Some v else get k r
  end.

Definition has (k : string) (m : t) : bool :=
  match get k m with Some _ => true | None => false end.

Fixpoint delete (k : string) (m : t) : t :=
  match m with
  | [] => []
  | (k', v) :: r => if String.eqb k k' then r else (k', v) :: delete k r
  end.

(** [set] keeps the position of a key that is already present and appends a
    new one. *)
Fixpoint set (k : string) (v : V) (m : t) : t :=
  match m with
  | [] => [(k, v)]
  | (k', v') :: r =>
      if String.eqb k k' then (k', v) :: r else (k', v') :: set k v r
  end.

Definition size (m : t) : Z := Z.of_nat (length m).

Definition keys (m : t) : list string := map fst m.

(** [m.keys().next().value]. *)
Definition firstKey (m : t) : option string :=
  match m with
  | [] => None
  | (k, _) :: _ => Some k
  end.

End Ops.
Arguments t V : clear implicits.

End JsMap.

(* ====================================================================== *)
(** * [src/client.ts]: the response cache *)
(* ====================================================================== *)

Module Cache.

Record CacheEntry := {
  entry_data : FetchtiumResponse;
  entry_timestamp : Z;
  entry_ttl : Z
}.

Definition t := JsMap.t CacheEntry.

Definition generateCacheKey (url : string) : string := "fetch:" ++ url.

(** [getFromCache(url)] when [Date.now()] reads [now]: the answer and the
    map afterwards. *)
Definition getFromCache (cfg : CacheConfig) (now : Z) (url : string) (cache : t)
  : option FetchtiumResponse * t :=
  if negb (enabled cfg) then (None, cache)
  else
    let key := generateCacheKey url in
    match JsMap.get key cache with
    | None => (None, cache)
    | Some entry =>
        if now - entry_timestamp entry >? entry_ttl entry * 1000
        then (None, JsMap.delete key cache)
        else (Some (entry_data entry), cache)
    end.

(** [setCache(url, data)] when [Date.now()] reads [now]. *)
Definition setCache (cfg : CacheConfig) (now : Z) (url : string)
    (data : FetchtiumResponse) (cache : t) : t :=
  if negb (enabled cfg) then cache
  else
    let cache1 :=
      if JsMap.size cache >=? maxSize cfg then
        match JsMap.firstKey cache with
        | Some oldestKey =>
            if Js.truthyStr oldestKey then JsMap.delete oldestKey cache else cache
        | None => cache
        end
      else cache in
    JsMap.set (generateCacheKey url)
      {| entry_data := data; entry_timestamp := now; entry_ttl := ttl cfg |}
      cache1.

Definition clearCache (cache : t) : t := [].

Definition getCacheStats (cfg : CacheConfig) (cache : t) : Z * Z * bool :=
  (JsMap.size cache, maxSize cfg, enabled cfg).

(** Successive [setCache] calls, each with its own clock reading. *)
Fixpoint setMany (cfg : CacheConfig) (puts : list (Z * string * FetchtiumResponse))
    (cache : t) : t :=
  match puts with
  | [] => cache
  | (now, url, data) :: rest => setMany cfg rest (setCache cfg now url data cache)
  end.

(** The shape of a map the client can hold: no key twice, every key built by
    [generateCacheKey]. *)
Definition wf (c : t) : Prop :=
  NoDup (JsMap.keys c) /\ Forall (fun k => Js.truthyStr k = true) (JsMap.keys c).

(** The map [setCache] inserts into, once the oldest entry has made room. *)
Definition evicted (cfg : CacheConfig) (c : t) : t :=
  if JsMap.size c >=? maxSize cfg then
    match JsMap.firstKey c with
    | Some oldestKey =>
        if Js.truthyStr oldestKey then JsMap.delete oldestKey c else c
    | None => c
    end
  else c.

(** The keys a sequence of puts writes, in order. *)
Definition keysOf (puts : list (Z * string * FetchtiumResponse)) : list string :=
  map (fun p => generateCacheKey (snd (fst p))) puts.

End Cache.

(* ====================================================================== *)
(** * [src/client.ts]: the concurrency gate *)
(* ====================================================================== *)

(** [executeWithRateLimit] and [processQueue] run on behalf of many callers
    whose bodies interleave at their [await]s.  Between two [await]s the code
    runs to completion, so the gate is a transition system with one
    transition per entry point the event loop can run: a call of
    [executeWithRateLimit], the settling of an executing body, and the firing
    of a queue timer.

    A caller is named by its arrival number.  In the source a queue entry is
    the triple of closures [resolve]/[reject]/[fn] of one caller, and the
    timer callback finds its own entry by the identity of [reject]; here the
    entry is the caller's number. *)
Module Gate.

Definition Caller := nat.

Record State := {
  activeRequests : Z;
  requestQueue : list Caller;
  (** timers set by [setTimeout] and not yet fired or cleared *)
  timers : list Caller;
  (** callers whose wrapped body [fn] has been invoked and has not settled *)
  executing : list Caller;
  (** number of calls of [executeWithRateLimit] so far *)
  arrivals : nat
}.

Definition init : State :=
  {| activeRequests := 0; requestQueue := []; timers := [];
     executing := []; arrivals := 0 |}.

Inductive Event :=
| Call                                   (* executeWithRateLimit(fn) is called *)
| Done (c : Caller)                      (* the body of caller c settles *)
| TimerFires (c : Caller) (now : Z).     (* the queue timer of caller c fires *)

Inductive Effect :=
| Started (c : Caller)                   (* fn() of caller c is invoked *)
| TimerSet (c : Caller) (delay : Z)
| TimerCleared (c : Caller)
| Released (c : Caller)                  (* caller c gets the outcome of its body *)
| Rejected (c : Caller) (e : FetchtiumError).

Definition remove (c : Caller) (l : list Caller) : list Caller :=
  List.remove Nat.eq_dec c l.

Definition mem (c : Caller) (l : list Caller) : bool :=
  existsb (Nat.eqb c) l.

(** [requestQueue.findIndex(item => item.reject === reject)]. *)
Fixpoint findIndex (c : Caller) (l : list Caller) : option nat :=
  match l with
  | [] => None
  | x :: r =>
      if Nat.eqb x c then Some O
      else match findIndex c r with Some i => Some (S i) | None => None end
  end.

(** [requestQueue.splice(index, 1)]. *)
Fixpoint splice1 (index : nat) (l : list Caller) : list Caller :=
  match index, l with
  | _, [] => []
  | O, _ :: r => r
  | S i, x :: r => x :: splice1 i r
  end.

Section WithConfig.
Variable cfg : RateLimitConfig.

(** The loop of [processQueue]: it shifts entries off the queue while the
    counter is below the limit, and calls [item.fn()] on each, which clears
    the entry's timer and invokes the body. *)
Fixpoint processQueue_loop (active : Z) (queue : list Caller)
  : Z * list Caller * list Caller :=
  match queue with
  | [] => (active, [], [])
  | item :: rest =>
      if active <? maxConcurrent cfg then
        let '(active', started, queue') := processQueue_loop (active + 1) rest in
        (active', item :: started, queue')
      else (active, [], queue)
  end.

Definition processQueue (s : State) : list Effect * State :=
  let '(active', started, queue') :=
    processQueue_loop (activeRequests s) (requestQueue s) in
  (flat_map (fun c => [TimerCleared c; Started c]) started,
   {| activeRequests := active';
      requestQueue := queue';
      timers := fold_left (fun t c => remove c t) started (timers s);
      executing := executing s ++ started;
      arrivals := arrivals s |}).

(** Entry into [executeWithRateLimit], up to its first [await]. *)
Definition call (s : State) : list Effect * State :=
  let c := arrivals s in
  if activeRequests s <? maxConcurrent cfg then
    ([Started c],
     {| activeRequests := activeRequests s + 1;
        requestQueue := requestQueue s;
        timers := timers s;
        executing := executing s ++ [c];
        arrivals := S c |})
  else
    ([TimerSet c (queueTimeout cfg)],
     {| activeRequests := activeRequests s;
        requestQueue := requestQueue s ++ [c];
        timers := timers s ++ [c];
        executing := executing s;
        arrivals := S c |}).

(** The [finally] that follows the body of an executing caller:
    [activeRequests--; processQueue()]. *)
Definition done (c : Caller) (s : State) : list Effect * State :=
  let '(effs, s') :=
    processQueue
      {| activeRequests := activeRequests s - 1;
         requestQueue := requestQueue s;
         timers := timers s;
         executing := remove c (executing s);
         arrivals := arrivals s |} in
  (Released c :: effs, s').

(** The callback given to [setTimeout]. *)
Definition timerFires (c : Caller) (now : Z) (s : State) : list Effect * State :=
  ([Rejected c (FetchtiumError.timeoutError now (queueTimeout cfg))],
   {| activeRequests := activeRequests s;
      requestQueue :=
        match findIndex c (requestQueue s) with
        | Some index => splice1 index (requestQueue s)
        | None => requestQueue s
        end;
      timers := remove c (timers s);
      executing := executing s;
      arrivals := arrivals s |}).

(** One turn of the event loop; [None] when the event cannot occur: only an
    executing body settles, only a pending timer fires. *)
Definition step (ev : Event) (s : State) : option (list Effect * State) :=
  match ev with
  | Call => Some (call s)
  | Done c => if mem c (executing s) then Some (done c s) else None
  | TimerFires c now => if mem c (timers s) then Some (timerFires c now s) else None
  end.

Fixpoint run (evs : list Event) (s : State) : option (list Effect * State) :=
  match evs with
  | [] => Some ([], s)
  | ev :: rest =>
      match step ev s with
      | None => None
      | Some (effs, s') =>
          match run rest s' with
          | None => None
          | Some (effs', s'') => Some ((effs ++ effs')%list, s'')
          end
      end
  end.

(** The states the gate of a fresh client can be in. *)
Definition reachable (s : State) : Prop :=
  exists evs effs, run evs init = Some (effs, s).

Definition getRateLimitStats (s : State) : Z * Z * Z :=
  (activeRequests s, Z.of_nat (length (requestQueue s)), maxConcurrent cfg).

End WithConfig.

(** The callers whose body a turn invoked, in the order it invoked them. *)
Fixpoint startedOf (effs : list Effect) : list Caller :=
  match effs with
  | [] => []
  | Started c :: r => c :: startedOf r
  | _ :: r => startedOf r
  end.

(** What holds of the gate between any two turns of the event loop. *)
Record Inv (cfg : RateLimitConfig) (s : State) : Prop := {
  inv_count : activeRequests s = Z.of_nat (length (executing s));
  inv_bound : activeRequests s <= maxConcurrent cfg;
  inv_sorted : StronglySorted lt (requestQueue s);
  inv_queue_old : Forall (fun c => (c < arrivals s)%nat) (requestQueue s);
  inv_exec_old : Forall (fun c => (c < arrivals s)%nat) (executing s);
  inv_timers : timers s = requestQueue s;
  inv_busy : requestQueue s <> [] -> maxConcurrent cfg <= activeRequests s;
  inv_exec_nodup : NoDup (executing s);
  inv_disjoint : forall c, In c (requestQueue s) -> ~ In c (executing s)
}.

(** A caller that has left the queue without being started: it arrived,
    and it neither waits nor executes. *)
Definition gone (c : Caller) (s : State) : Prop :=
  (c < arrivals s)%nat /\ ~ In c (requestQueue s) /\ ~ In c (executing s).

End Gate.

(* ====================================================================== *)
(** * The network as the client sees it *)
(* ====================================================================== *)

Inductive Method := GET | POST.

(** One call of the global [fetch]. *)
Record Request := {
  req_url : string;
  req_method : Method;
  req_headers : list (string * string);
  (** the [URLSearchParams] appended to the URL, not yet encoded *)
  req_query : list (string * string);
  (** the object given to [JSON.stringify]; an [undefined] field is [None] *)
  req_body : list (string * option string)
}.

(** What the code reads from a [Response]. *)
Record HttpResponse := {
  status : Z;
  header_retryAfter : option string;
  header_contentDisposition : option string;
  (** [response.json()] read as an [ErrorResponse]: the [code] and [message]
      of its [error] member, when the body parses and has one *)
  body_error : option (ErrorCode * option string);
  (** [response.json()] read as a [FetchtiumResponse], or the message of the
      exception it throws *)
  body_json : FetchtiumResponse + string;
  body_text : string;
  (** the bytes of [response.blob()] *)
  body_blob : string
}.

Definition ok (r : HttpResponse) : bool := (200 <=? status r) && (status r <=? 299).

Inductive FetchOutcome :=
| FetchResponds (r : HttpResponse)
| FetchTypeError (message : string)        (* the network failed *)
| FetchAborted                             (* the abort signal fired *)
| FetchThrows (message : option string).   (* any other exception *)

(** The remote side: the outcome of the n-th call of [fetch] (counting from
    0) for a given request, and the time it takes. *)
Definition Transport := nat -> Request -> Z * FetchOutcome.

(* ====================================================================== *)
(** * [src/client.ts]: the client *)
(* ====================================================================== *)

(** The optional members of the configuration, as the caller writes them. *)
Record PartialRetryConfig := {
  p_maxRetries : option Z;
  p_retryDelay : option Z;
  p_backoffMultiplier : option Z;
  p_retryableErrors : option (list ErrorCode)
}.

Record PartialCacheConfig := {
  p_enabled : option bool;
  p_ttl : option Z;
  p_maxSize : option Z
}.

Record PartialRateLimitConfig := {
  p_maxConcurrent : option Z;
  p_queueTimeout : option Z;
  p_respectServerLimits : option bool
}.

Record FetchtiumClientConfig := {
  cfg_apiKey : string;
  cfg_baseUrl : option string;
  cfg_timeout : option Z;
  cfg_retry : option PartialRetryConfig;
  cfg_cache : option PartialCacheConfig;
  cfg_rateLimit : option PartialRateLimitConfig
}.

(** [a?.field ?? dflt]. *)
Definition field_or {R A} (a : option R) (field : R -> option A) (dflt : A) : A :=
  match a with
  | Some r => match field r with Some v => v | None => dflt end
  | None => dflt
  end.

(** The [readonly] fields of a client. *)
Record Client := {
  apiKey : string;
  baseUrl : string;
  timeout : Z;
  retryConfig : RetryConfig;
  cacheConfig : CacheConfig;
  rateLimitConfig : RateLimitConfig
}.

(** The mutable fields of a client together with the world around it: the
    clock, the calls of [fetch] made so far, the delays slept so far, and the
    number of request ids drawn. *)
Record St := {
  cache : Cache.t;
  gate : Gate.State;
  now : Z;
  calls : list Request;
  sleeps : list Z;
  drawn : nat
}.

Record MergeOptions := {
  merge_url : string;
  merge_quality : string;
  merge_filename : option string
}.

Record ConvertOptions := {
  convert_url : string;
  convert_format : option string;
  convert_filename : option string
}.

(** [MergeResponse] and [ConvertResponse] as the client builds them. *)
Record BlobResponse := {
  blob_success : bool;
  blob_filename : string;
  blob : string;
  blob_size : Z
}.

Definition noOverride : PartialRetryConfig :=
  {| p_maxRetries := None; p_retryDelay := None;
     p_backoffMultiplier := None; p_retryableErrors := None |}.

Module DEFAULT_CONFIG.
Definition timeout : Z := 30000.
Definition retry : RetryConfig :=
  {| maxRetries := 3; retryDelay := 1000; backoffMultiplier := 2;
     retryableErrors := ["NETWORK_ERROR"; "TIMEOUT"; "RATE_LIMITED"; "INTERNAL_ERROR"] |}.
Definition cache : CacheConfig := {| enabled := false; ttl := 300; maxSize := 100 |}.
Definition rateLimit : RateLimitConfig :=
  {| maxConcurrent := 5; queueTimeout := 30000; respectServerLimits := true |}.
(** [getBaseUrlFromEnv()], given [process.env.FETCHTIUM_API_URL]. *)
Definition baseUrl (env : option string) : string :=
  Js.orStr env "http://localhost:8080".
End DEFAULT_CONFIG.

Module ENDPOINTS.
Definition fetch := "/api/v1/publicservices".
Definition merge := "/api/v1/youtube/merge".
Definition convert := "/api/v1/convert".
End ENDPOINTS.

(** The state-and-exception reading of an [async] method. *)
Definition M (A : Type) : Type := St -> Result A * St.

Definition ret {A} (a : A) : M A := fun s => (Returned a, s).
Definition throw {A} (t : Thrown) : M A := fun s => (Threw t, s).
Definition bind {A B} (m : M A) (k : A -> M B) : M B :=
  fun s =>
    match m s with
    | (Returned a, s') => k a s'
    | (Threw t, s') => (Threw t, s')
    end.
Definition gets {A} (f : St -> A) : M A := fun s => (Returned (f s), s).
Definition modify (f : St -> St) : M unit := fun s => (Returned tt, f s).

Declare Scope m_scope.
Delimit Scope m_scope with M.
Notation "x <- m ;; k" := (bind m (fun x => k))
  (at level 61, m at next level, right associativity) : m_scope.
Notation "m ;;; k" := (bind m (fun _ => k))
  (at level 61, right associativity) : m_scope.

Definition set_cache (c : Cache.t) (s : St) : St :=
  {| cache := c; gate := gate s; now := now s; calls := calls s;
     sleeps := sleeps s; drawn := drawn s |}.
Definition set_gate (g : Gate.State) (s : St) : St :=
  {| cache := cache s; gate := g; now := now s; calls := calls s;
     sleeps := sleeps s; drawn := drawn s |}.
Definition advance (d : Z) (s : St) : St :=
  {| cache := cache s; gate := gate s; now := now s + Z.max 0 d; calls := calls s;
     sleeps := sleeps s; drawn := drawn s |}.

Definition initialSt (t0 : Z) : St :=
  {| cache := []; gate := Gate.init; now := t0; calls := []; sleeps := []; drawn := 0 |}.

(** [str.replace(/\/$/, '')]. *)
Fixpoint dropTrailingSlash (s : string) : string :=
  match s with
  | EmptyString => EmptyString
  | String c EmptyString => if Ascii.eqb c "/" then EmptyString else s
  | String c r => String c (dropTrailingSlash r)
  end.

(** The double-quote character. *)
Definition dquote : ascii := ascii_of_nat 34.

(** [str.replace(re, '')] where [re] is the global pattern matching a single
    or a double quote. *)
Fixpoint dropQuotes (s : string) : string :=
  match s with
  | EmptyString => EmptyString
  | String c r =>
      if (Ascii.eqb c "'" || Ascii.eqb c dquote)%bool then dropQuotes r
      else String c (dropQuotes r)
  end.

Module FetchtiumClient.

(** The constructor, given the environment variable and the clock. *)
Definition new (env : option string) (now : Z) (config : FetchtiumClientConfig)
  : Result Client :=
  if negb (Js.truthyStr (cfg_apiKey config)) then
    Threw (ThrowError (FetchtiumError.invalidAPIKey now))
  else if negb (Js.startsWith "sk-dwa_" (cfg_apiKey config)) then
    Threw (ThrowError
      (FetchtiumError.new now "UNAUTHORIZED"
         ("Invalid API key format. API key must start with "
            ++ String dquote "sk-dwa_" ++ String dquote EmptyString)
         {| opt_statusCode := None; opt_cause := None; opt_context := None;
            opt_severity := Some high; opt_suggestions := None |}))
  else
    Returned
      {| apiKey := cfg_apiKey config;
         baseUrl := dropTrailingSlash
                      (Js.orStr (cfg_baseUrl config) (DEFAULT_CONFIG.baseUrl env));
         timeout := match cfg_timeout config with
                    | Some t => if t =? 0 then DEFAULT_CONFIG.timeout else t
                    | None => DEFAULT_CONFIG.timeout
                    end;
         retryConfig :=
           let d := DEFAULT_CONFIG.retry in
           {| maxRetries := field_or (cfg_retry config) p_maxRetries (maxRetries d);
              retryDelay := field_or (cfg_retry config) p_retryDelay (retryDelay d);
              backoffMultiplier :=
                field_or (cfg_retry config) p_backoffMultiplier (backoffMultiplier d);
              retryableErrors :=
                field_or (cfg_retry config) p_retryableErrors (retryableErrors d) |};
         cacheConfig :=
           let d := DEFAULT_CONFIG.cache in
           {| enabled := field_or (cfg_cache config) p_enabled (enabled d);
              ttl := field_or (cfg_cache config) p_ttl (ttl d);
              maxSize := field_or (cfg_cache config) p_maxSize (maxSize d) |};
         rateLimitConfig :=
           let d := DEFAULT_CONFIG.rateLimit in
           {| maxConcurrent :=
                field_or (cfg_rateLimit config) p_maxConcurrent (maxConcurrent d);
              queueTimeout :=
                field_or (cfg_rateLimit config) p_queueTimeout (queueTimeout d);
              respectServerLimits :=
                field_or (cfg_rateLimit config) p_respectServerLimits
                  (respectServerLimits d) |} |}.

Section Methods.

Local Open Scope m_scope.

(** [new URL(s)] of the platform. *)
Variable parseURL : string -> option Utils.URL.
(** The first capture of the [filename] pattern that [merge] and [convert]
    apply to a Content-Disposition header; [None] when the pattern does not
    match or the capture is empty. *)
Variable dispositionFilename : string -> option string.
(** The remote service. *)
Variable transport : Transport.
(** [this]. *)
Variable self : Client.

(** [Date.now()]. *)
Definition dateNow : M Z := gets now.

(** [generateRequestId()]: the clock reading and a random suffix, for which
    the number of ids drawn so far stands. *)
Definition generateRequestId : M string :=
  t <- dateNow ;;
  n <- gets drawn ;;
  modify (fun s =>
    {| cache := cache s; gate := gate s; now := now s; calls := calls s;
       sleeps := sleeps s; drawn := S (drawn s) |}) ;;;
  ret ("xt_" ++ Js.showZ t ++ "_" ++ Js.showZ (Z.of_nat n)).

(** One call of the global [fetch]: it is logged, the remote side answers,
    and the clock moves by the time the exchange took. *)
Definition globalFetch (req : Request) : M FetchOutcome :=
  fun s =>
    let '(elapsed, outcome) := transport (length (calls s)) req in
    (Returned outcome,
     {| cache := cache s; gate := gate s; now := now s + Z.max 0 elapsed;
        calls := (calls s ++ [req])%list; sleeps := sleeps s; drawn := drawn s |}).

(** [throw new FetchtiumError(...)] and its factory forms: the error is
    stamped with the clock. *)
Definition throwNew {A} (mk : Z -> FetchtiumError) : M A :=
  t <- dateNow ;; throw (ThrowError (mk t)).

(** [sleep(ms)]: the delay passed to [setTimeout] is logged, and the clock
    moves by the delay the timer is armed with. *)
Definition sleep (ms : Z) : M unit :=
  modify (fun s =>
    {| cache := cache s; gate := gate s; now := now s + Js.timerDelay ms; calls := calls s;
       sleeps := (sleeps s ++ [ms])%list; drawn := drawn s |}).

Definition validateURL (url : string) : M unit :=
  if negb (Js.truthyStr url) then throwNew (fun t => FetchtiumError.invalidURL t url)
  else if negb (Utils.isValidURL parseURL url)
  then throwNew (fun t => FetchtiumError.invalidURL t url)
  else ret tt.

Definition handleHTTPError {A} (response : HttpResponse) : M A :=
  let status := status response in
  let errorBody := body_error response in
  let withStatus :=
    {| opt_statusCode := Some status; opt_cause := None; opt_context := None;
       opt_severity := None; opt_suggestions := None |} in
  let fromBody (otherwise : M A) : M A :=
    match errorBody with
    | Some (c, m) =>
        throwNew (fun t => FetchtiumError.fromAPIError t c
                             (match m with Some m => m | None => EmptyString end)
                             (Some status))
    | None => otherwise
    end in
  if status =? 400 then
    fromBody (throwNew (fun t => FetchtiumError.new t "BAD_REQUEST" "Bad request" withStatus))
  else if status =? 401 then
    throwNew FetchtiumError.invalidAPIKey
  else if status =? 403 then
    fromBody (throwNew (fun t =>
      FetchtiumError.new t "FORBIDDEN"
        "Access forbidden - content may be private or age-restricted" withStatus))
  else if status =? 404 then
    throwNew (fun t => FetchtiumError.new t "CONTENT_NOT_FOUND" "Content not found" withStatus)
  else if status =? 429 then
    let retryAfter := header_retryAfter response in
    throwNew (fun t =>
      FetchtiumError.rateLimited t
        (match retryAfter with
         | Some h => if Js.truthyStr h then Js.parseInt h else None
         | None => None
         end))
  else if (status =? 500) || (status =? 502) || (status =? 503) || (status =? 504) then
    throwNew (fun t =>
      FetchtiumError.serverError t
        (Js.orStr (match errorBody with Some (_, m) => m | None => None end)
                  ("Server error (" ++ Js.showZ status ++ ")"))
        status)
  else
    fromBody (throwNew (fun t =>
      FetchtiumError.serverError t ("HTTP error " ++ Js.showZ status) status)).

(** [request(endpoint, options)]. *)
Definition request (endpoint : string) (method : Method)
    (body : list (string * option string)) : M FetchtiumResponse :=
  requestId <- generateRequestId ;;
  outcome <- globalFetch
    {| req_url := baseUrl self ++ endpoint;
       req_method := method;
       req_headers := [("Content-Type", "application/json");
                       ("X-API-Key", apiKey self);
                       ("X-Request-ID", requestId)];
       req_query := [];
       req_body := body |} ;;
  match outcome with
  | FetchResponds response =>
      if negb (ok response) then handleHTTPError response
      else
        match body_json response with
        | inl data => ret data
        | inr msg => throwNew (fun t => FetchtiumError.unknownError t msg (Some msg))
        end
  | FetchAborted => throwNew (fun t => FetchtiumError.timeoutError t (timeout self))
  | FetchTypeError msg => throwNew (fun t => FetchtiumError.networkError t msg (Some msg))
  | FetchThrows (Some msg) =>
      throwNew (fun t => FetchtiumError.unknownError t msg (Some msg))
  | FetchThrows None =>
      throwNew (fun t => FetchtiumError.unknownError t "Unknown error occurred" None)
  end.

(** [issueMap[issue.toLowerCase()] || 'API_ERROR'].  The table is an object
    literal, so that for the two lowercase names every object inherits,
    [constructor] and [__proto__], the source finds the inherited member,
    which is no error code; these two issues are outside the model. *)
Definition mapIssueToErrorCode (issue : string) : ErrorCode :=
  let issueMap : list (string * ErrorCode) :=
    [ ("login_required", "LOGIN_REQUIRED");
      ("checkpoint", "CHECKPOINT_REQUIRED");
      ("cookies_required", "COOKIE_REQUIRED");
      ("no_healthy_cookies", "COOKIE_REQUIRED");
      ("all_cookies_failed", "COOKIE_REQUIRED");
      ("no_media", "NO_MEDIA_FOUND");
      ("private", "PRIVATE_CONTENT");
      ("private_or_friends", "PRIVATE_CONTENT");
      ("age_restricted", "AGE_RESTRICTED");
      ("content_removed", "CONTENT_REMOVED");
      ("story_expired", "STORY_EXPIRED");
      ("rate_limited", "RATE_LIMITED");
      ("invalid_url", "INVALID_URL");
      ("unsupported_platform", "UNSUPPORTED_PLATFORM");
      ("parse_error", "PARSE_ERROR") ] in
  match JsMap.get (Js.toLowerCase issue) issueMap with
  | Some c => c
  | None => "API_ERROR"
  end.

Definition getFromCache (url : string) : M (option FetchtiumResponse) :=
  fun s =>
    let '(r, c) := Cache.getFromCache (cacheConfig self) (now s) url (cache s) in
    (Returned r, set_cache c s).

Definition setCache (url : string) (data : FetchtiumResponse) : M unit :=
  modify (fun s =>
    set_cache (Cache.setCache (cacheConfig self) (now s) url data (cache s)) s).

(** [executeWithRateLimit(fn)] for a caller that has the client to itself.
    The caller passes the gate when the counter is below the limit; the
    [finally] then runs once the body has settled.  Otherwise it is queued,
    and since no body is executing whose completion could release it, the
    next thing to happen to it is its queue timer, once the delay it is armed
    with has passed. *)
Definition executeWithRateLimit {A} (fn : M A) : M A :=
  fun s =>
    let cfg := rateLimitConfig self in
    let c := Gate.arrivals (gate s) in
    let '(_, g1) := Gate.call cfg (gate s) in
    if Gate.activeRequests (gate s) <? maxConcurrent cfg then
      let '(r, s2) := fn (set_gate g1 s) in
      let '(_, g2) := Gate.done cfg c (gate s2) in
      (r, set_gate g2 s2)
    else
      let s1 := advance (Js.timerDelay (queueTimeout cfg)) (set_gate g1 s) in
      let '(_, g2) := Gate.timerFires cfg c (now s1) g1 in
      (Threw (ThrowError (FetchtiumError.timeoutError (now s1) (queueTimeout cfg))),
       set_gate g2 s1).

Definition fetchContext (url : string) (platform : Utils.Platform) (requestId : string)
  : ErrorOptions :=
  {| opt_statusCode := None; opt_cause := None;
     opt_context := Some
       {| ctx_url := Some url;
          ctx_platform := Some (Utils.platformName platform);
          ctx_timestamp := None; ctx_requestId := Some requestId;
          ctx_statusCode := None; ctx_retryAttempt := None;
          ctx_maxRetries := None; ctx_retryAfter := None;
          ctx_responseTime := None |};
     opt_severity := None; opt_suggestions := None |}.

(** The error [fetch] builds from a body with [success: false]: the new
    format carries [code] and [error], the legacy one a list of issues. *)
Definition failureOf (url : string) (platform : Utils.Platform) (requestId : string)
    (response : FetchtiumResponse) (t : Z) : FetchtiumError :=
  let code := Js.orStr (resp_code response) EmptyString in
  if Js.truthyStr code then
    FetchtiumError.new t code
      (Js.orStr (resp_error response) "Unknown error")
      (fetchContext url platform requestId)
  else
    let issues :=
      match data response with
      | Some d => match issues d with Some l => l | None => [] end
      | None => []
      end in
    let issueCode := Js.orStr (hd_error issues) "API_ERROR" in
    FetchtiumError.new t (mapIssueToErrorCode issueCode)
      ("Failed to fetch media: " ++
       (if (0 <? Z.of_nat (length issues)) then Js.join ", " issues
        else "Unknown error"))
      (fetchContext url platform requestId).

(** [fetch(url)]. *)
Definition fetch (url : string) : M FetchtiumResponse :=
  validateURL url ;;;
  match Utils.detectPlatform parseURL url with
  | None =>
      throwNew (fun t =>
        FetchtiumError.new t "UNSUPPORTED_PLATFORM"
          ("URL does not match any supported platform: " ++ url) noOptions)
  | Some platform =>
      cached <- getFromCache url ;;
      match cached with
      | Some r => ret r
      | None =>
          requestId <- generateRequestId ;;
          response <- executeWithRateLimit
            (request ENDPOINTS.fetch POST [("url", Some url)]) ;;
          if negb (success response) then
            throwNew (failureOf url platform requestId response)
          else
            setCache url response ;;;
            ret response
      end
  end.

(** The [catch] shared by [merge] and [convert]: a library error is
    rethrown, an abort becomes a timeout, anything else an unknown error. *)
Definition blobFailure {A} (fallback : string) (outcome : FetchOutcome) : M A :=
  match outcome with
  | FetchAborted => throwNew (fun t => FetchtiumError.timeoutError t (timeout self))
  | FetchTypeError msg => throwNew (fun t => FetchtiumError.unknownError t msg (Some msg))
  | FetchThrows (Some msg) =>
      throwNew (fun t => FetchtiumError.unknownError t msg (Some msg))
  | _ => throwNew (fun t => FetchtiumError.unknownError t fallback None)
  end.

(** The file name a binary answer is returned under. *)
Definition finalFilename (dflt : string) (response : HttpResponse) : string :=
  match header_contentDisposition response with
  | Some contentDisposition =>
      if Js.truthyStr contentDisposition then
        match dispositionFilename contentDisposition with
        | Some m => dropQuotes m
        | None => dflt
        end
      else dflt
  | None => dflt
  end.

(** [merge(options)]. *)
Definition merge (options : MergeOptions) : M BlobResponse :=
  validateURL (merge_url options) ;;;
  match Utils.detectPlatform parseURL (merge_url options) with
  | Some Utils.youtube =>
      if negb (Js.truthyStr (merge_quality options)) then
        throwNew (fun t =>
          FetchtiumError.new t "BAD_REQUEST" "Quality parameter is required" noOptions)
      else
        outcome <- globalFetch
          {| req_url := baseUrl self ++ "/api/v1/youtube/merge";
             req_method := POST;
             req_headers := [("Content-Type", "application/json");
                             ("X-API-Key", apiKey self)];
             req_query := [];
             req_body := [("url", Some (merge_url options));
                          ("quality", Some (merge_quality options));
                          ("filename", merge_filename options)] |} ;;
        match outcome with
        | FetchResponds response =>
            if negb (ok response) then
              throwNew (fun t =>
                FetchtiumError.new t "INTERNAL_ERROR"
                  ("Merge failed: " ++ body_text response)
                  {| opt_statusCode := Some (status response); opt_cause := None;
                     opt_context := None; opt_severity := None;
                     opt_suggestions := None |})
            else
              ret {| blob_success := true;
                     blob_filename :=
                       finalFilename (Js.orStr (merge_filename options) "merged") response;
                     blob := body_blob response;
                     blob_size := Z.of_nat (String.length (body_blob response)) |}
        | _ => blobFailure "Merge failed" outcome
        end
  | _ =>
      throwNew (fun t =>
        FetchtiumError.new t "UNSUPPORTED_PLATFORM"
          "Merge is only supported for YouTube URLs" noOptions)
  end.

(** [convert(options)]. *)
Definition convert (options : ConvertOptions) : M BlobResponse :=
  validateURL (convert_url options) ;;;
  match Utils.detectPlatform parseURL (convert_url options) with
  | None =>
      throwNew (fun t =>
        FetchtiumError.new t "UNSUPPORTED_PLATFORM"
          "URL does not match any supported platform" noOptions)
  | Some _ =>
      let format := Js.orStr (convert_format options) "mp3" in
      if negb (String.eqb format "mp3") && negb (String.eqb format "m4a") then
        throwNew (fun t =>
          FetchtiumError.new t "BAD_REQUEST"
            ("Format must be " ++ String dquote "mp3" ++ String dquote " or "
               ++ String dquote "m4a" ++ String dquote EmptyString)
            noOptions)
      else
        outcome <- globalFetch
          {| req_url := baseUrl self ++ ENDPOINTS.convert;
             req_method := GET;
             req_headers := [("X-API-Key", apiKey self)];
             req_query :=
               ([("url", convert_url options); ("format", format)] ++
                match convert_filename options with
                | Some f => if Js.truthyStr f then [("filename", f)] else []
                | None => []
                end)%list;
             req_body := [] |} ;;
        match outcome with
        | FetchResponds response =>
            if negb (ok response) then
              throwNew (fun t =>
                FetchtiumError.new t "INTERNAL_ERROR"
                  ("Audio conversion failed: " ++ body_text response)
                  {| opt_statusCode := Some (status response); opt_cause := None;
                     opt_context := None; opt_severity := None;
                     opt_suggestions := None |})
            else
              t <- dateNow ;;
              ret {| blob_success := true;
                     blob_filename :=
                       finalFilename
                         (Js.orStr (convert_filename options) ("audio_" ++ Js.showZ t))
                         response;
                     blob := body_blob response;
                     blob_size := Z.of_nat (String.length (body_blob response)) |}
        | _ => blobFailure "Audio conversion failed" outcome
        end
  end.

(** [{ ...this.retryConfig, ...retryConfig }]. *)
Definition mergeRetryConfig (override : PartialRetryConfig) : RetryConfig :=
  let d := retryConfig self in
  {| maxRetries := match p_maxRetries override with Some v => v | None => maxRetries d end;
     retryDelay := match p_retryDelay override with Some v => v | None => retryDelay d end;
     backoffMultiplier :=
       match p_backoffMultiplier override with Some v => v | None => backoffMultiplier d end;
     retryableErrors :=
       match p_retryableErrors override with Some v => v | None => retryableErrors d end |}.

Definition with_context (e : FetchtiumError) (c : ErrorContext) : FetchtiumError :=
  {| code := code e; message := message e; statusCode := statusCode e;
     cause := cause e; context := c; severity := severity e;
     suggestions := suggestions e |}.

(** How long [fetchWithRetry] sleeps after [error], [attempt] being the
    counter after its increment. *)
Definition retryWait (config : RetryConfig) (attempt : Z) (error : FetchtiumError) : Z :=
  let delay := retryDelay config * Z.pow (backoffMultiplier config) (attempt - 1) in
  if match statusCode error with Some c => c =? 429 | None => false end
     && Js.truthyNum (ctx_retryAfter (context error))
  then
    let retryAfter := match ctx_retryAfter (context error) with Some r => r | None => 0 end in
    let serverDelay := retryAfter * 1000 in
    Z.max delay serverDelay
  else delay.

(** The [while] loop of [fetchWithRetry].  [fuel] bounds the number of
    times the loop condition is evaluated; [None] means the bound was
    reached. *)
Fixpoint fetchWithRetry_loop (fuel : nat) (config : RetryConfig) (url : string)
    (attempt : Z) (lastError : option FetchtiumError) (s : St)
  : option (Result FetchtiumResponse * St) :=
  match fuel with
  | O => None
  | S fuel' =>
      if attempt <=? maxRetries config then
        match fetch url s with
        | (Returned result, s1) => Some (Returned result, s1)
        | (Threw (ThrowError error), s1) =>
            if negb (Js.arrIncludes (retryableErrors config) (code error))
               || (attempt >=? maxRetries config)
            then Some (Threw (ThrowError error), s1)
            else
              let attempt' := attempt + 1 in
              let '(_, s2) := sleep (retryWait config attempt' error) s1 in
              let error' :=
                with_context error
                  (set_retryInfo (context error) attempt' (maxRetries config)) in
              fetchWithRetry_loop fuel' config url attempt' (Some error') s2
        | (Threw t, s1) => Some (Threw t, s1)
        end
      else
        Some (Threw (match lastError with
                     | Some e => ThrowError e
                     | None => ThrowUndefined
                     end), s)
  end.

(** [fetchWithRetry(url, retryConfig)].  The loop runs its body at most
    [maxRetries + 1] times, and evaluates its condition once more at most. *)
Definition fetchWithRetry (url : string) (override : PartialRetryConfig) (s : St)
  : option (Result FetchtiumResponse * St) :=
  match validateURL url s with
  | (Threw t, s1) => Some (Threw t, s1)
  | (Returned _, s1) =>
      let config := mergeRetryConfig override in
      fetchWithRetry_loop (S (Z.to_nat (maxRetries config + 1))) config url 0 None s1
  end.

End Methods.

(** The gate lets a lone caller through. *)
Definition idle (self : Client) (s : St) : Prop :=
  Gate.activeRequests (gate s) < maxConcurrent (rateLimitConfig self) /\
  Gate.requestQueue (gate s) = [].

(** The hint [handleHTTPError] hands to [rateLimited]. *)
Definition hintOf (r : HttpResponse) : option Z :=
  match header_retryAfter r with
  | Some h => if Js.truthyStr h then Js.parseInt h else None
  | None => None
  end.

(** The delays slept before retries [attempt+1 .. attempt+k]. *)
Fixpoint backoff (config : RetryConfig) (attempt : Z) (k : nat) : list Z :=
  match k with
  | O => []
  | S k' => retryDelay config * backoffMultiplier config ^ attempt :: backoff config (attempt + 1) k'
  end.

End FetchtiumClient.

(* ====================================================================== *)
(** * [src/client.ts]: [fetchBatch] *)
(* ====================================================================== *)

(** [fetchBatch] starts several [processUrl] tasks and suspends on
    [Promise.race(active)].  Its turns of the event loop are: the settling of
    the [fetch] of one task, which runs the rest of [processUrl] and the
    [finally] that takes the task out of [active]; and the resumption of the
    main loop once the race it awaits has settled.  The [fetch] of a task is
    the single-URL operation above; here only its outcome and the clock
    reading at which it arrives matter, and both come with the event. *)
Module FetchBatch.

Record BatchResult := {
  url : string;
  success : bool;
  data : option FetchtiumResponse;
  error : option FetchtiumError;
  responseTime : option Z
}.

Record Options := {
  opt_concurrency : option Z;
  opt_stopOnError : option bool
}.

Record Config := {
  concurrency : Z;
  stopOnError : bool
}.

(** [{ concurrency: options?.concurrency || 3,
       stopOnError: options?.stopOnError || false }]. *)
Definition config (options : option Options) : Config :=
  {| concurrency :=
       match options with
       | Some o => match opt_concurrency o with
                   | Some c => if c =? 0 then 3 else c
                   | None => 3
                   end
       | None => 3
       end;
     stopOnError :=
       match options with
       | Some o => match opt_stopOnError o with Some b => b | None => false end
       | None => false
       end |}.

(** A promise in [active]: its creation number, the URL it processes and the
    [startTime] it read. *)
Record Task := {
  task_id : nat;
  task_url : string;
  task_start : Z
}.

Inductive Phase :=
| Awaiting (race : option (Result unit))   (* suspended on the race, settled or not *)
| Spinning                                 (* the outer loop runs without suspending *)
| Finished (r : Result (list BatchResult)).

Record State := {
  queue : list string;
  active : list Task;
  results : list BatchResult;
  phase : Phase;
  created : nat
}.

Inductive Event :=
| Settle (task : nat) (outcome : Result FetchtiumResponse) (now : Z)
| Resume (now : Z).

Section WithConfig.
Variable cfg : Config.

(** The inner [while]: it starts tasks while there is room and work. *)
Fixpoint topUp (now : Z) (queue : list string) (active : list Task) (created : nat)
  : list string * list Task * nat :=
  match queue with
  | [] => (queue, active, created)
  | url :: rest =>
      if Z.of_nat (length active) <? concurrency cfg then
        topUp now rest
          (active ++ [{| task_id := created; task_url := url; task_start := now |}])
          (S created)
      else (queue, active, created)
  end.

(** One pass of the outer [while], from its condition to the [await]. *)
Definition mainLoop (now : Z) (s : State) : State :=
  if (0 <? Z.of_nat (length (queue s))) || (0 <? Z.of_nat (length (active s))) then
    let '(queue', active', created') := topUp now (queue s) (active s) (created s) in
    {| queue := queue'; active := active'; results := results s;
       phase := if 0 <? Z.of_nat (length active') then Awaiting None else Spinning;
       created := created' |}
  else
    {| queue := queue s; active := active s; results := results s;
       phase := Finished (Returned (results s)); created := created s |}.

(** The call itself, up to its first suspension. *)
Definition start (urls : list string) (now : Z) : State :=
  mainLoop now
    {| queue := urls; active := []; results := [];
       phase := Awaiting None; created := 0 |}.

Fixpoint findTask (id : nat) (l : list Task) : option Task :=
  match l with
  | [] => None
  | t :: r => if Nat.eqb (task_id t) id then Some t else findTask id r
  end.

Fixpoint dropTask (id : nat) (l : list Task) : list Task :=
  match l with
  | [] => []
  | t :: r => if Nat.eqb (task_id t) id then r else t :: dropTask id r
  end.

(** The record [processUrl] pushes. *)
Definition record (t : Task) (outcome : Result FetchtiumResponse) (now : Z)
  : BatchResult :=
  match outcome with
  | Returned d =>
      {| url := task_url t; success := true; data := Some d; error := None;
         responseTime := Some (now - task_start t) |}
  | Threw x =>
      {| url := task_url t; success := false; data := None;
         error := match x with ThrowError e => Some e | _ => None end;
         responseTime := Some (now - task_start t) |}
  end.

(** How the promise of a task settles. *)
Definition settlement (outcome : Result FetchtiumResponse) : Result unit :=
  match outcome with
  | Returned _ => Returned tt
  | Threw x => if stopOnError cfg then Threw x else Returned tt
  end.

Definition step (ev : Event) (s : State) : option State :=
  match ev with
  | Settle id outcome now =>
      match findTask id (active s) with
      | None => None
      | Some t =>
          Some {| queue := queue s;
                  active := dropTask id (active s);
                  results := results s ++ [record t outcome now];
                  phase := match phase s with
                           | Awaiting None => Awaiting (Some (settlement outcome))
                           | p => p
                           end;
                  created := created s |}
      end
  | Resume now =>
      match phase s with
      | Awaiting (Some (Returned _)) => Some (mainLoop now s)
      | Awaiting (Some (Threw x)) =>
          Some {| queue := queue s; active := active s; results := results s;
                  phase := Finished (Threw x); created := created s |}
      | _ => None
      end
  end.

Fixpoint run (evs : list Event) (s : State) : option State :=
  match evs with
  | [] => Some s
  | ev :: rest =>
      match step ev s with
      | Some s' => run rest s'
      | None => None
      end
  end.

(** What the caller of [fetchBatch] gets once the promise has settled. *)
Definition outcome (s : State) : option (Result (list BatchResult)) :=
  match phase s with
  | Finished r => Some r
  | _ => None
  end.

End WithConfig.

(** C2 as stated asks that what the caller receives from a rejected batch
    determines the results recorded when the call rejected. *)
Definition partialResultsExposed : Prop :=
  exists recover : Thrown -> list BatchResult,
    forall (cfg : Config) (urls : list string) (t0 : Z) (evs : list Event)
           (now : Z) (st : State) (x : Thrown),
      urls <> [] ->
      stopOnError cfg = true ->
      run cfg (evs ++ [Resume now]) (start cfg urls t0) = Some st ->
      outcome st = Some (Threw x) ->
      recover x = results st.

(** The race has been lost to [x]: the main loop is about to reject with
    [x], or has done so. *)
Definition doomed (x : Thrown) (s : State) : Prop :=
  phase s = Awaiting (Some (Threw x)) \/ phase s = Finished (Threw x).

End FetchBatch.

(* ====================================================================== *)
(** * [src/client.ts]: the accessors *)
(* ====================================================================== *)

Module Accessors.

Definition getBaseUrl (self : Client) : string := baseUrl self.

Definition getTimeout (self : Client) : Z := timeout self.

(** [Boolean(this.apiKey && this.apiKey.length > 0)]. *)
Definition hasAPIKey (self : Client) : bool :=
  Js.truthyStr (apiKey self) && (0 <? Z.of_nat (String.length (apiKey self))).

End Accessors.

(* ====================================================================== *)
(** * Vocabulary of the further properties *)
(* ====================================================================== *)

(** The ways through [fetch], [merge] and [convert], and what they leave of
    the state. *)
Module Paths.

Section WithClient.
Variable parseURL : string -> option Utils.URL.
Variable transport : Transport.
Variable self : Client.

(** [req] is the call [request(endpoint, { method, body })] makes. *)
Definition sentBy (endpoint : string) (method : Method)
    (body : list (string * option string)) (req : Request) : Prop :=
  req_url req = baseUrl self ++ endpoint /\ req_method req = method /\
  req_body req = body /\ In ("X-API-Key", apiKey self) (req_headers req).

(** The state [fetch] hands to the gate after a cache miss that left the
    map [c]: one request id has been drawn. *)
Definition afterMiss (c : Cache.t) (s : St) : St :=
  {| cache := c; gate := gate s; now := now s; calls := calls s;
     sleeps := sleeps s; drawn := S (drawn s) |}.

(** The five ways [fetch] ends: rejected before the cache is read, answered
    from the cache, failed in the gate or the transport, answered with a
    body that reports a failure, answered with a body that is stored and
    returned. *)
Inductive FetchCase (url : string) (s : St) : Result FetchtiumResponse -> St -> Prop :=
| RejectedEarly e :
    Utils.detectPlatform parseURL url = None \/ Utils.isValidURL parseURL url = false
      \/ Js.truthyStr url = false ->
    FetchCase url s (Threw (ThrowError e)) s
| CacheHit d c platform :
    Js.truthyStr url = true -> Utils.isValidURL parseURL url = true ->
    Utils.detectPlatform parseURL url = Some platform ->
    Cache.getFromCache (cacheConfig self) (now s) url (cache s) = (Some d, c) ->
    FetchCase url s (Returned d) (set_cache c s)
| CallFailed c t s1 platform :
    Js.truthyStr url = true -> Utils.isValidURL parseURL url = true ->
    Utils.detectPlatform parseURL url = Some platform ->
    Cache.getFromCache (cacheConfig self) (now s) url (cache s) = (None, c) ->
    FetchtiumClient.executeWithRateLimit self
      (FetchtiumClient.request transport self ENDPOINTS.fetch POST [("url", Some url)])
      (afterMiss c s) = (Threw t, s1) ->
    FetchCase url s (Threw t) s1
| AnswerFailed c resp s1 platform :
    Js.truthyStr url = true -> Utils.isValidURL parseURL url = true ->
    Utils.detectPlatform parseURL url = Some platform ->
    Cache.getFromCache (cacheConfig self) (now s) url (cache s) = (None, c) ->
    FetchtiumClient.executeWithRateLimit self
      (FetchtiumClient.request transport self ENDPOINTS.fetch POST [("url", Some url)])
      (afterMiss c s) = (Returned resp, s1) ->
    success resp = false ->
    FetchCase url s
      (Threw (ThrowError
         (FetchtiumClient.failureOf url platform
            ("xt_" ++ Js.showZ (now s) ++ "_" ++ Js.showZ (Z.of_nat (drawn s))) resp (now s1))))
      s1
| AnswerStored c resp s1 platform :
    Js.truthyStr url = true -> Utils.isValidURL parseURL url = true ->
    Utils.detectPlatform parseURL url = Some platform ->
    Cache.getFromCache (cacheConfig self) (now s) url (cache s) = (None, c) ->
    FetchtiumClient.executeWithRateLimit self
      (FetchtiumClient.request transport self ENDPOINTS.fetch POST [("url", Some url)])
      (afterMiss c s) = (Returned resp, s1) ->
    success resp = true ->
    FetchCase url s (Returned resp)
      (set_cache (Cache.setCache (cacheConfig self) (now s1) url resp (cache s1)) s1).

(** What [merge] and [convert] leave of the state: the cache, the gate and
    the sleep log as they were, at most one call, made to [endpoint] with the
    API key, and exactly one when they return. *)
Definition blobFrame (endpoint : string) (s : St) (r : Result BlobResponse) (s' : St) : Prop :=
  cache s' = cache s /\ gate s' = gate s /\ sleeps s' = sleeps s /\ now s <= now s' /\
  (calls s' = calls s \/
   exists req, calls s' = (calls s ++ [req])%list /\
               req_url req = baseUrl self ++ endpoint /\
               In ("X-API-Key", apiKey self) (req_headers req)) /\
  (forall b, r = Returned b -> length (calls s') = S (length (calls s))).

End WithClient.

(** Every response the map holds reports a success. *)
Definition allSuccessful (c : Cache.t) : Prop :=
  Forall (fun e => success (Cache.entry_data (snd e)) = true) c.

End Paths.

(** The bookkeeping of the gate over a whole run. *)
Module GateHistory.
Import Gate.

(** The callers the gate has handed the outcome of their body. *)
Fixpoint releasedOf (effs : list Effect) : list Caller :=
  match effs with
  | [] => []
  | Released c :: r => c :: releasedOf r
  | _ :: r => releasedOf r
  end.

(** The callers the gate has rejected on a queue timeout. *)
Fixpoint rejectedOf (effs : list Effect) : list Caller :=
  match effs with
  | [] => []
  | Rejected c _ :: r => c :: rejectedOf r
  | _ :: r => rejectedOf r
  end.

(** What holds of the effects produced so far and the state reached. *)
Record History (cfg : RateLimitConfig) (effs : list Effect) (s : State) : Prop := {
  h_inv : Inv cfg s;
  h_started : forall c, In c (startedOf effs) ->
                (c < arrivals s)%nat /\ ~ In c (requestQueue s);
  h_rejected : forall c, In c (rejectedOf effs) -> gone c s;
  h_once : NoDup (startedOf effs);
  h_apart : forall c, In c (rejectedOf effs) -> ~ In c (startedOf effs);
  h_count : (length (executing s) + length (requestQueue s)
             + length (releasedOf effs) + length (rejectedOf effs))%nat = arrivals s
}.

End GateHistory.

(** The bookkeeping of a batch over a whole run. *)
Module BatchLedger.
Import FetchBatch.

(** The URLs a batch still has to account for, in the order results,
    running tasks, waiting URLs. *)
Definition ledger (s : State) : list string :=
  (map url (results s) ++ map task_url (active s) ++ queue s)%list.

(** What holds of a batch between two turns of the event loop. *)
Record Inv (cfg : Config) (s : State) : Prop := {
  inv_flight : Z.of_nat (length (active s)) <= Z.max 0 (concurrency cfg);
  inv_awaiting : phase s = Awaiting None -> active s <> [];
  inv_returned : forall r, phase s = Finished (Returned r) ->
                   r = results s /\ active s = [] /\ queue s = [];
  inv_spinning : phase s = Spinning -> active s = [] /\ queue s <> [] /\ concurrency cfg <= 0;
  inv_threw : stopOnError cfg = false ->
              forall x, phase s <> Awaiting (Some (Threw x)) /\ phase s <> Finished (Threw x)
}.

End BatchLedger.

(** The order [findBestQuality] sorts by, and the scan that yields the head
    of the sorted array. *)
Module Ranking.
Import Downloads.

(** [a] goes before [b]: a higher parsed quality, or the same quality and a
    larger area. *)
Definition better (a b : Download) : Prop :=
  qualityOf b < qualityOf a \/
  (qualityOf b = qualityOf a /\ resolutionOf b < resolutionOf a).

Definition notWorse (a b : Download) : Prop :=
  qualityOf b < qualityOf a \/
  (qualityOf b = qualityOf a /\ resolutionOf b <= resolutionOf a).

Definition pick (best : option Download) (x : Download) : option Download :=
  match best with
  | None => Some x
  | Some y => if compare x y <? 0 then Some x else Some y
  end.

(** The two numbers the comparator reads off [d] are held without rounding,
    so that the code orders them as integers are ordered. *)
Definition unrounded (d : Download) : Prop :=
  Js.exact (qualityOf d) /\ Js.exact (resolutionOf d).

End Ranking.

(** The shape of a sanitized file name. *)
Module FilenameShape.
Import Filenames.

(** No character of [s] is of class [p]. *)
Fixpoint free (p : ascii -> bool) (s : string) : bool :=
  match s with
  | EmptyString => true
  | String c r => negb (p c) && free p r
  end.

(** No two underscores of [s] are adjacent; [prev] tells that [s] follows
    an underscore. *)
Fixpoint single (prev : bool) (s : string) : bool :=
  match s with
  | EmptyString => true
  | String c r => if isUnderscore c then negb prev && single true r else single false r
  end.

Definition startsWithDot (s : string) : bool :=
  match s with
  | EmptyString => false
  | String c _ => isDot c
  end.

Definition sanitized (r : string) : Prop :=
  (String.length r <= 200)%nat /\
  free isInvalid r = true /\ free isSpace r = true /\
  single false r = true /\ startsWithDot r = false.

End FilenameShape.

(* ====================================================================== *)
(** * Sample data the properties are run on *)
(* ====================================================================== *)

Module Samples.

Definition response (m : string) : FetchtiumResponse :=
  {| success := true;
     data := Some {| media := m; issues := None |};
     cached := Some false; resp_code := None; resp_error := None |}.

Definition cacheOn (t m : Z) : CacheConfig := {| enabled := true; ttl := t; maxSize := m |}.

Definition urlA := "https://youtu.be/a".
Definition urlB := "https://youtu.be/b".
Definition urlC := "https://youtu.be/c".

(** A cache of at most 100 entries living 300 seconds, holding [urlA] since
    the clock read [t0]. *)
Definition cfg300 : CacheConfig := cacheOn 300 100.
Definition cacheA (t0 : Z) : Cache.t := Cache.setCache cfg300 t0 urlA (response "a") [].

(** A client with the default configuration. *)
Definition client : Client :=
  {| apiKey := "sk-dwa_0123456789abcdef";
     baseUrl := "http://localhost:8080";
     timeout := DEFAULT_CONFIG.timeout;
     retryConfig := DEFAULT_CONFIG.retry;
     cacheConfig := DEFAULT_CONFIG.cache;
     rateLimitConfig := DEFAULT_CONFIG.rateLimit |}.

(** An HTTP 429 answer with the given Retry-After header. *)
Definition tooManyRequests (retryAfter : option string) : HttpResponse :=
  {| status := 429;
     header_retryAfter := retryAfter;
     header_contentDisposition := None;
     body_error := None;
     body_json := inr "Unexpected end of JSON input";
     body_text := EmptyString;
     body_blob := EmptyString |}.

(** An HTTP 200 answer carrying a successful extraction. *)
Definition okResponse (m : string) : HttpResponse :=
  {| status := 200;
     header_retryAfter := None;
     header_contentDisposition := None;
     body_error := None;
     body_json := inl (response m);
     body_text := EmptyString;
     body_blob := EmptyString |}.

(** A remote side that answers 429 to the first [n] calls and 200 from then
    on, each exchange taking 120 ms. *)
Definition failThenOk (n : nat) (retryAfter : option string) : Transport :=
  fun i _ =>
    if Nat.ltb i n then (120, FetchResponds (tooManyRequests retryAfter))
    else (120, FetchResponds (okResponse "a")).

(** The Content-Disposition pattern is not exercised by the samples. *)
Definition noFilename : string -> option string := fun _ => None.

(** A batch that runs one URL at a time and stops on the first error. *)
Definition stopAtFirst : FetchBatch.Config :=
  {| FetchBatch.concurrency := 1; FetchBatch.stopOnError := true |}.

(** A batch that runs two URLs at a time and stops on the first error. *)
Definition stopAtFirst2 : FetchBatch.Config :=
  {| FetchBatch.concurrency := 2; FetchBatch.stopOnError := true |}.

(** The error the second URL of the sample batches fails with. *)
Definition serverDown : FetchtiumError :=
  FetchtiumError.serverError 20 "Server error (500)" 500.

(** A run of [fetchBatch [urlA; urlB]] in which [urlA] succeeds with payload
    [m] and [urlB] then fails. *)
Definition okThenDown (m : string) : list FetchBatch.Event :=
  [ FetchBatch.Settle 0 (Returned (response m)) 10;
    FetchBatch.Resume 10;
    FetchBatch.Settle 1 (Threw (ThrowError serverDown)) 20 ].

(** The batch [[urlA; urlB]], one at a time, once [urlA] has succeeded and
    the main loop has started [urlB] and suspended again. *)
Definition batchAwaitingB : FetchBatch.State :=
  match FetchBatch.run stopAtFirst
          [FetchBatch.Settle 0 (Returned (response "a")) 10; FetchBatch.Resume 10]
          (FetchBatch.start stopAtFirst [urlA; urlB] 0) with
  | Some s => s
  | None => FetchBatch.start stopAtFirst [urlA; urlB] 0
  end.

(** A gate that lets two bodies run at a time. *)
Definition limit2 : RateLimitConfig :=
  {| maxConcurrent := 2; queueTimeout := 30000; respectServerLimits := true |}.

(** Three puts of distinct URLs, one second apart. *)
Definition putA : Z * string * FetchtiumResponse := (1000, urlA, response "a").
Definition putB : Z * string * FetchtiumResponse := (2000, urlB, response "b").
Definition putC : Z * string * FetchtiumResponse := (3000, urlC, response "c").

(** The cache after [urlA] and then [urlB] were put into a cache of size two. *)
Definition cacheAB : Cache.t := Cache.setMany (cacheOn 300 2) [putA; putB] [].

End Samples.

(** Further sample data. *)
Module MoreSamples.

(** The sample client with the cache switched on. *)
Definition cachingClient : Client :=
  {| apiKey := apiKey Samples.client;
     baseUrl := baseUrl Samples.client;
     timeout := timeout Samples.client;
     retryConfig := retryConfig Samples.client;
     cacheConfig := Samples.cfg300;
     rateLimitConfig := rateLimitConfig Samples.client |}.

(** A gate that lets nobody in. *)
Definition limit0 : RateLimitConfig :=
  {| maxConcurrent := 0; queueTimeout := 30000; respectServerLimits := true |}.

(** The sample client behind that gate. *)
Definition closedClient : Client :=
  {| apiKey := apiKey Samples.client;
     baseUrl := baseUrl Samples.client;
     timeout := timeout Samples.client;
     retryConfig := retryConfig Samples.client;
     cacheConfig := cacheConfig Samples.client;
     rateLimitConfig := limit0 |}.

(** A remote side that always answers 200. *)
Definition alwaysOk : Transport := Samples.failThenOk 0 None.

(** An HTTP 404 answer without a body, and a remote side that always gives
    it. *)
Definition notFoundResponse : HttpResponse :=
  {| status := 404;
     header_retryAfter := None;
     header_contentDisposition := None;
     body_error := None;
     body_json := inr "Unexpected end of JSON input";
     body_text := EmptyString;
     body_blob := EmptyString |}.

Definition alwaysNotFound : Transport := fun _ _ => (80, FetchResponds notFoundResponse).

(** The caching client once it has fetched [urlA], the clock reading 1000
    at the call. *)
Definition afterFetchA : St :=
  snd (FetchtiumClient.fetch Utils.plainURL alwaysOk cachingClient Samples.urlA
         (initialSt 1000)).

(** The same state five minutes minus one second later. *)
Definition laterA : St := advance 299000 afterFetchA.

(** Three calls against a gate of two, then the queue timer of the third
    caller, then the completion of the first. *)
Definition gateEvents : list Gate.Event :=
  [Gate.Call; Gate.Call; Gate.Call; Gate.TimerFires 2%nat 30000; Gate.Done 0%nat].

Definition gateEnd : list Gate.Effect * Gate.State :=
  match Gate.run Samples.limit2 gateEvents Gate.init with
  | Some p => p
  | None => ([], Gate.init)
  end.

(** Two calls against the gate that lets nobody in, then the queue timer of
    the first caller. *)
Definition closedEvents : list Gate.Event :=
  [Gate.Call; Gate.Call; Gate.TimerFires 0%nat 30000].

Definition closedEnd : list Gate.Effect * Gate.State :=
  match Gate.run limit0 closedEvents Gate.init with
  | Some p => p
  | None => ([], Gate.init)
  end.

(** Batches that go on after an error, two URLs at a time and one at a
    time. *)
Definition twoAtATime : FetchBatch.Config :=
  {| FetchBatch.concurrency := 2; FetchBatch.stopOnError := false |}.

Definition oneAtATime : FetchBatch.Config :=
  {| FetchBatch.concurrency := 1; FetchBatch.stopOnError := false |}.

(** A run of [fetchBatch [urlA; urlB]], two at a time, in which [urlB]
    fails first and [urlA] then succeeds. *)
Definition downThenOk : list FetchBatch.Event :=
  [ FetchBatch.Settle 1 (Threw (ThrowError Samples.serverDown)) 10;
    FetchBatch.Resume 10;
    FetchBatch.Settle 0 (Returned (Samples.response "a")) 20;
    FetchBatch.Resume 20 ].

Definition batchDone : FetchBatch.State :=
  match FetchBatch.run twoAtATime downThenOk
          (FetchBatch.start twoAtATime [Samples.urlA; Samples.urlB] 0) with
  | Some s => s
  | None => FetchBatch.start twoAtATime [Samples.urlA; Samples.urlB] 0
  end.

(** A run of the same batch, one at a time, in which [urlA] fails and
    [urlB] then succeeds. *)
Definition inTurn : list FetchBatch.Event :=
  [ FetchBatch.Settle 0 (Threw (ThrowError Samples.serverDown)) 10;
    FetchBatch.Resume 10;
    FetchBatch.Settle 1 (Returned (Samples.response "b")) 20;
    FetchBatch.Resume 20 ].

Definition batchInTurn : FetchBatch.State :=
  match FetchBatch.run oneAtATime inTurn
          (FetchBatch.start oneAtATime [Samples.urlA; Samples.urlB] 0) with
  | Some s => s
  | None => FetchBatch.start oneAtATime [Samples.urlA; Samples.urlB] 0
  end.

(** The options of a batch with a negative concurrency. *)
Definition minusOne : FetchBatch.Options :=
  {| FetchBatch.opt_concurrency := Some (-1); FetchBatch.opt_stopOnError := None |}.

(** Three renditions of one video and its audio track. *)
Definition rendition (q : string) (w h : Z) : Downloads.Download :=
  {| Downloads.type := Downloads.video; Downloads.quality := q;
     Downloads.url := "https://cdn.example.com/" ++ q;
     Downloads.width := Some w; Downloads.height := Some h;
     Downloads.needsMerge := None; Downloads.hasAudio := Some true |}.

Definition audioTrack : Downloads.Download :=
  {| Downloads.type := Downloads.audio; Downloads.quality := "128kbps";
     Downloads.url := "https://cdn.example.com/audio";
     Downloads.width := None; Downloads.height := None;
     Downloads.needsMerge := None; Downloads.hasAudio := None |}.

Definition renditions : list Downloads.Download :=
  [rendition "720p" 1280 720; rendition "1080p" 1920 1080; audioTrack;
   rendition "720p" 1280 720].

End MoreSamples.

(* ====================================================================== *)
(** * Properties of the map and of the cache *)
(* ====================================================================== *)

Section JsMapFacts.
Context {V : Type}.
Implicit Types (m : JsMap.t V) (k : string) (v : V).

Lemma get_none_notin m k : JsMap.get k m = None <-> ~ In k (JsMap.keys m).
Proof.
  induction m as [|[k' v'] r IH]; simpl.
  - tauto.
  - destruct (String.eqb_spec k k') as [->|Hne].
    + split; [discriminate | intros H; exfalso; apply H; now left].
    + rewrite IH. split; intros H; [intros [E|I]; [congruence | tauto] | tauto].
Qed.

Lemma get_some_in m k v : JsMap.get k m = Some v -> In k (JsMap.keys m).
Proof.
  intros H. destruct (in_dec string_dec k (JsMap.keys m)) as [I|N]; [exact I|].
  apply get_none_notin in N. congruence.
Qed.

Lemma has_true_in m k : JsMap.has k m = true <-> In k (JsMap.keys m).
Proof.
  unfold JsMap.has. destruct (JsMap.get k m) eqn:E.
  - split; [intros _; eapply get_some_in; eauto | reflexivity].
  - apply get_none_notin in E. split; [discriminate | tauto].
Qed.

Lemma get_set_same m k v : JsMap.get k (JsMap.set k v m) = Some v.
Proof.
  induction m as [|[k' v'] r IH]; simpl.
  - now rewrite String.eqb_refl.
  - destruct (String.eqb_spec k k') as [->|Hne]; simpl.
    + now rewrite String.eqb_refl.
    + destruct (String.eqb_spec k k'); [congruence | exact IH].
Qed.

Lemma keys_set_in m k v : In k (JsMap.keys m) -> JsMap.keys (JsMap.set k v m) = JsMap.keys m.
Proof.
  induction m as [|[k' v'] r IH]; simpl; [tauto|].
  intros H. destruct (String.eqb_spec k k') as [->|Hne]; simpl; [reflexivity|].
  f_equal. apply IH. destruct H; congruence.
Qed.

Lemma keys_set_notin m k v :
  ~ In k (JsMap.keys m) -> JsMap.keys (JsMap.set k v m) = (JsMap.keys m ++ [k])%list.
Proof.
  induction m as [|[k' v'] r IH]; simpl; [reflexivity|].
  intros H. destruct (String.eqb_spec k k') as [->|Hne]; simpl.
  - exfalso; apply H; now left.
  - f_equal. apply IH. tauto.
Qed.

Lemma keys_delete_notin m k : ~ In k (JsMap.keys m) -> JsMap.delete k m = m.
Proof.
  induction m as [|[k' v'] r IH]; simpl; [reflexivity|].
  intros H. destruct (String.eqb_spec k k') as [->|Hne].
  - exfalso; apply H; now left.
  - f_equal. apply IH. tauto.
Qed.

Lemma in_keys_delete m k k' :
  In k' (JsMap.keys (JsMap.delete k m)) -> In k' (JsMap.keys m).
Proof.
  induction m as [|[k0 v0] r IH]; simpl; [tauto|].
  destruct (String.eqb_spec k k0) as [->|Hne]; simpl; [tauto|].
  intros [E|I]; [now left | right; now apply IH].
Qed.

Lemma nodup_delete m k : NoDup (JsMap.keys m) -> NoDup (JsMap.keys (JsMap.delete k m)).
Proof.
  induction m as [|[k0 v0] r IH]; simpl; [auto|].
  intros H. inversion H as [|? ? Hn Hr]; subst.
  destruct (String.eqb_spec k k0) as [->|Hne]; simpl; [exact Hr|].
  constructor; [|auto]. intros I. apply Hn. eapply in_keys_delete; eauto.
Qed.

Lemma get_delete_same m k : NoDup (JsMap.keys m) -> JsMap.get k (JsMap.delete k m) = None.
Proof.
  induction m as [|[k0 v0] r IH]; simpl; [reflexivity|].
  intros H. inversion H as [|? ? Hn Hr]; subst.
  destruct (String.eqb_spec k k0) as [->|Hne]; simpl.
  - now apply get_none_notin.
  - destruct (String.eqb_spec k k0); [congruence | auto].
Qed.

Lemma nodup_set m k v : NoDup (JsMap.keys m) -> NoDup (JsMap.keys (JsMap.set k v m)).
Proof.
  intros H. destruct (in_dec string_dec k (JsMap.keys m)) as [I|N].
  - now rewrite keys_set_in.
  - rewrite keys_set_notin by exact N.
    apply NoDup_app; [exact H | repeat constructor; simpl; tauto |].
    intros x Hx Hx'. simpl in Hx'. destruct Hx' as [<-|[]]. tauto.
Qed.

Lemma size_keys m : JsMap.size m = Z.of_nat (length (JsMap.keys m)).
Proof. unfold JsMap.size, JsMap.keys. now rewrite length_map. Qed.

End JsMapFacts.

Section CacheFacts.
Variable cfg : CacheConfig.
Hypothesis cache_on : enabled cfg = true.

(** The keys the client puts in its map are never the empty string, so the
    truthiness test on [oldestKey] always passes. *)
Lemma generateCacheKey_truthy url : Js.truthyStr (Cache.generateCacheKey url) = true.
Proof. reflexivity. Qed.

Lemma generateCacheKey_inj u1 u2 :
  Cache.generateCacheKey u1 = Cache.generateCacheKey u2 -> u1 = u2.
Proof. unfold Cache.generateCacheKey. simpl. congruence. Qed.

Lemma cache_wf_nil : Cache.wf [].
Proof. split; constructor. Qed.

Lemma setCache_unfold now url d c :
  Cache.setCache cfg now url d c =
  JsMap.set (Cache.generateCacheKey url)
    {| Cache.entry_data := d; Cache.entry_timestamp := now; Cache.entry_ttl := ttl cfg |}
    (Cache.evicted cfg c).
Proof. unfold Cache.setCache, Cache.evicted. now rewrite cache_on. Qed.

Lemma evicted_room c : JsMap.size c < maxSize cfg -> Cache.evicted cfg c = c.
Proof.
  intros H. unfold Cache.evicted.
  destruct (Z.geb_spec (JsMap.size c) (maxSize cfg)); [lia | reflexivity].
Qed.

Lemma evicted_full k v r :
  JsMap.size ((k, v) :: r) >= maxSize cfg -> Js.truthyStr k = true ->
  Cache.evicted cfg ((k, v) :: r) = r.
Proof.
  intros H T. unfold Cache.evicted.
  destruct (Z.geb_spec (JsMap.size ((k, v) :: r)) (maxSize cfg)); [|lia].
  simpl. rewrite T. now rewrite String.eqb_refl.
Qed.

Lemma evicted_wf c : Cache.wf c -> Cache.wf (Cache.evicted cfg c).
Proof.
  intros [N T]. unfold Cache.evicted.
  destruct (JsMap.size c >=? maxSize cfg); [|now split].
  destruct c as [|[k v] r]; simpl; [now split|].
  inversion N; inversion T; subst.
  destruct (Js.truthyStr k); [|now split].
  rewrite String.eqb_refl. now split.
Qed.

Lemma setCache_wf now url d c : Cache.wf c -> Cache.wf (Cache.setCache cfg now url d c).
Proof.
  intros W. rewrite setCache_unfold. apply evicted_wf in W. destruct W as [N T].
  split; [now apply nodup_set|].
  destruct (in_dec string_dec (Cache.generateCacheKey url) (JsMap.keys (Cache.evicted cfg c))) as [I|NI].
  - now rewrite keys_set_in.
  - rewrite keys_set_notin by exact NI. apply Forall_app. split; [exact T|].
    repeat constructor.
Qed.

Lemma setMany_wf puts c : Cache.wf c -> Cache.wf (Cache.setMany cfg puts c).
Proof.
  revert c. induction puts as [|[[now url] d] rest IH]; intros c W; simpl; [exact W|].
  apply IH. now apply setCache_wf.
Qed.

Lemma setMany_app p1 p2 c :
  Cache.setMany cfg (p1 ++ p2) c = Cache.setMany cfg p2 (Cache.setMany cfg p1 c).
Proof.
  revert c. induction p1 as [|[[now url] d] rest IH]; intros c; simpl; [reflexivity|].
  apply IH.
Qed.

(** While there is room, new keys line up behind the old ones. *)
Lemma setMany_room puts : forall c,
  NoDup (JsMap.keys c ++ Cache.keysOf puts) ->
  JsMap.size c + Z.of_nat (length puts) <= maxSize cfg ->
  JsMap.keys (Cache.setMany cfg puts c) = (JsMap.keys c ++ Cache.keysOf puts)%list.
Proof.
  induction puts as [|[[now url] d] rest IH]; intros c N S; simpl.
  - now rewrite app_nil_r.
  - simpl in N. simpl length in S.
    assert (NI : ~ In (Cache.generateCacheKey url) (JsMap.keys c)).
    { apply NoDup_remove_2 in N. intros I. apply N. apply in_or_app. now left. }
    assert (K : JsMap.keys (Cache.setCache cfg now url d c)
                = (JsMap.keys c ++ [Cache.generateCacheKey url])%list).
    { rewrite setCache_unfold, evicted_room by lia. now apply keys_set_notin. }
    rewrite IH.
    + rewrite K, <- app_assoc. reflexivity.
    + rewrite K, <- app_assoc. simpl.
      exact N.
    + rewrite size_keys, K, length_app. simpl. rewrite size_keys in S. lia.
Qed.

End CacheFacts.

(** C3 (as the code has it): in an enabled cache holding an entry for [url]
    written at [entry_timestamp] with [entry_ttl] seconds, a lookup when the
    clock reads [now] returns the stored response and leaves the map alone
    as long as [now - entry_timestamp <= entry_ttl * 1000]; once the elapsed
    time is strictly greater, it reports a miss and deletes the entry.  An
    entry is thus valid iff [now - timestamp <= ttl * 1000]: the boundary
    instant itself is still a hit. *)
Theorem C3_lookup_valid_iff_not_older_than_ttl :
  forall (cfg : CacheConfig) (now : Z) (url : string) (c : Cache.t) (entry : Cache.CacheEntry),
    enabled cfg = true ->
    NoDup (JsMap.keys c) ->
    JsMap.get (Cache.generateCacheKey url) c = Some entry ->
    (now - Cache.entry_timestamp entry <= Cache.entry_ttl entry * 1000 ->
       Cache.getFromCache cfg now url c = (Some (Cache.entry_data entry), c))
    /\
    (now - Cache.entry_timestamp entry > Cache.entry_ttl entry * 1000 ->
       fst (Cache.getFromCache cfg now url c) = None /\
       JsMap.get (Cache.generateCacheKey url) (snd (Cache.getFromCache cfg now url c)) = None).
Proof.
  intros cfg now url c entry On N G. unfold Cache.getFromCache. rewrite On, G. simpl.
  destruct (Z.gtb_spec (now - Cache.entry_timestamp entry) (Cache.entry_ttl entry * 1000)).
  - split; [lia|]. intros _. simpl. split; [reflexivity|]. now apply get_delete_same.
  - split; [reflexivity | lia].
Qed.

(** What [setCache] leaves under the key of [url]. *)
Lemma setCache_get (cfg : CacheConfig) (now : Z) (url : string) (d : FetchtiumResponse)
    (c : Cache.t) :
  enabled cfg = true ->
  JsMap.get (Cache.generateCacheKey url) (Cache.setCache cfg now url d c)
  = Some {| Cache.entry_data := d; Cache.entry_timestamp := now; Cache.entry_ttl := ttl cfg |}.
Proof. intros On. rewrite setCache_unfold by exact On. apply get_set_same. Qed.

Lemma C3_witness :
  Cache.getFromCache Samples.cfg300 305000 Samples.urlA (Samples.cacheA 5000)
    = (Some (Samples.response "a"), Samples.cacheA 5000)
  /\ fst (Cache.getFromCache Samples.cfg300 305001 Samples.urlA (Samples.cacheA 5000)) = None.
Proof.
  pose proof (C3_lookup_valid_iff_not_older_than_ttl Samples.cfg300 305000 Samples.urlA
                (Samples.cacheA 5000)
                {| Cache.entry_data := Samples.response "a";
                   Cache.entry_timestamp := 5000; Cache.entry_ttl := 300 |}
                eq_refl) as Hit.
  pose proof (C3_lookup_valid_iff_not_older_than_ttl Samples.cfg300 305001 Samples.urlA
                (Samples.cacheA 5000)
                {| Cache.entry_data := Samples.response "a";
                   Cache.entry_timestamp := 5000; Cache.entry_ttl := 300 |}
                eq_refl) as Miss.
  assert (N : NoDup (JsMap.keys (Samples.cacheA 5000))).
  { repeat constructor; simpl; tauto. }
  split.
  - apply (proj1 (Hit N eq_refl)). simpl. lia.
  - apply (proj2 (Miss N eq_refl)). simpl. lia.
Defined.

(** C3 as stated fails at the boundary: an entry stored with a TTL of 300
    seconds and looked up exactly 300000 ms later is not reported as a miss;
    the stored response is returned. *)
Lemma C3_counterexample_hit_at_exact_ttl :
  300000 - 0 >= ttl Samples.cfg300 * 1000 /\
  ~ (fst (Cache.getFromCache Samples.cfg300 300000 Samples.urlA (Samples.cacheA 0)) = None) /\
  Cache.getFromCache Samples.cfg300 300000 Samples.urlA (Samples.cacheA 0)
    = (Some (Samples.response "a"), Samples.cacheA 0).
Proof.
  simpl. split; [lia|]. split; [discriminate | reflexivity].
Qed.

(** Where the cache keeps its bound: for every [maxSize >= 1],
    [maxSize + 1] puts of pairwise distinct URLs into an empty enabled cache
    leave exactly [maxSize] entries; the URL put first is gone and every
    later one is present. *)
Lemma overflow_evicts_first_inserted :
  forall (cfg : CacheConfig) (first : Z * string * FetchtiumResponse)
         (later : list (Z * string * FetchtiumResponse)),
    enabled cfg = true ->
    1 <= maxSize cfg ->
    Z.of_nat (length (first :: later)) = maxSize cfg + 1 ->
    NoDup (map (fun p => snd (fst p)) (first :: later)) ->
    let c := Cache.setMany cfg (first :: later) [] in
    JsMap.size c = maxSize cfg /\
    JsMap.has (Cache.generateCacheKey (snd (fst first))) c = false /\
    Forall (fun p => JsMap.has (Cache.generateCacheKey (snd (fst p))) c = true) later.
Proof.
  intros cfg first later On M L N c.
  assert (NK : NoDup (Cache.keysOf (first :: later))).
  { unfold Cache.keysOf. rewrite <- (map_map (fun p => snd (fst p)) Cache.generateCacheKey).
    apply Injective_map_NoDup; [|exact N].
    intros a b. apply generateCacheKey_inj. }
  (* split the puts into the first maxSize ones and the overflowing one *)
  destruct (exists_last (l := later)) as [mid [lastp Elater]].
  { intros ->. simpl in L. lia. }
  assert (Lmid : Z.of_nat (length (first :: mid)) = maxSize cfg).
  { rewrite Elater in L. simpl in L |- *. rewrite length_app in L. simpl in L. lia. }
  assert (Ksplit : Cache.keysOf (first :: later)
                   = (Cache.keysOf (first :: mid) ++ [Cache.generateCacheKey (snd (fst lastp))])%list).
  { rewrite Elater. unfold Cache.keysOf. rewrite app_comm_cons, map_app. reflexivity. }
  assert (Kmid : JsMap.keys (Cache.setMany cfg (first :: mid) []) = Cache.keysOf (first :: mid)).
  { rewrite (setMany_room cfg On); [reflexivity | | unfold JsMap.size; simpl length in *; lia].
    simpl app. rewrite Ksplit in NK. now apply NoDup_app_remove_r in NK. }
  assert (Kc : JsMap.keys c = Cache.keysOf later).
  { unfold c. rewrite Elater, app_comm_cons, setMany_app.
    destruct lastp as [[nowl urll] dl].
    remember (Cache.setMany cfg (first :: mid) []) as cm eqn:Ecm.
    change (Cache.setMany cfg [(nowl, urll, dl)] cm)
      with (Cache.setCache cfg nowl urll dl cm).
    rewrite setCache_unfold by exact On.
    destruct cm as [|[k0 v0] r].
    { simpl in Kmid. discriminate. }
    assert (W : Cache.wf ((k0, v0) :: r)).
    { rewrite Ecm. apply setMany_wf; [exact On | apply cache_wf_nil]. }
    destruct W as [_ T]. inversion T as [|? ? Tk _]; subst.
    rewrite evicted_full; [| rewrite size_keys, Kmid; unfold Cache.keysOf; rewrite length_map; lia
                           | exact Tk].
    simpl in Kmid. injection Kmid as Ek Er.
    rewrite keys_set_notin.
    - rewrite Er. unfold Cache.keysOf. rewrite map_app. reflexivity.
    - rewrite Er. rewrite Ksplit in NK. simpl in NK. inversion NK as [|? ? _ NK']; subst.
      intros I. apply NoDup_remove_2 in NK'. apply NK'. rewrite app_nil_r. exact I. }
  split; [|split].
  - rewrite size_keys, Kc. unfold Cache.keysOf. rewrite length_map. simpl length in L. lia.
  - destruct (JsMap.has _ c) eqn:H; [|reflexivity].
    apply has_true_in in H. rewrite Kc in H. simpl in NK. inversion NK; subst. tauto.
  - apply Forall_forall. intros p Hp. apply has_true_in. rewrite Kc.
    unfold Cache.keysOf. now apply (in_map (fun p => Cache.generateCacheKey (snd (fst p)))).
Qed.

Lemma overflow_evicts_first_inserted_sample :
  JsMap.size (Cache.setMany (Samples.cacheOn 300 2)
                [Samples.putA; Samples.putB; Samples.putC] []) = 2 /\
  JsMap.has (Cache.generateCacheKey Samples.urlA)
    (Cache.setMany (Samples.cacheOn 300 2)
       [Samples.putA; Samples.putB; Samples.putC] []) = false /\
  Forall (fun p => JsMap.has (Cache.generateCacheKey (snd (fst p)))
                     (Cache.setMany (Samples.cacheOn 300 2)
                        [Samples.putA; Samples.putB; Samples.putC] []) = true)
    [Samples.putB; Samples.putC].
Proof.
  apply (overflow_evicts_first_inserted (Samples.cacheOn 300 2) Samples.putA
           [Samples.putB; Samples.putC]).
  - reflexivity.
  - simpl. lia.
  - reflexivity.
  - repeat constructor; simpl; intuition discriminate.
Defined.

(** A cache of capacity 0 that holds at most one entry holds exactly one
    after a put. *)
Lemma setCache_zero_capacity (cfg : CacheConfig) (now : Z) (url : string)
    (d : FetchtiumResponse) (c : Cache.t) :
  enabled cfg = true -> maxSize cfg = 0 -> Cache.wf c -> JsMap.size c <= 1 ->
  JsMap.size (Cache.setCache cfg now url d c) = 1.
Proof.
  intros On M W S. rewrite setCache_unfold by exact On.
  destruct c as [|[k v] r].
  - unfold Cache.evicted. rewrite M. reflexivity.
  - assert (r = []) as ->.
    { destruct r; [reflexivity|]. unfold JsMap.size in S. simpl in S. lia. }
    destruct W as [_ T]. inversion T as [|? ? Tk _]; subst.
    rewrite evicted_full; [reflexivity | rewrite M; unfold JsMap.size; simpl; lia | exact Tk].
Qed.

Lemma setMany_zero_capacity (cfg : CacheConfig) (puts : list (Z * string * FetchtiumResponse)) :
  forall c, enabled cfg = true -> maxSize cfg = 0 -> Cache.wf c -> JsMap.size c = 1 ->
  JsMap.size (Cache.setMany cfg puts c) = 1.
Proof.
  induction puts as [|[[now url] d] rest IH]; intros c On M W S; simpl; [exact S|].
  apply IH; try assumption.
  - now apply setCache_wf.
  - apply setCache_zero_capacity; try assumption. lia.
Qed.

(** C5 (the code departs from it): in an enabled cache of capacity
    [maxSize = 0] the put of the one key of a sequence of [maxSize + 1 = 1]
    keys finds an empty map; there is nothing to evict, and the entry is
    stored all the same.  One entry remains where the claim, and the
    documented meaning of [maxSize] as the maximum number of entries, allow
    none, and the key put first is present where the claim says it is
    absent.  Every later put evicts the entry it finds and stores its own:
    the cache goes on holding exactly one entry. *)
Theorem C5_cache_of_capacity_zero_keeps_one_entry :
  forall (t : Z) (first : Z * string * FetchtiumResponse)
         (later : list (Z * string * FetchtiumResponse)),
    let cfg := {| enabled := true; ttl := t; maxSize := 0 |} in
    Z.of_nat (length [first]) = maxSize cfg + 1 /\
    JsMap.size (Cache.setMany cfg [first] []) = 1 /\
    JsMap.has (Cache.generateCacheKey (snd (fst first))) (Cache.setMany cfg [first] [])
      = true /\
    maxSize cfg < JsMap.size (Cache.setMany cfg (first :: later) []) /\
    JsMap.size (Cache.setMany cfg (first :: later) []) = 1.
Proof.
  intros t [[now url] d] later cfg.
  assert (S1 : JsMap.size (Cache.setMany cfg [(now, url, d)] []) = 1) by reflexivity.
  assert (Sn : JsMap.size (Cache.setMany cfg ((now, url, d) :: later) []) = 1).
  { change (Cache.setMany cfg ((now, url, d) :: later) [])
      with (Cache.setMany cfg later (Cache.setMany cfg [(now, url, d)] [])).
    apply setMany_zero_capacity; [reflexivity | reflexivity | | exact S1].
    apply (setMany_wf cfg eq_refl [(now, url, d)] []). apply cache_wf_nil. }
  split; [reflexivity|]. split; [exact S1|]. split.
  - simpl. unfold Cache.setCache, JsMap.has. simpl. now rewrite String.eqb_refl.
  - rewrite Sn. split; [simpl; lia | reflexivity].
Qed.

(** C10: when the cache is at capacity and a put names a URL that is already
    cached, the oldest entry is evicted all the same.  If the URL is not the
    oldest one, its entry is overwritten in place, the oldest key is gone and
    the map has one entry less; if it is the oldest one, it moves to the back
    and the set of keys stays as it was. *)
Theorem C10_overwrite_at_capacity_evicts_oldest :
  forall (cfg : CacheConfig) (now : Z) (url : string) (d : FetchtiumResponse)
         (c : Cache.t) (oldest : string),
    enabled cfg = true ->
    Cache.wf c ->
    JsMap.size c = maxSize cfg ->
    JsMap.has (Cache.generateCacheKey url) c = true ->
    JsMap.firstKey c = Some oldest ->
    let c' := Cache.setCache cfg now url d c in
    (Cache.generateCacheKey url <> oldest ->
       JsMap.keys c' = tl (JsMap.keys c) /\
       JsMap.size c' = JsMap.size c - 1 /\
       JsMap.has oldest c' = false /\
       JsMap.has (Cache.generateCacheKey url) c' = true)
    /\
    (Cache.generateCacheKey url = oldest ->
       JsMap.keys c' = (tl (JsMap.keys c) ++ [oldest])%list /\
       JsMap.size c' = JsMap.size c).
Proof.
  intros cfg now url d c oldest On [N T] S H F c'.
  destruct c as [|[k0 v0] r]; [discriminate|].
  simpl in F. injection F as <-.
  inversion N as [|? ? Nk Nr]; subst. inversion T as [|? ? Tk Tr]; subst.
  assert (E : c' = JsMap.set (Cache.generateCacheKey url)
                {| Cache.entry_data := d; Cache.entry_timestamp := now;
                   Cache.entry_ttl := ttl cfg |} r).
  { unfold c'. rewrite setCache_unfold by exact On.
    rewrite evicted_full; [reflexivity | lia | exact Tk]. }
  apply has_true_in in H. simpl in H.
  split.
  - intros Hne. destruct H as [H|H]; [congruence|].
    assert (K : JsMap.keys c' = JsMap.keys r) by (rewrite E; now apply keys_set_in).
    split; [exact K|]. split; [|split].
    + rewrite !size_keys, K. simpl length. lia.
    + destruct (JsMap.has k0 c') eqn:Hh; [|reflexivity].
      apply has_true_in in Hh. rewrite K in Hh. tauto.
    + apply has_true_in. now rewrite K.
  - intros Heq. rewrite Heq in E.
    assert (K : JsMap.keys c' = (JsMap.keys r ++ [k0])%list)
      by (rewrite E; now apply keys_set_notin).
    split; [exact K|].
    rewrite !size_keys, K, length_app. simpl length. lia.
Qed.

Lemma C10_witness :
  JsMap.keys (Cache.setCache (Samples.cacheOn 300 2) 9000 Samples.urlB
                (Samples.response "b2") Samples.cacheAB)
    = [Cache.generateCacheKey Samples.urlB] /\
  JsMap.size (Cache.setCache (Samples.cacheOn 300 2) 9000 Samples.urlB
                (Samples.response "b2") Samples.cacheAB) = 1.
Proof.
  pose proof (C10_overwrite_at_capacity_evicts_oldest (Samples.cacheOn 300 2) 9000
                Samples.urlB (Samples.response "b2") Samples.cacheAB
                (Cache.generateCacheKey Samples.urlA) eq_refl) as H.
  assert (W : Cache.wf Samples.cacheAB).
  { split; repeat constructor; simpl; intuition discriminate. }
  destruct (H W eq_refl eq_refl eq_refl) as [Hne _].
  destruct Hne as (K & S & _); [discriminate|].
  split; [exact K | exact S].
Defined.

(* ====================================================================== *)
(** * Properties of the classifier and of URL validation *)
(* ====================================================================== *)

Lemma prefix_app (p rest : string) : prefix p (p ++ rest) = true.
Proof.
  induction p as [|c p IH]; simpl.
  - now destruct rest.
  - destruct (ascii_dec c c); [exact IH | congruence].
Qed.

(** [Js.includes] finds a pattern wherever it occurs. *)
Lemma includes_occurrence (pat before after : string) :
  Js.includes pat (before ++ pat ++ after) = true.
Proof.
  assert (P : forall s, prefix pat s = true -> Js.includes pat s = true).
  { intros [|c s] H; unfold Js.includes; fold Js.includes; rewrite H; reflexivity. }
  induction before as [|c before IH].
  - change (Js.includes pat (pat ++ after) = true). apply P, prefix_app.
  - change (prefix pat (String c (before ++ pat ++ after))
            || Js.includes pat (before ++ pat ++ after) = true).
    rewrite IH. apply orb_true_r.
Qed.

Lemma some_test_in (patterns : list string) (pattern hostname : string) :
  In pattern patterns -> Utils.test pattern hostname = true ->
  Utils.some_test patterns hostname = true.
Proof.
  intros I T. unfold Utils.some_test. apply existsb_exists. eauto.
Qed.

Lemma scanPatterns_first (before after : list (Utils.Platform * list string))
    (p : Utils.Platform) (patterns : list string) (hostname : string) :
  Forall (fun e => Utils.some_test (snd e) hostname = false) before ->
  Utils.some_test patterns hostname = true ->
  Utils.scanPatterns (before ++ (p, patterns) :: after) hostname = Some p.
Proof.
  induction 1 as [|[q qs] before Hq _ IH]; intros T; simpl.
  - now rewrite T.
  - simpl in Hq. rewrite Hq. now apply IH.
Qed.

Lemma scanPatterns_some (table : list (Utils.Platform * list string))
    (p : Utils.Platform) (patterns : list string) (hostname : string) :
  In (p, patterns) table -> Utils.some_test patterns hostname = true ->
  Utils.scanPatterns table hostname <> None.
Proof.
  induction table as [|[q qs] table IH]; simpl; [tauto|].
  intros [E|I] T.
  - injection E as -> ->. rewrite T. discriminate.
  - destruct (Utils.some_test qs hostname); [discriminate | now apply IH].
Qed.

Lemma detectPlatform_valid (parseURL : string -> option Utils.URL) (url : string)
    (parsed : Utils.URL) :
  parseURL url = Some parsed ->
  Js.arrIncludes ["http:"; "https:"] (Utils.protocol parsed) = true ->
  Utils.detectPlatform parseURL url
  = Utils.scanPatterns Utils.PLATFORM_PATTERNS (Js.toLowerCase (Utils.hostname parsed)).
Proof.
  intros P V. unfold Utils.detectPlatform, Utils.isValidURL. now rewrite P, V.
Qed.

(** C9 (as the code has it): the patterns are searched anywhere in the
    lowercased hostname.  A valid http/https URL whose hostname contains a
    pattern of some platform as a substring is never unsupported; it is
    classified as the first platform of the table one of whose patterns
    occurs in the hostname, hence as that very platform whenever no platform
    listed before it matches too. *)
Theorem C9_substring_match_first_platform_wins :
  forall (parseURL : string -> option Utils.URL) (url : string) (parsed : Utils.URL)
         (platform : Utils.Platform) (patterns : list string)
         (pattern left right : string),
    parseURL url = Some parsed ->
    Js.arrIncludes ["http:"; "https:"] (Utils.protocol parsed) = true ->
    In (platform, patterns) Utils.PLATFORM_PATTERNS ->
    In pattern patterns ->
    Js.toLowerCase (Utils.hostname parsed) = left ++ pattern ++ right ->
    Utils.detectPlatform parseURL url <> None /\
    (forall before after,
        Utils.PLATFORM_PATTERNS = (before ++ (platform, patterns) :: after)%list ->
        Forall (fun e => Utils.some_test (snd e) (Js.toLowerCase (Utils.hostname parsed)) = false)
          before ->
        Utils.detectPlatform parseURL url = Some platform).
Proof.
  intros parseURL url parsed platform patterns pattern l r P V I Ip H.
  assert (T : Utils.some_test patterns (Js.toLowerCase (Utils.hostname parsed)) = true).
  { apply some_test_in with pattern; [exact Ip|].
    unfold Utils.test. rewrite H. apply includes_occurrence. }
  rewrite (detectPlatform_valid parseURL url parsed P V). split.
  - eapply scanPatterns_some; eauto.
  - intros before after E B. rewrite E. now apply scanPatterns_first.
Qed.

Lemma C9_witness :
  Utils.detectPlatform Utils.plainURL "https://www.instagram.com.attacker.net/p/1" <> None /\
  Utils.detectPlatform Utils.plainURL "https://www.instagram.com.attacker.net/p/1"
    = Some Utils.instagram.
Proof.
  destruct (C9_substring_match_first_platform_wins Utils.plainURL
              "https://www.instagram.com.attacker.net/p/1"
              {| Utils.protocol := "https:";
                 Utils.hostname := "www.instagram.com.attacker.net" |}
              Utils.instagram ["instagram.com"; "instagr.am"]
              "instagram.com" "www." ".attacker.net"
              eq_refl eq_refl) as [N F].
  - simpl. now left.
  - simpl. now left.
  - reflexivity.
  - split; [exact N|]. apply (F [] (tl Utils.PLATFORM_PATTERNS)); [reflexivity | constructor].
Defined.

(** C9 as stated fails when an earlier platform matches as well: the
    hostname below contains youtube's domain [youtube.com], yet the URL is
    classified as instagram, whose pattern also occurs and which comes first
    in the table. *)
Lemma C9_counterexample_earlier_platform_wins :
  Utils.isValidURL Utils.plainURL "https://youtube.com.instagram.com/watch" = true /\
  In "youtube.com" ["youtube.com"; "youtu.be"; "youtube.shorts"] /\
  In (Utils.youtube, ["youtube.com"; "youtu.be"; "youtube.shorts"]) Utils.PLATFORM_PATTERNS /\
  Js.includes "youtube.com" "youtube.com.instagram.com" = true /\
  Utils.detectPlatform Utils.plainURL "https://youtube.com.instagram.com/watch"
    <> Some Utils.youtube /\
  Utils.detectPlatform Utils.plainURL "https://youtube.com.instagram.com/watch"
    = Some Utils.instagram.
Proof.
  repeat split; try reflexivity.
  - simpl. now left.
  - simpl. do 4 right. now left.
  - vm_compute. discriminate.
Qed.

Section ValidationFacts.
Variable parseURL : string -> option Utils.URL.
Variable dispositionFilename : string -> option string.
Variable transport : Transport.
Variable self : Client.

(** [validateURL] rejects exactly the strings [isValidURL] rejects, and it
    does so without touching the state. *)
Lemma validateURL_invalid (url : string) (s : St) :
  Utils.isValidURL parseURL url = false ->
  FetchtiumClient.validateURL parseURL url s
  = (Threw (ThrowError (FetchtiumError.invalidURL (now s) url)), s).
Proof.
  intros H. unfold FetchtiumClient.validateURL.
  destruct (Js.truthyStr url); simpl; [rewrite H|]; reflexivity.
Qed.

Lemma validateURL_valid (url : string) (s : St) :
  Js.truthyStr url = true ->
  Utils.isValidURL parseURL url = true ->
  FetchtiumClient.validateURL parseURL url s = (Returned tt, s).
Proof.
  intros T H. unfold FetchtiumClient.validateURL. now rewrite T, H.
Qed.

End ValidationFacts.

(** C7: for a string that is not a valid absolute http/https URL, each of
    [fetch], [merge] and [convert] throws the INVALID_URL error and leaves
    the whole state as it was; in particular the log of transport calls does
    not grow. *)
Theorem C7_invalid_url_fails_before_any_transport_call :
  forall (parseURL : string -> option Utils.URL)
         (dispositionFilename : string -> option string)
         (transport : Transport) (self : Client)
         (url : string) (quality : string) (format filename : option string) (s : St),
    Utils.isValidURL parseURL url = false ->
    let e := FetchtiumError.invalidURL (now s) url in
    code e = "INVALID_URL" /\
    FetchtiumClient.fetch parseURL transport self url s = (Threw (ThrowError e), s) /\
    FetchtiumClient.merge parseURL dispositionFilename transport self
      {| merge_url := url; merge_quality := quality; merge_filename := filename |} s
      = (Threw (ThrowError e), s) /\
    FetchtiumClient.convert parseURL dispositionFilename transport self
      {| convert_url := url; convert_format := format; convert_filename := filename |} s
      = (Threw (ThrowError e), s) /\
    (forall r s', FetchtiumClient.fetch parseURL transport self url s = (r, s') ->
                  calls s' = calls s).
Proof.
  intros parseURL dispositionFilename transport self url quality format filename s H e.
  split; [reflexivity|].
  assert (F : FetchtiumClient.fetch parseURL transport self url s = (Threw (ThrowError e), s)).
  { unfold FetchtiumClient.fetch, bind. now rewrite validateURL_invalid. }
  split; [exact F|]. split; [|split].
  - unfold FetchtiumClient.merge, bind. simpl merge_url. now rewrite validateURL_invalid.
  - unfold FetchtiumClient.convert, bind. simpl convert_url. now rewrite validateURL_invalid.
  - intros r s' E. rewrite F in E. now injection E as _ <-.
Qed.

(** A URL with the ftp scheme: all three operations throw INVALID_URL and
    the transport log stays empty. *)
Lemma C7_witness :
  Utils.isValidURL Utils.plainURL "ftp://files.example.com/a.mp4" = false /\
  FetchtiumClient.fetch Utils.plainURL (Samples.failThenOk 0 None) Samples.client
    "ftp://files.example.com/a.mp4" (initialSt 0)
    = (Threw (ThrowError (FetchtiumError.invalidURL 0 "ftp://files.example.com/a.mp4")),
       initialSt 0) /\
  calls (snd (FetchtiumClient.merge Utils.plainURL Samples.noFilename
                (Samples.failThenOk 0 None) Samples.client
                {| merge_url := "ftp://files.example.com/a.mp4";
                   merge_quality := "1080p"; merge_filename := None |}
                (initialSt 0))) = [] /\
  calls (snd (FetchtiumClient.convert Utils.plainURL Samples.noFilename
                (Samples.failThenOk 0 None) Samples.client
                {| convert_url := "ftp://files.example.com/a.mp4";
                   convert_format := Some "mp3"; convert_filename := None |}
                (initialSt 0))) = [].
Proof.
  destruct (C7_invalid_url_fails_before_any_transport_call Utils.plainURL
              Samples.noFilename (Samples.failThenOk 0 None) Samples.client
              "ftp://files.example.com/a.mp4" "1080p" (Some "mp3") None (initialSt 0)
              eq_refl) as (_ & F & Mg & Cv & _).
  split; [reflexivity|]. split; [exact F|].
  split; [now rewrite Mg | now rewrite Cv].
Defined.

(* ====================================================================== *)
(** * Properties of the concurrency gate *)
(* ====================================================================== *)

Module GateFacts.
Import Gate.

Lemma mem_In c l : mem c l = true <-> In c l.
Proof.
  unfold mem. rewrite existsb_exists. split.
  - intros [x [I E]]. apply Nat.eqb_eq in E. now subst.
  - intros I. exists c. split; [exact I | apply Nat.eqb_refl].
Qed.

Lemma sorted_nodup l : StronglySorted lt l -> NoDup l.
Proof.
  induction 1 as [|a l _ IH F]; constructor; [|exact IH].
  intros I. rewrite Forall_forall in F. specialize (F a I). lia.
Qed.

Lemma startedOf_app e1 e2 : startedOf (e1 ++ e2) = (startedOf e1 ++ startedOf e2)%list.
Proof.
  induction e1 as [|[] e1 IH]; simpl; rewrite ?IH; reflexivity.
Qed.

Lemma startedOf_flat started :
  startedOf (flat_map (fun c => [TimerCleared c; Started c]) started) = started.
Proof. induction started as [|c r IH]; simpl; [reflexivity | now rewrite IH]. Qed.

Lemma In_startedOf c effs : In (Started c) effs <-> In c (startedOf effs).
Proof.
  induction effs as [|e r IH]; simpl; [tauto|].
  destruct e as [c'| | | |]; simpl; rewrite <- IH.
  - split; (intros [H|H]; [left; congruence | now right]).
  - split; [intros [H|H]; [discriminate | exact H] | now right].
  - split; [intros [H|H]; [discriminate | exact H] | now right].
  - split; [intros [H|H]; [discriminate | exact H] | now right].
  - split; [intros [H|H]; [discriminate | exact H] | now right].
Qed.

Lemma remove_notin c l : ~ In c l -> remove c l = l.
Proof. intros H. unfold remove. now apply notin_remove. Qed.

Lemma remove_head c l : ~ In c l -> remove c (c :: l) = l.
Proof.
  intros H. unfold remove. simpl. destruct (Nat.eq_dec c c); [|congruence].
  now apply notin_remove.
Qed.

Lemma remove_length c l :
  NoDup l -> In c l -> S (length (remove c l)) = length l.
Proof.
  unfold remove. induction 1 as [|a l Ha _ IH]; simpl; [tauto|].
  intros [->|I].
  - destruct (Nat.eq_dec c c); [|congruence]. now rewrite notin_remove.
  - destruct (Nat.eq_dec c a) as [->|Hne]; [tauto|]. simpl. now rewrite IH.
Qed.

Lemma In_remove_iff c x l : In x (remove c l) <-> In x l /\ x <> c.
Proof.
  unfold remove. split.
  - intros H. apply in_remove in H. tauto.
  - intros [H N]. now apply in_in_remove.
Qed.

Lemma nodup_remove c l : NoDup l -> NoDup (remove c l).
Proof.
  induction 1 as [|a l Ha _ IH]; unfold remove in *; simpl; [constructor|].
  destruct (Nat.eq_dec c a); [exact IH|].
  constructor; [|exact IH]. fold (remove c l). rewrite In_remove_iff. tauto.
Qed.

Lemma sorted_remove c l : StronglySorted lt l -> StronglySorted lt (remove c l).
Proof.
  induction 1 as [|a l _ IH F]; unfold remove in *; simpl; [constructor|].
  destruct (Nat.eq_dec c a); [exact IH|].
  constructor; [exact IH|].
  rewrite Forall_forall in *. intros x Hx. apply F.
  fold (remove c l) in Hx. apply In_remove_iff in Hx. tauto.
Qed.

(** The timer callback takes its own entry out of the queue. *)
Lemma splice_found c l :
  NoDup l ->
  match findIndex c l with Some index => splice1 index l | None => l end = remove c l.
Proof.
  unfold remove. induction 1 as [|a l Ha Hl IH]; simpl; [reflexivity|].
  destruct (Nat.eqb_spec a c) as [->|Hne].
  - destruct (Nat.eq_dec c c); [|congruence]. simpl. symmetry. now apply notin_remove.
  - destruct (Nat.eq_dec c a); [congruence|].
    destruct (findIndex c l); simpl; now rewrite <- IH.
Qed.

Lemma clear_timers started : forall rest,
  NoDup (started ++ rest) ->
  fold_left (fun t c => remove c t) started (started ++ rest)%list = rest.
Proof.
  induction started as [|c r IH]; intros rest N; [reflexivity|].
  simpl in N. inversion N as [|? ? Hc Hr]; subst.
  cbn [fold_left app]. rewrite remove_head by exact Hc. now apply IH.
Qed.

Section Loop.
Variable cfg : RateLimitConfig.

(** [processQueue] starts a prefix of the queue, counts each start, and
    stops only when the queue is empty or the gate is full. *)
Lemma processQueue_loop_spec queue : forall active active' started queue',
  processQueue_loop cfg active queue = (active', started, queue') ->
  queue = (started ++ queue')%list /\
  active' = active + Z.of_nat (length started) /\
  (queue' <> [] -> maxConcurrent cfg <= active') /\
  (active <= maxConcurrent cfg -> active' <= maxConcurrent cfg).
Proof.
  induction queue as [|item rest IH]; intros active active' started queue' H; simpl in H.
  - injection H as <- <- <-. simpl. repeat split; try lia. congruence.
  - destruct (Z.ltb_spec active (maxConcurrent cfg)) as [Hlt|Hge].
    + destruct (processQueue_loop cfg (active + 1) rest) as [[a s] q] eqn:E.
      injection H as <- <- <-.
      destruct (IH _ _ _ _ E) as (Hq & Ha & Hb & Hc).
      subst rest. simpl. repeat split; try lia; auto.
    + injection H as <- <- <-. simpl. repeat split; try lia.
Qed.

End Loop.

Lemma sorted_suffix l1 l2 : StronglySorted lt (l1 ++ l2) -> StronglySorted lt l2.
Proof.
  induction l1 as [|a l1 IH]; simpl; [auto|].
  intros H. inversion H; subst. auto.
Qed.

Lemma sorted_snoc l c :
  StronglySorted lt l -> Forall (fun x => (x < c)%nat) l -> StronglySorted lt (l ++ [c]).
Proof.
  induction 1 as [|a l _ IH F]; intros B; simpl.
  - repeat constructor.
  - inversion B; subst. constructor; [auto|].
    apply Forall_app. split; [exact F | repeat constructor; assumption].
Qed.

Lemma nodup_app_apart (l1 l2 : list Caller) x :
  NoDup (l1 ++ l2) -> In x l1 -> ~ In x l2.
Proof.
  induction l1 as [|a l1 IH]; simpl; [tauto|].
  intros N [->|I] H; inversion N; subst.
  - apply H2. apply in_or_app. now right.
  - now apply IH.
Qed.

Lemma Forall_lt_S (l : list Caller) n :
  Forall (fun c => (c < n)%nat) l -> Forall (fun c => (c < S n)%nat) l.
Proof. apply Forall_impl. intros; lia. Qed.

Lemma Forall_lt_notin (l : list Caller) n : Forall (fun c => (c < n)%nat) l -> ~ In n l.
Proof. rewrite Forall_forall. intros F I. specialize (F n I). lia. Qed.

Section Steps.
Variable cfg : RateLimitConfig.
Hypothesis limit_nonneg : 0 <= maxConcurrent cfg.

Lemma init_inv : Inv cfg init.
Proof.
  constructor; simpl; try constructor; try tauto; try lia.
Qed.

(** A call passes at once only when nobody waits; otherwise it joins the
    back of the queue with a timer of [queueTimeout]. *)
Lemma call_shape s effs s' :
  Inv cfg s -> call cfg s = (effs, s') ->
  arrivals s' = S (arrivals s) /\
  ((effs = [Started (arrivals s)] /\ requestQueue s = [] /\ requestQueue s' = [] /\
    executing s' = (executing s ++ [arrivals s])%list)
   \/
   (effs = [TimerSet (arrivals s) (queueTimeout cfg)] /\
    requestQueue s' = (requestQueue s ++ [arrivals s])%list /\
    executing s' = executing s)).
Proof.
  intros I H. unfold call in H.
  destruct (Z.ltb_spec (activeRequests s) (maxConcurrent cfg)) as [Hlt|Hge];
    injection H as <- <-; simpl; (split; [reflexivity|]).
  - left. assert (Q : requestQueue s = []).
    { destruct (requestQueue s) eqn:E; [reflexivity|].
      pose proof (inv_busy _ _ I) as B. rewrite E in B.
      assert (maxConcurrent cfg <= activeRequests s) by (apply B; discriminate). lia. }
    now rewrite Q.
  - right. auto.
Qed.

Lemma call_inv s : Inv cfg s -> Inv cfg (snd (call cfg s)).
Proof.
  intros I. destruct I as [Hc Hb Hs Hq He Ht Hbusy Hn Hd].
  unfold call.
  destruct (Z.ltb_spec (activeRequests s) (maxConcurrent cfg)) as [Hlt|Hge]; simpl.
  - assert (Q : requestQueue s = []).
    { destruct (requestQueue s) eqn:E; [reflexivity|].
      assert (maxConcurrent cfg <= activeRequests s) by (apply Hbusy; discriminate). lia. }
    constructor; simpl.
    + rewrite length_app. simpl. lia.
    + lia.
    + exact Hs.
    + now apply Forall_lt_S.
    + apply Forall_app. split; [now apply Forall_lt_S | repeat constructor].
    + exact Ht.
    + rewrite Q. congruence.
    + apply NoDup_app; [exact Hn | repeat constructor; simpl; tauto |].
      intros x Hx [<-|[]]. revert Hx. now apply Forall_lt_notin.
    + rewrite Q. simpl. tauto.
  - constructor; simpl.
    + exact Hc.
    + exact Hb.
    + now apply sorted_snoc.
    + apply Forall_app. split; [now apply Forall_lt_S | repeat constructor].
    + now apply Forall_lt_S.
    + now rewrite Ht.
    + intros _. lia.
    + exact Hn.
    + intros c Hin. apply in_app_or in Hin. destruct Hin as [Hin|[<-|[]]]; [now apply Hd|].
      now apply Forall_lt_notin.
Qed.

(** When a body settles, the callers started in that turn are the front of
    the queue, in queue order. *)
Lemma done_shape c s effs s' :
  done cfg c s = (effs, s') ->
  (startedOf effs ++ requestQueue s')%list = requestQueue s /\
  executing s' = (remove c (executing s) ++ startedOf effs)%list /\
  (requestQueue s' <> [] -> maxConcurrent cfg <= activeRequests s') /\
  arrivals s' = arrivals s.
Proof.
  unfold done, processQueue. simpl.
  destruct (processQueue_loop cfg (activeRequests s - 1) (requestQueue s))
    as [[a st] q] eqn:E.
  intros H. injection H as <- <-. simpl. rewrite startedOf_flat.
  destruct (processQueue_loop_spec cfg _ _ _ _ _ E) as (Hq & Ha & Hb & _).
  repeat split; auto.
Qed.

Lemma done_inv c s : Inv cfg s -> In c (executing s) -> Inv cfg (snd (done cfg c s)).
Proof.
  intros I Hin. destruct I as [Hc Hb Hs Hq He Ht Hbusy Hn Hd].
  unfold done, processQueue. simpl.
  destruct (processQueue_loop cfg (activeRequests s - 1) (requestQueue s))
    as [[a st] q] eqn:E. simpl.
  destruct (processQueue_loop_spec cfg _ _ _ _ _ E) as (Hqs & Ha & Hbz & Hle).
  pose proof (remove_length c _ Hn Hin) as Hlen.
  assert (Nq : NoDup (st ++ q)) by (rewrite <- Hqs; now apply sorted_nodup).
  constructor; simpl.
  - rewrite length_app. lia.
  - apply Hle. lia.
  - rewrite Hqs in Hs. now apply sorted_suffix in Hs.
  - rewrite Hqs in Hq. apply Forall_app in Hq. tauto.
  - apply Forall_app. split.
    + rewrite Forall_forall in *. intros x Hx. apply He. apply In_remove_iff in Hx. tauto.
    + rewrite Hqs in Hq. apply Forall_app in Hq. tauto.
  - rewrite Ht, Hqs. now apply clear_timers.
  - exact Hbz.
  - apply NoDup_app; [now apply nodup_remove | now apply NoDup_app_remove_r in Nq |].
    intros x Hx Hx'. apply In_remove_iff in Hx. destruct Hx as [Hx _].
    apply (Hd x); [rewrite Hqs; apply in_or_app; now left | exact Hx].
  - intros x Hx Hx'. apply in_app_or in Hx'. destruct Hx' as [Hx'|Hx'].
    + apply In_remove_iff in Hx'. destruct Hx' as [Hx' _].
      apply (Hd x); [rewrite Hqs; apply in_or_app; now right | exact Hx'].
    + now apply (nodup_app_apart st q x Nq).
Qed.

(** The timer callback rejects its caller with the timeout error and takes
    the caller's entry, and nothing else, out of the queue. *)
Lemma timerFires_shape c now s effs s' :
  Inv cfg s -> timerFires cfg c now s = (effs, s') ->
  effs = [Rejected c (FetchtiumError.timeoutError now (queueTimeout cfg))] /\
  requestQueue s' = remove c (requestQueue s) /\
  executing s' = executing s /\
  activeRequests s' = activeRequests s /\
  arrivals s' = arrivals s.
Proof.
  intros I H. unfold timerFires in H. injection H as <- <-. simpl.
  repeat split; auto. apply splice_found. apply sorted_nodup. apply I.
Qed.

Lemma timerFires_inv c now s : Inv cfg s -> Inv cfg (snd (timerFires cfg c now s)).
Proof.
  intros I.
  destruct (timerFires cfg c now s) as [effs s'] eqn:E.
  destruct (timerFires_shape _ _ _ _ _ I E) as (_ & Hq & Hx & Ha & Hr).
  assert (Ht : timers s' = remove c (timers s)).
  { unfold timerFires in E. injection E as _ <-. reflexivity. }
  destruct I as [Hc Hb Hs Hqo He Htm Hbusy Hn Hd]. simpl.
  constructor; rewrite ?Hq, ?Hx, ?Ha, ?Hr; auto.
  - now apply sorted_remove.
  - rewrite Forall_forall in *. intros x H. apply Hqo. apply In_remove_iff in H. tauto.
  - now rewrite Ht, Htm.
  - intros H. apply Hbusy. intros Q. rewrite Q in H. now apply H.
  - intros x H. apply In_remove_iff in H. apply Hd. tauto.
Qed.

Lemma step_inv ev s effs s' : Inv cfg s -> step cfg ev s = Some (effs, s') -> Inv cfg s'.
Proof.
  intros I H. destruct ev as [|c|c now]; unfold step in H.
  - assert (E : call cfg s = (effs, s')) by congruence.
    replace s' with (snd (call cfg s)) by now rewrite E.
    now apply call_inv.
  - destruct (mem c (executing s)) eqn:M; [|discriminate].
    assert (E : done cfg c s = (effs, s')) by congruence.
    replace s' with (snd (done cfg c s)) by now rewrite E.
    apply done_inv; [exact I | now apply mem_In].
  - destruct (mem c (timers s)); [|discriminate].
    assert (E : timerFires cfg c now s = (effs, s')) by congruence.
    replace s' with (snd (timerFires cfg c now s)) by now rewrite E.
    now apply timerFires_inv.
Qed.

Lemma run_inv evs : forall s effs s',
  Inv cfg s -> run cfg evs s = Some (effs, s') -> Inv cfg s'.
Proof.
  induction evs as [|ev rest IH]; intros s effs s' I H; simpl in H.
  - now injection H as _ <-.
  - destruct (step cfg ev s) as [[e1 s1]|] eqn:E; [|discriminate].
    destruct (run cfg rest s1) as [[e2 s2]|] eqn:R; [|discriminate].
    injection H as _ <-. eapply IH; [|exact R]. eapply step_inv; eauto.
Qed.

End Steps.

Section Gone.
Variable cfg : RateLimitConfig.

Lemma step_gone c ev s effs s' :
  Inv cfg s -> gone c s -> step cfg ev s = Some (effs, s') ->
  gone c s' /\ ~ In (Started c) effs.
Proof.
  intros I (Ha & Hq & Hx) H. destruct ev as [|c0|c0 now]; unfold step in H.
  - assert (E : call cfg s = (effs, s')) by congruence.
    destruct (call_shape cfg _ _ _ I E) as (Hr & [(-> & Q & Q' & X)|(-> & Q' & X)]);
      unfold gone; rewrite Hr, Q', X.
    + repeat split; [lia | simpl; tauto | | ].
      * intros Hin. apply in_app_or in Hin. destruct Hin as [Hin|[<-|[]]]; [tauto | lia].
      * intros [Hin|[]]. injection Hin as <-. lia.
    + repeat split; [lia | | exact Hx | ].
      * intros Hin. apply in_app_or in Hin. destruct Hin as [Hin|[<-|[]]]; [tauto | lia].
      * intros [Hin|[]]. discriminate.
  - destruct (mem c0 (executing s)); [|discriminate].
    assert (E : done cfg c0 s = (effs, s')) by congruence.
    destruct (done_shape cfg _ _ _ _ E) as (Q & X & _ & Hr).
    assert (Ns : ~ In c (startedOf effs)).
    { intros Hin. apply Hq. rewrite <- Q. apply in_or_app. now left. }
    unfold gone. rewrite Hr, X. repeat split.
    + exact Ha.
    + intros Hin. apply Hq. rewrite <- Q. apply in_or_app. now right.
    + intros Hin. apply in_app_or in Hin. destruct Hin as [Hin|Hin]; [|tauto].
      apply In_remove_iff in Hin. tauto.
    + now rewrite In_startedOf.
  - destruct (mem c0 (timers s)); [|discriminate].
    assert (E : timerFires cfg c0 now s = (effs, s')) by congruence.
    destruct (timerFires_shape cfg _ _ _ _ _ I E) as (-> & Q & X & _ & Hr).
    unfold gone. rewrite Hr, Q, X. repeat split; auto.
    + intros Hin. apply In_remove_iff in Hin. tauto.
    + intros [Hin|[]]. discriminate.
Qed.

Lemma run_gone c evs : forall s effs s',
  Inv cfg s -> gone c s -> run cfg evs s = Some (effs, s') ->
  gone c s' /\ ~ In (Started c) effs.
Proof.
  induction evs as [|ev rest IH]; intros s effs s' I G H; simpl in H.
  - injection H as <- <-. split; [exact G | simpl; tauto].
  - destruct (step cfg ev s) as [[e1 s1]|] eqn:E; [|discriminate].
    destruct (run cfg rest s1) as [[e2 s2]|] eqn:R; [|discriminate].
    injection H as <- <-.
    destruct (step_gone _ _ _ _ _ I G E) as [G1 N1].
    destruct (IH _ _ _ (step_inv cfg _ _ _ _ I E) G1 R) as [G2 N2].
    split; [exact G2|]. intros Hin. apply in_app_or in Hin. tauto.
Qed.

End Gone.

Section Burst.
Variable cfg : RateLimitConfig.

Lemma run_snoc evs ev s :
  run cfg (evs ++ [ev]) s =
  match run cfg evs s with
  | Some (effs, s1) =>
      match step cfg ev s1 with
      | Some (effs', s2) => Some ((effs ++ effs')%list, s2)
      | None => None
      end
  | None => None
  end.
Proof.
  revert s. induction evs as [|e rest IH]; intros s; simpl.
  - destruct (step cfg ev s) as [[e1 s1]|]; [|reflexivity]. now rewrite app_nil_r.
  - destruct (step cfg e s) as [[e1 s1]|]; [|reflexivity].
    rewrite IH. destruct (run cfg rest s1) as [[e2 s2]|]; [|reflexivity].
    destruct (step cfg ev s2) as [[e3 s3]|]; [|reflexivity].
    now rewrite app_assoc.
Qed.

(** A burst of calls against a fresh gate: the first [maxConcurrent] callers
    execute, the others wait in arrival order. *)
Lemma burst_of_calls (m : nat) (n : nat) :
  maxConcurrent cfg = Z.of_nat m ->
  exists effs,
    run cfg (repeat Call n) init
    = Some (effs,
            {| activeRequests := Z.of_nat (Nat.min n m);
               requestQueue := seq m (n - m);
               timers := seq m (n - m);
               executing := seq 0 (Nat.min n m);
               arrivals := n |}).
Proof.
  intros M. induction n as [|n [effs IH]].
  - exists []. reflexivity.
  - replace (repeat Call (S n)) with (repeat Call n ++ [Call])%list
      by (rewrite <- repeat_cons; reflexivity).
    rewrite run_snoc, IH. unfold step, call. cbn [activeRequests requestQueue timers executing arrivals].
    rewrite M.
    destruct (Z.ltb_spec (Z.of_nat (Nat.min n m)) (Z.of_nat m)) as [Hlt|Hge].
    + assert (Hn : (n < m)%nat) by lia.
      eexists. f_equal. f_equal.
      replace (Nat.min (S n) m) with (S n) by lia.
      replace (Nat.min n m) with n by lia.
      replace (S n - m)%nat with 0%nat by lia. replace (n - m)%nat with 0%nat by lia.
      rewrite seq_S. simpl. f_equal. lia.
    + assert (Hn : (m <= n)%nat) by lia.
      eexists. f_equal. f_equal.
      replace (Nat.min (S n) m) with m by lia.
      replace (Nat.min n m) with m by lia.
      replace (S n - m)%nat with (S (n - m)) by lia.
      rewrite seq_S. replace (m + (n - m))%nat with n by lia. reflexivity.
Qed.

End Burst.

End GateFacts.

(** C4: for a limit [maxConcurrent >= 0], in every state the gate can reach
    the counter equals the number of bodies that are executing and never
    exceeds the limit; the queue is in arrival order and is non-empty only
    while the gate is full; and each turn releases callers first-in
    first-out: a call passes at once only when nobody waits and otherwise
    joins the back of the queue, a completion starts a front segment of the
    queue in queue order and goes on until the queue is empty or the gate is
    full again, and a timer starts nobody. *)
Theorem C4_gate_never_exceeds_limit_and_releases_fifo :
  forall (cfg : RateLimitConfig) (s : Gate.State),
    0 <= maxConcurrent cfg ->
    Gate.reachable cfg s ->
    Gate.activeRequests s = Z.of_nat (length (Gate.executing s)) /\
    Gate.activeRequests s <= maxConcurrent cfg /\
    StronglySorted lt (Gate.requestQueue s) /\
    (Gate.requestQueue s <> [] -> Gate.activeRequests s = maxConcurrent cfg) /\
    (forall ev effs' s',
        Gate.step cfg ev s = Some (effs', s') ->
        match ev with
        | Gate.Call =>
            (Gate.startedOf effs' = [Gate.arrivals s] /\
             Gate.requestQueue s = [] /\ Gate.requestQueue s' = [])
            \/
            (Gate.startedOf effs' = [] /\
             Gate.requestQueue s' = (Gate.requestQueue s ++ [Gate.arrivals s])%list)
        | Gate.Done _ =>
            (Gate.startedOf effs' ++ Gate.requestQueue s')%list = Gate.requestQueue s /\
            (Gate.requestQueue s' <> [] -> Gate.activeRequests s' = maxConcurrent cfg)
        | Gate.TimerFires c _ =>
            Gate.startedOf effs' = [] /\
            Gate.requestQueue s' = Gate.remove c (Gate.requestQueue s)
        end).
Proof.
  intros cfg s L [evs [effs R]].
  assert (I : Gate.Inv cfg s).
  { eapply GateFacts.run_inv; [apply GateFacts.init_inv; exact L | exact R]. }
  split; [apply I|]. split; [apply I|]. split; [apply I|]. split.
  { intros Q. pose proof (Gate.inv_busy _ _ I Q). pose proof (Gate.inv_bound _ _ I). lia. }
  intros ev effs' s' S.
  pose proof (GateFacts.step_inv cfg _ _ _ _ I S) as I'.
  destruct ev as [|c|c now]; unfold Gate.step in S.
  - assert (E : Gate.call cfg s = (effs', s')) by congruence.
    destruct (GateFacts.call_shape cfg _ _ _ I E) as (_ & [(-> & Q & Q' & _)|(-> & Q' & _)]).
    + left. auto.
    + right. auto.
  - destruct (Gate.mem c (Gate.executing s)); [|discriminate].
    assert (E : Gate.done cfg c s = (effs', s')) by congruence.
    destruct (GateFacts.done_shape cfg _ _ _ _ E) as (Q & _ & B & _).
    split; [exact Q|]. intros N. specialize (B N).
    pose proof (Gate.inv_bound _ _ I'). lia.
  - destruct (Gate.mem c (Gate.timers s)); [|discriminate].
    assert (E : Gate.timerFires cfg c now s = (effs', s')) by congruence.
    destruct (GateFacts.timerFires_shape cfg _ _ _ _ _ I E) as (-> & Q & _).
    split; [reflexivity | exact Q].
Qed.

(** Four calls against a limit of two: two execute, two wait in arrival
    order; when caller 0 completes, caller 2 is the one released. *)
Lemma C4_witness :
  (exists effs s,
      Gate.run Samples.limit2 [Gate.Call; Gate.Call; Gate.Call; Gate.Call] Gate.init
        = Some (effs, s) /\
      Gate.activeRequests s = 2 /\ Gate.executing s = [0%nat; 1%nat] /\
      Gate.requestQueue s = [2%nat; 3%nat] /\
      Gate.activeRequests s <= maxConcurrent Samples.limit2 /\
      exists effs' s',
        Gate.step Samples.limit2 (Gate.Done 0%nat) s = Some (effs', s') /\
        Gate.startedOf effs' = [2%nat] /\ Gate.requestQueue s' = [3%nat]).
Proof.
  eexists. eexists. split; [reflexivity|].
  pose proof (C4_gate_never_exceeds_limit_and_releases_fifo Samples.limit2 _
                ltac:(simpl; lia)
                (ex_intro _ [Gate.Call; Gate.Call; Gate.Call; Gate.Call]
                   (ex_intro _ _ eq_refl))) as (_ & B & _).
  repeat split; try reflexivity; try exact B.
  eexists. eexists. repeat split; reflexivity.
Defined.

(** C8: when the queue timer of a waiting caller fires, the caller's promise
    is rejected with the TIMEOUT error built from [queueTimeout], its entry
    leaves the queue, and whatever happens afterwards its body is never
    started: it never waits or executes again.  The timer of every waiting
    caller is pending, so the event can occur for each of them. *)
Theorem C8_queue_timeout_rejects_and_removes_for_good :
  forall (cfg : RateLimitConfig) (s : Gate.State) (c : Gate.Caller) (now : Z),
    0 <= maxConcurrent cfg ->
    Gate.reachable cfg s ->
    In c (Gate.requestQueue s) ->
    exists s1,
      Gate.step cfg (Gate.TimerFires c now) s
        = Some ([Gate.Rejected c (FetchtiumError.timeoutError now (queueTimeout cfg))], s1) /\
      code (FetchtiumError.timeoutError now (queueTimeout cfg)) = "TIMEOUT" /\
      ~ In c (Gate.requestQueue s1) /\
      Gate.requestQueue s1 = Gate.remove c (Gate.requestQueue s) /\
      Gate.activeRequests s1 = Gate.activeRequests s /\
      forall evs2 effs2 s2,
        Gate.run cfg evs2 s1 = Some (effs2, s2) ->
        ~ In (Gate.Started c) effs2 /\
        ~ In c (Gate.requestQueue s2) /\
        ~ In c (Gate.executing s2).
Proof.
  intros cfg s c now L [evs [effs R]] Q.
  assert (I : Gate.Inv cfg s).
  { eapply GateFacts.run_inv; [apply GateFacts.init_inv; exact L | exact R]. }
  destruct (Gate.timerFires cfg c now s) as [e1 s1] eqn:E.
  destruct (GateFacts.timerFires_shape cfg _ _ _ _ _ I E) as (-> & Hq & Hx & Ha & Hr).
  assert (S : Gate.step cfg (Gate.TimerFires c now) s
              = Some ([Gate.Rejected c (FetchtiumError.timeoutError now (queueTimeout cfg))], s1)).
  { unfold Gate.step. rewrite (Gate.inv_timers _ _ I).
    apply GateFacts.mem_In in Q. rewrite Q. now rewrite E. }
  exists s1. split; [exact S|]. split; [reflexivity|].
  assert (N1 : ~ In c (Gate.requestQueue s1)).
  { rewrite Hq. intros H. apply GateFacts.In_remove_iff in H. tauto. }
  split; [exact N1|]. split; [exact Hq|]. split; [exact Ha|].
  intros evs2 effs2 s2 R2.
  assert (G : Gate.gone c s1).
  { unfold Gate.gone. rewrite Hr, Hx. repeat split; [|exact N1|].
    - pose proof (Gate.inv_queue_old _ _ I) as F. rewrite Forall_forall in F. now apply F.
    - now apply (Gate.inv_disjoint _ _ I). }
  destruct (GateFacts.run_gone cfg c evs2 _ _ _ (GateFacts.step_inv cfg _ _ _ _ I S) G R2)
    as [(_ & G2 & G3) N2].
  auto.
Qed.

(** Three calls against a limit of two leave caller 2 waiting; its timer
    fires, and the later completion of caller 0 starts nobody. *)
Lemma C8_witness :
  exists s s1,
    Gate.run Samples.limit2 [Gate.Call; Gate.Call; Gate.Call] Gate.init
      = Some ([Gate.Started 0%nat; Gate.Started 1%nat; Gate.TimerSet 2%nat 30000], s) /\
    Gate.step Samples.limit2 (Gate.TimerFires 2%nat 31000) s
      = Some ([Gate.Rejected 2%nat (FetchtiumError.timeoutError 31000 30000)], s1) /\
    ~ In 2%nat (Gate.requestQueue s1) /\
    forall effs2 s2,
      Gate.run Samples.limit2 [Gate.Done 0%nat] s1 = Some (effs2, s2) ->
      ~ In (Gate.Started 2%nat) effs2.
Proof.
  eexists.
  destruct (C8_queue_timeout_rejects_and_removes_for_good Samples.limit2 _ 2%nat 31000
              ltac:(simpl; lia)
              (ex_intro _ [Gate.Call; Gate.Call; Gate.Call] (ex_intro _ _ eq_refl))
              ltac:(simpl; tauto))
    as (s1 & S & _ & N & _ & _ & After).
  exists s1. split; [reflexivity|]. split; [exact S|]. split; [exact N|].
  intros effs2 s2 R. now apply (After _ _ _ R).
Defined.

(* ====================================================================== *)
(** * Properties of the retry loop *)
(* ====================================================================== *)

Ltac unfold_m :=
  cbv beta iota zeta delta
    [FetchtiumClient.request bind FetchtiumClient.generateRequestId
     FetchtiumClient.dateNow gets modify ret throw FetchtiumClient.globalFetch
     FetchtiumClient.throwNew FetchtiumClient.sleep];
  cbn [calls now drawn cache gate sleeps].

Section RetryFacts.
Variable parseURL : string -> option Utils.URL.
Variable transport : Transport.
Variable self : Client.
Variable url : string.
Variable platform : Utils.Platform.
Hypothesis url_truthy : Js.truthyStr url = true.
Hypothesis url_valid : Utils.isValidURL parseURL url = true.
Hypothesis url_platform : Utils.detectPlatform parseURL url = Some platform.
Hypothesis cache_off : enabled (cacheConfig self) = false.

Local Abbreviation idle := (FetchtiumClient.idle self).
Local Abbreviation hintOf := FetchtiumClient.hintOf.

Lemma request_429 endpoint method body (s : St) (r : HttpResponse) :
  status r = 429 ->
  (forall req, exists lat, transport (length (calls s)) req = (lat, FetchResponds r)) ->
  exists s',
    FetchtiumClient.request transport self endpoint method body s
    = (Threw (ThrowError (FetchtiumError.rateLimited (now s') (hintOf r))), s') /\
    cache s' = cache s /\ sleeps s' = sleeps s /\ gate s' = gate s /\
    length (calls s') = S (length (calls s)).
Proof.
  intros St T.
  unfold_m.
  match goal with |- context [transport _ ?req] => destruct (T req) as [lat E]; rewrite E end.
  cbv beta iota.
  unfold ok, FetchtiumClient.handleHTTPError. rewrite St. cbv beta iota zeta.
  change (negb ((200 <=? 429) && (429 <=? 299))) with true.
  change (429 =? 400) with false. change (429 =? 401) with false.
  change (429 =? 403) with false. change (429 =? 404) with false.
  change (429 =? 429) with true. cbv iota.
  unfold_m.
  match goal with |- exists s', (_, ?S) = _ /\ _ => exists S end.
  split; [reflexivity|]. cbn [calls now drawn cache gate sleeps].
  rewrite length_app. simpl. repeat split; lia.
Qed.

Lemma request_ok endpoint method body (s : St) (r : HttpResponse) (d : FetchtiumResponse) :
  ok r = true -> body_json r = inl d ->
  (forall req, exists lat, transport (length (calls s)) req = (lat, FetchResponds r)) ->
  exists s',
    FetchtiumClient.request transport self endpoint method body s = (Returned d, s') /\
    cache s' = cache s /\ sleeps s' = sleeps s /\ gate s' = gate s /\
    length (calls s') = S (length (calls s)).
Proof.
  intros Ok B T.
  unfold_m.
  match goal with |- context [transport _ ?req] => destruct (T req) as [lat E]; rewrite E end.
  cbv beta iota. rewrite Ok, B. cbn [negb]. cbv beta iota.
  match goal with |- exists s', (_, ?S) = _ /\ _ => exists S end.
  split; [reflexivity|]. cbn [calls now drawn cache gate sleeps].
  rewrite length_app. simpl. repeat split; lia.
Qed.

(** A lone caller passes the gate, and the gate is as before once the body
    has settled. *)
Lemma executeWithRateLimit_idle {A} (fn : M A) (s : St) :
  idle s ->
  exists g1,
    forall r s2, fn (set_gate g1 s) = (r, s2) -> gate s2 = g1 ->
    exists g2,
      FetchtiumClient.executeWithRateLimit self fn s = (r, set_gate g2 s2) /\
      Gate.activeRequests g2 = Gate.activeRequests (gate s) /\
      Gate.requestQueue g2 = [].
Proof.
  intros [A0 Q].
  unfold FetchtiumClient.executeWithRateLimit. cbv zeta.
  unfold Gate.call at 1.
  destruct (Z.ltb_spec (Gate.activeRequests (gate s)) (maxConcurrent (rateLimitConfig self)));
    [|lia].
  eexists. intros r s2 F G. rewrite F.
  unfold Gate.done, Gate.processQueue. rewrite G. simpl Gate.requestQueue. rewrite Q.
  simpl. eexists. split; [reflexivity|]. simpl. split; [lia | reflexivity].
Qed.

Lemma fetch_429 (s : St) (r : HttpResponse) :
  idle s -> status r = 429 ->
  (forall req, exists lat, transport (length (calls s)) req = (lat, FetchResponds r)) ->
  exists s',
    FetchtiumClient.fetch parseURL transport self url s
    = (Threw (ThrowError (FetchtiumError.rateLimited (now s') (hintOf r))), s') /\
    idle s' /\ cache s' = cache s /\ sleeps s' = sleeps s /\
    length (calls s') = S (length (calls s)).
Proof.
  intros I St T.
  unfold FetchtiumClient.fetch.
  unfold bind at 1. rewrite (validateURL_valid parseURL url s url_truthy url_valid), url_platform.
  unfold bind at 1. unfold FetchtiumClient.getFromCache, Cache.getFromCache.
  rewrite cache_off. cbn [negb fst snd]. cbv beta iota.
  unfold bind at 1. unfold FetchtiumClient.generateRequestId at 1. unfold_m.
  match goal with |- context [FetchtiumClient.executeWithRateLimit self ?fn ?s0] =>
    destruct (executeWithRateLimit_idle fn s0) as [g1 X]; [exact I|];
    destruct (request_429 ENDPOINTS.fetch POST [("url", Some url)] (set_gate g1 s0) r St)
      as (s2 & R & C2 & S2 & G2 & L2); [exact T|];
    destruct (X _ _ R G2) as (g2 & E & A2 & Q2); rewrite E
  end.
  exists (set_gate g2 s2). split; [reflexivity|].
  cbn [calls now drawn cache gate sleeps set_gate] in *.
  repeat split; auto. 
  - destruct I as [I1 I2]. unfold FetchtiumClient.idle. cbn [gate set_gate]. rewrite A2. exact I1.
Qed.

Lemma setCache_off (now0 : Z) (u : string) (d : FetchtiumResponse) (c : Cache.t) :
  Cache.setCache (cacheConfig self) now0 u d c = c.
Proof. unfold Cache.setCache. now rewrite cache_off. Qed.

Lemma fetch_ok (s : St) (r : HttpResponse) (d : FetchtiumResponse) :
  idle s -> ok r = true -> body_json r = inl d -> success d = true ->
  (forall req, exists lat, transport (length (calls s)) req = (lat, FetchResponds r)) ->
  exists s',
    FetchtiumClient.fetch parseURL transport self url s = (Returned d, s') /\
    idle s' /\ cache s' = cache s /\ sleeps s' = sleeps s /\
    length (calls s') = S (length (calls s)).
Proof.
  intros I Ok B Sd T.
  unfold FetchtiumClient.fetch.
  unfold bind at 1. rewrite (validateURL_valid parseURL url s url_truthy url_valid), url_platform.
  unfold bind at 1. unfold FetchtiumClient.getFromCache, Cache.getFromCache.
  rewrite cache_off. cbn [negb fst snd]. cbv beta iota.
  unfold bind at 1. unfold FetchtiumClient.generateRequestId at 1. unfold_m.
  match goal with |- context [FetchtiumClient.executeWithRateLimit self ?fn ?s0] =>
    destruct (executeWithRateLimit_idle fn s0) as [g1 X]; [exact I|];
    destruct (request_ok ENDPOINTS.fetch POST [("url", Some url)] (set_gate g1 s0) r d Ok B)
      as (s2 & R & C2 & S2 & G2 & L2); [exact T|];
    destruct (X _ _ R G2) as (g2 & E & A2 & Q2); rewrite E
  end.
  rewrite Sd. cbn [negb]. cbv beta iota.
  unfold FetchtiumClient.setCache. unfold_m. rewrite setCache_off.
  eexists. split; [reflexivity|].
  cbn [calls now drawn cache gate sleeps set_gate set_cache] in *.
  repeat split; auto.
  - destruct I as [I1 I2]. cbn [gate set_gate set_cache]. rewrite A2. exact I1.
Qed.

Section Loop.
Variable config : RetryConfig.
Variable answers : nat -> HttpResponse.
Hypothesis retry_rate_limited : Js.arrIncludes (retryableErrors config) "RATE_LIMITED" = true.
Hypothesis responds : forall i req, exists lat, transport i req = (lat, FetchResponds (answers i)).

Local Abbreviation backoff := (FetchtiumClient.backoff config).

Lemma retryWait_rateLimited (attempt t : Z) (h : option Z) :
  FetchtiumClient.retryWait config (attempt + 1) (FetchtiumError.rateLimited t h)
  = retryDelay config * backoffMultiplier config ^ attempt.
Proof.
  unfold FetchtiumClient.retryWait.
  replace (attempt + 1 - 1) with attempt by lia. reflexivity.
Qed.

Lemma loop_eq (fuel : nat) (attempt : Z) (lastError : option FetchtiumError) (s : St) :
  FetchtiumClient.fetchWithRetry_loop parseURL transport self (S fuel) config url
    attempt lastError s
  = if attempt <=? maxRetries config then
      match FetchtiumClient.fetch parseURL transport self url s with
      | (Returned result, s1) => Some (Returned result, s1)
      | (Threw (ThrowError error), s1) =>
          if negb (Js.arrIncludes (retryableErrors config) (code error))
             || (attempt >=? maxRetries config)
          then Some (Threw (ThrowError error), s1)
          else
            let attempt' := attempt + 1 in
            let '(_, s2) :=
              FetchtiumClient.sleep (FetchtiumClient.retryWait config attempt' error) s1 in
            FetchtiumClient.fetchWithRetry_loop parseURL transport self fuel config url
              attempt'
              (Some (FetchtiumClient.with_context error
                       (set_retryInfo (context error) attempt' (maxRetries config))))
              s2
      | (Threw t, s1) => Some (Threw t, s1)
      end
    else
      Some (Threw (match lastError with
                   | Some e => ThrowError e
                   | None => ThrowUndefined
                   end), s).
Proof. reflexivity. Qed.

Lemma sleep_spec (ms : Z) (s : St) :
  exists s',
    FetchtiumClient.sleep ms s = (Returned tt, s') /\
    cache s' = cache s /\ gate s' = gate s /\ calls s' = calls s /\
    sleeps s' = (sleeps s ++ [ms])%list.
Proof. eexists. split; [reflexivity|]. simpl. auto. Qed.

(** After a 429 answer and with retries left, the loop sleeps the backoff
    delay and goes round again. *)
Lemma loop_retries (fuel : nat) (attempt : Z) (lastError : option FetchtiumError) (s : St) :
  idle s ->
  attempt < maxRetries config ->
  status (answers (length (calls s))) = 429 ->
  exists s2 lastError',
    FetchtiumClient.fetchWithRetry_loop parseURL transport self (S fuel) config url
      attempt lastError s
    = FetchtiumClient.fetchWithRetry_loop parseURL transport self fuel config url
        (attempt + 1) lastError' s2 /\
    idle s2 /\ length (calls s2) = S (length (calls s)) /\
    sleeps s2 = (sleeps s ++ [retryDelay config * backoffMultiplier config ^ attempt])%list.
Proof.
  intros I A F. rewrite loop_eq.
  destruct (Z.leb_spec attempt (maxRetries config)); [|lia].
  destruct (fetch_429 s (answers (length (calls s))) I F) as (s1 & E & I1 & _ & S1 & L1).
  { intros; apply responds. }
  rewrite E.
  change (code (FetchtiumError.rateLimited (now s1) (hintOf (answers (length (calls s))))))
    with "RATE_LIMITED".
  rewrite retry_rate_limited. cbn [negb orb].
  destruct (Z.geb_spec attempt (maxRetries config)); [lia|].
  cbv zeta. rewrite retryWait_rateLimited.
  destruct (sleep_spec (retryDelay config * backoffMultiplier config ^ attempt) s1)
    as (s2 & Es & C2 & G2 & K2 & S2).
  rewrite Es. exists s2. eexists. split; [reflexivity|].
  split; [|split].
  - unfold FetchtiumClient.idle in *. now rewrite G2.
  - now rewrite K2.
  - now rewrite S2, S1.
Qed.

Lemma loop_succeeds (d : FetchtiumResponse) (k : nat) :
  forall (fuel : nat) (attempt : Z) (lastError : option FetchtiumError) (s : St),
    idle s ->
    attempt + Z.of_nat k <= maxRetries config ->
    (k < fuel)%nat ->
    (forall i, (i < k)%nat -> status (answers (length (calls s) + i)) = 429) ->
    ok (answers (length (calls s) + k)) = true ->
    body_json (answers (length (calls s) + k)) = inl d ->
    success d = true ->
    exists s',
      FetchtiumClient.fetchWithRetry_loop parseURL transport self fuel config url
        attempt lastError s = Some (Returned d, s') /\
      length (calls s') = (length (calls s) + k + 1)%nat /\
      sleeps s' = (sleeps s ++ backoff attempt k)%list.
Proof.
  induction k as [|k IH]; intros fuel attempt lastError s I A F Fail Ok B Sd;
    (destruct fuel as [|fuel]; [lia|]).
  - rewrite loop_eq. destruct (Z.leb_spec attempt (maxRetries config)); [|lia].
    rewrite Nat.add_0_r in Ok, B.
    destruct (fetch_ok s _ d I Ok B Sd) as (s' & E & _ & _ & S' & L'); [intros; apply responds|].
    rewrite E. exists s'. split; [reflexivity|]. split; [lia|].
    simpl. now rewrite app_nil_r.
  - destruct (loop_retries fuel attempt lastError s I) as (s2 & le & E & I2 & L2 & S2).
    { lia. }
    { rewrite <- (Nat.add_0_r (length (calls s))). apply Fail. lia. }
    rewrite E.
    destruct (IH fuel (attempt + 1) le s2) as (s' & E' & L' & S'); try assumption; try lia.
    + intros i Hi. rewrite L2. replace (S (length (calls s)) + i)%nat
        with (length (calls s) + S i)%nat by lia. apply Fail. lia.
    + rewrite L2. replace (S (length (calls s)) + k)%nat
        with (length (calls s) + S k)%nat by lia. exact Ok.
    + rewrite L2. replace (S (length (calls s)) + k)%nat
        with (length (calls s) + S k)%nat by lia. exact B.
    + exists s'. split; [exact E'|]. split; [lia|].
      rewrite S', S2, <- app_assoc. reflexivity.
Qed.

(** With every answer a 429, the loop gives up at [attempt = maxRetries] and
    throws the error of that last attempt. *)
Lemma loop_exhausts (k : nat) :
  forall (fuel : nat) (attempt : Z) (lastError : option FetchtiumError) (s : St),
    idle s ->
    attempt + Z.of_nat k = maxRetries config ->
    (k < fuel)%nat ->
    (forall i, (i <= k)%nat -> status (answers (length (calls s) + i)) = 429) ->
    exists s',
      FetchtiumClient.fetchWithRetry_loop parseURL transport self fuel config url
        attempt lastError s
      = Some (Threw (ThrowError
                (FetchtiumError.rateLimited (now s')
                   (hintOf (answers (length (calls s) + k))))), s') /\
      length (calls s') = (length (calls s) + k + 1)%nat /\
      sleeps s' = (sleeps s ++ backoff attempt k)%list.
Proof.
  induction k as [|k IH]; intros fuel attempt lastError s I A F Fail;
    (destruct fuel as [|fuel]; [lia|]).
  - rewrite loop_eq. destruct (Z.leb_spec attempt (maxRetries config)); [|lia].
    destruct (fetch_429 s (answers (length (calls s))) I) as (s1 & E & I1 & _ & S1 & L1).
    { rewrite <- (Nat.add_0_r (length (calls s))). apply Fail. lia. }
    { intros; apply responds. }
    rewrite E.
    change (code (FetchtiumError.rateLimited (now s1) (hintOf (answers (length (calls s))))))
      with "RATE_LIMITED".
    rewrite retry_rate_limited. cbn [negb orb].
    destruct (Z.geb_spec attempt (maxRetries config)); [|lia].
    exists s1. rewrite Nat.add_0_r. split; [reflexivity|]. split; [lia|].
    simpl. now rewrite app_nil_r.
  - destruct (loop_retries fuel attempt lastError s I) as (s2 & le & E & I2 & L2 & S2).
    { lia. }
    { rewrite <- (Nat.add_0_r (length (calls s))). apply Fail. lia. }
    rewrite E.
    destruct (IH fuel (attempt + 1) le s2) as (s' & E' & L' & S'); try assumption; try lia.
    + intros i Hi. rewrite L2. replace (S (length (calls s)) + i)%nat
        with (length (calls s) + S i)%nat by lia. apply Fail. lia.
    + exists s'. rewrite L2 in E'.
      replace (S (length (calls s)) + k)%nat with (length (calls s) + S k)%nat in E' by lia.
      split; [exact E'|]. split; [lia|].
      rewrite S', S2, <- app_assoc. reflexivity.
Qed.

End Loop.
End RetryFacts.

(** C6: the URL being valid and of a supported platform, the cache off, the
    gate free and RATE_LIMITED among the retryable codes, let the remote side
    answer 429 to the next [n] calls and with a successful body to the call
    after them.  If [n <= maxRetries], [fetchWithRetry] returns that body
    after exactly [n + 1] calls of the transport; if [maxRetries < n], it
    throws the RATE_LIMITED error of its last attempt after exactly
    [maxRetries + 1] calls. *)
Theorem C6_retry_returns_after_n_failures_or_throws_last_error :
  forall (parseURL : string -> option Utils.URL) (transport : Transport) (self : Client)
         (url : string) (platform : Utils.Platform) (override : PartialRetryConfig)
         (answers : nat -> HttpResponse) (n : nat) (d : FetchtiumResponse) (s : St),
    Js.truthyStr url = true ->
    Utils.isValidURL parseURL url = true ->
    Utils.detectPlatform parseURL url = Some platform ->
    enabled (cacheConfig self) = false ->
    FetchtiumClient.idle self s ->
    Js.arrIncludes (retryableErrors (FetchtiumClient.mergeRetryConfig self override))
      "RATE_LIMITED" = true ->
    0 <= maxRetries (FetchtiumClient.mergeRetryConfig self override) ->
    (forall i req, exists lat, transport i req = (lat, FetchResponds (answers i))) ->
    (forall i, (i < n)%nat -> status (answers (length (calls s) + i)%nat) = 429) ->
    ok (answers (length (calls s) + n)%nat) = true ->
    body_json (answers (length (calls s) + n)%nat) = inl d ->
    success d = true ->
    let config := FetchtiumClient.mergeRetryConfig self override in
    (Z.of_nat n <= maxRetries config ->
       exists s',
         FetchtiumClient.fetchWithRetry parseURL transport self url override s
           = Some (Returned d, s') /\
         length (calls s') = (length (calls s) + n + 1)%nat)
    /\
    (maxRetries config < Z.of_nat n ->
       exists s',
         FetchtiumClient.fetchWithRetry parseURL transport self url override s
           = Some (Threw (ThrowError
                     (FetchtiumError.rateLimited (now s')
                        (FetchtiumClient.hintOf (answers (length (calls s) + Z.to_nat (maxRetries config))%nat)))),
                   s') /\
         code (FetchtiumError.rateLimited (now s')
                 (FetchtiumClient.hintOf (answers (length (calls s) + Z.to_nat (maxRetries config))%nat)))
           = "RATE_LIMITED" /\
         length (calls s') = (length (calls s) + Z.to_nat (maxRetries config) + 1)%nat).
Proof.
  intros parseURL transport self url platform override answers n d s
         T V P C I R M Resp Fail Ok B Sd config.
  unfold FetchtiumClient.fetchWithRetry.
  rewrite (validateURL_valid parseURL url s T V). fold config.
  change (0 <= maxRetries config) in M.
  split.
  - intros Hn.
    destruct (loop_succeeds parseURL transport self url platform T V P C config answers
                R Resp d n (S (Z.to_nat (maxRetries config + 1))) 0 None s)
      as (s' & E & L & _); try assumption; try lia.
    exists s'. split; [exact E | exact L].
  - intros Hn.
    assert (Fail' : forall i, (i <= Z.to_nat (maxRetries config))%nat ->
                      status (answers (length (calls s) + i)%nat) = 429).
    { intros i Hi. apply Fail. lia. }
    destruct (loop_exhausts parseURL transport self url platform T V P C config answers
                R Resp (Z.to_nat (maxRetries config))
                (S (Z.to_nat (maxRetries config + 1))) 0 None s I
                ltac:(lia) ltac:(lia) Fail')
      as (s' & E & L & _).
    exists s'. split; [exact E|]. split; [reflexivity | exact L].
Qed.

(** Two 429 answers, then a success, with the default three retries: the
    success is returned after three calls. *)
Lemma C6_witness :
  exists s',
    FetchtiumClient.fetchWithRetry Utils.plainURL (Samples.failThenOk 2 None)
      Samples.client Samples.urlA noOverride (initialSt 1000)
      = Some (Returned (Samples.response "a"), s') /\
    length (calls s') = 3%nat.
Proof.
  destruct (C6_retry_returns_after_n_failures_or_throws_last_error
              Utils.plainURL (Samples.failThenOk 2 None) Samples.client Samples.urlA
              Utils.youtube noOverride
              (fun i => if Nat.ltb i 2 then Samples.tooManyRequests None
                        else Samples.okResponse "a")
              2%nat (Samples.response "a") (initialSt 1000))
    as [Hsucc _]; try reflexivity.
  - split; [simpl; lia | reflexivity].
  - simpl. lia.
  - intros i req. exists 120. unfold Samples.failThenOk. now destruct (Nat.ltb i 2).
  - intros i Hi. simpl. destruct i as [|[|i]]; [reflexivity | reflexivity | lia].
  - apply Hsucc. simpl. lia.
Defined.

(** C1 (the code departs from it): the transport parses the Retry-After
    header of a 429 answer and passes it to [rateLimited], which puts it in
    the message and drops it: the error's context has no [retryAfter].  The
    orchestrator therefore always waits the backoff delay
    [retryDelay * backoffMultiplier ^ attempt].  With the default
    configuration and a first answer [429, Retry-After: 10], the wait before
    the second attempt is 1000 ms, not [max 1000 (10 * 1000) = 10000] ms. *)
Theorem C1_retry_after_hint_never_reaches_the_wait :
  (forall (t : Z) (h : option Z),
      ctx_retryAfter (context (FetchtiumError.rateLimited t h)) = None) /\
  (forall (config : RetryConfig) (attempt t : Z) (h : option Z),
      FetchtiumClient.retryWait config (attempt + 1) (FetchtiumError.rateLimited t h)
      = retryDelay config * backoffMultiplier config ^ attempt) /\
  FetchtiumClient.hintOf (Samples.tooManyRequests (Some "10")) = Some 10 /\
  (exists s',
      FetchtiumClient.fetchWithRetry Utils.plainURL (Samples.failThenOk 1 (Some "10"))
        Samples.client Samples.urlA noOverride (initialSt 0)
        = Some (Returned (Samples.response "a"), s') /\
      length (calls s') = 2%nat /\
      sleeps s' = [1000]) /\
  Z.max (retryDelay DEFAULT_CONFIG.retry * backoffMultiplier DEFAULT_CONFIG.retry ^ 0)
        (10 * 1000) = 10000.
Proof.
  split; [reflexivity|]. split; [apply retryWait_rateLimited|].
  split; [reflexivity|]. split; [|reflexivity].
  eexists. split; [vm_compute; reflexivity|]. split; reflexivity.
Qed.

(* ====================================================================== *)
(** * Properties of [fetchBatch] *)
(* ====================================================================== *)

Module BatchFacts.
Import FetchBatch.

Section Steps.
Variable cfg : Config.

Lemma step_doomed x ev s s' :
  doomed x s -> step cfg ev s = Some s' ->
  doomed x s' /\ exists more, results s' = (results s ++ more)%list.
Proof.
  intros D H. destruct ev as [id o now|now]; simpl in H.
  - destruct (findTask id (active s)) as [t|]; [|discriminate].
    injection H as <-. simpl. split; [|eauto].
    unfold doomed in *. simpl. destruct D as [-> | ->]; auto.
  - destruct D as [D|D]; rewrite D in H; [|discriminate].
    injection H as <-. unfold doomed. simpl. split; [now right|].
    exists []. now rewrite app_nil_r.
Qed.

Lemma run_doomed x evs : forall s s',
  doomed x s -> run cfg evs s = Some s' ->
  doomed x s' /\ exists more, results s' = (results s ++ more)%list.
Proof.
  induction evs as [|ev rest IH]; intros s s' D H; simpl in H.
  - injection H as <-. split; [exact D|]. exists []. now rewrite app_nil_r.
  - destruct (step cfg ev s) as [s1|] eqn:E; [|discriminate].
    destruct (step_doomed _ _ _ _ D E) as [D1 [m1 R1]].
    destruct (IH _ _ D1 H) as [D2 [m2 R2]].
    split; [exact D2|]. exists (m1 ++ m2)%list. now rewrite R2, R1, app_assoc.
Qed.

End Steps.

End BatchFacts.

(** C2 (as the code has it): with [stopOnError = true], when the [fetch] of
    an active task fails with [x] while the main loop awaits a race that has
    not settled yet, the failure is appended to the results at once, with
    [success = false], and the race is lost to [x].  From then on the results
    only grow, and the main loop, whenever it resumes, rejects the batch call
    with [x] itself.  The list of results stays local to the call: it is
    neither returned nor attached to [x]. *)
Theorem C2_stop_on_error_records_then_rejects_with_the_item_error :
  forall (cfg : FetchBatch.Config) (s s1 : FetchBatch.State) (task : nat)
         (x : Thrown) (now : Z),
    FetchBatch.stopOnError cfg = true ->
    FetchBatch.phase s = FetchBatch.Awaiting None ->
    FetchBatch.step cfg (FetchBatch.Settle task (Threw x) now) s = Some s1 ->
    (exists t,
        FetchBatch.findTask task (FetchBatch.active s) = Some t /\
        FetchBatch.results s1
          = (FetchBatch.results s ++ [FetchBatch.record t (Threw x) now])%list /\
        FetchBatch.success (FetchBatch.record t (Threw x) now) = false /\
        FetchBatch.url (FetchBatch.record t (Threw x) now) = FetchBatch.task_url t) /\
    FetchBatch.phase s1 = FetchBatch.Awaiting (Some (Threw x)) /\
    (forall evs s2,
        FetchBatch.run cfg evs s1 = Some s2 ->
        (exists more, FetchBatch.results s2 = (FetchBatch.results s1 ++ more)%list) /\
        (FetchBatch.outcome s2 = None \/ FetchBatch.outcome s2 = Some (Threw x)) /\
        (FetchBatch.outcome s2 = None ->
           forall now',
           exists s3,
             FetchBatch.step cfg (FetchBatch.Resume now') s2 = Some s3 /\
             FetchBatch.outcome s3 = Some (Threw x) /\
             FetchBatch.results s3 = FetchBatch.results s2)).
Proof.
  intros cfg s s1 task x now Stop Ph H. simpl in H.
  destruct (FetchBatch.findTask task (FetchBatch.active s)) as [t|] eqn:F; [|discriminate].
  injection H as <-. simpl. rewrite Ph. unfold FetchBatch.settlement. rewrite Stop.
  split; [exists t; auto|]. split; [reflexivity|].
  intros evs s2 R.
  match type of R with
  | FetchBatch.run _ _ ?S = _ =>
      assert (D0 : FetchBatch.doomed x S) by (left; reflexivity);
      destruct (BatchFacts.run_doomed cfg x evs S s2 D0 R) as [D M]
  end.
  split; [exact M|].
  unfold FetchBatch.outcome. destruct D as [D|D]; rewrite D.
  - split; [now left|]. intros _ now'.
    eexists. split; [reflexivity|]. split; reflexivity.
  - split; [now right|]. discriminate.
Qed.

(** [urlA] succeeds, then [urlB] fails: the failure is recorded behind the
    success and the batch rejects with the error of [urlB]. *)
Lemma C2_witness :
  exists s1 s3,
    FetchBatch.step Samples.stopAtFirst
      (FetchBatch.Settle 1 (Threw (ThrowError Samples.serverDown)) 20)
      Samples.batchAwaitingB = Some s1 /\
    map FetchBatch.success (FetchBatch.results s1) = [true; false] /\
    FetchBatch.step Samples.stopAtFirst (FetchBatch.Resume 20) s1 = Some s3 /\
    FetchBatch.outcome s3 = Some (Threw (ThrowError Samples.serverDown)).
Proof.
  destruct (FetchBatch.step Samples.stopAtFirst
              (FetchBatch.Settle 1 (Threw (ThrowError Samples.serverDown)) 20)
              Samples.batchAwaitingB) as [s1|] eqn:E; [|discriminate].
  pose proof (C2_stop_on_error_records_then_rejects_with_the_item_error
                Samples.stopAtFirst Samples.batchAwaitingB s1 1%nat
                (ThrowError Samples.serverDown) 20 eq_refl eq_refl E)
    as ((t & F & R & _) & Ph & After).
  destruct (After [] s1 eq_refl) as (_ & _ & Rej).
  assert (O : FetchBatch.outcome s1 = None)
    by (unfold FetchBatch.outcome; now rewrite Ph).
  destruct (Rej O 20) as (s3 & S3 & O3 & _).
  exists s1, s3. split; [reflexivity|]. split; [|split; [exact S3 | exact O3]].
  rewrite R. injection F as <-. reflexivity.
Defined.

(** C2 as stated fails: two runs of the same batch that differ in the
    payload of the first, successful URL reject with the very same error, so
    nothing the caller receives tells the recorded results apart. *)
Lemma C2_counterexample_partial_results_are_lost :
  ~ FetchBatch.partialResultsExposed.
Proof.
  intros [recover H].
  pose proof (H Samples.stopAtFirst [Samples.urlA; Samples.urlB] 0
                (Samples.okThenDown "a") 20 _ (ThrowError Samples.serverDown)
                ltac:(discriminate) eq_refl eq_refl eq_refl) as H1.
  pose proof (H Samples.stopAtFirst [Samples.urlA; Samples.urlB] 0
                (Samples.okThenDown "b") 20 _ (ThrowError Samples.serverDown)
                ltac:(discriminate) eq_refl eq_refl eq_refl) as H2.
  rewrite H1 in H2. vm_compute in H2. discriminate.
Qed.

(** When the race has already been won by a task that succeeded, a failure
    settling before the main loop resumes is recorded but does not reject the
    batch: the loop carries on and here returns both results. *)
Example batch_failure_behind_a_settled_race_is_only_recorded :
  exists s,
    FetchBatch.run Samples.stopAtFirst2
      [ FetchBatch.Settle 0 (Returned (Samples.response "a")) 10;
        FetchBatch.Settle 1 (Threw (ThrowError Samples.serverDown)) 10;
        FetchBatch.Resume 10 ]
      (FetchBatch.start Samples.stopAtFirst2 [Samples.urlA; Samples.urlB] 0) = Some s /\
    FetchBatch.outcome s = Some (Returned (FetchBatch.results s)) /\
    map FetchBatch.success (FetchBatch.results s) = [true; false].
Proof. eexists. split; [reflexivity|]. split; reflexivity. Qed.

(* ====================================================================== *)
(** * Further properties of the client *)
(* ====================================================================== *)

Section ClientFacts.
Variable parseURL : string -> option Utils.URL.
Variable dispositionFilename : string -> option string.
Variable transport : Transport.
Variable self : Client.

Local Abbreviation sentBy := (Paths.sentBy self).
Local Abbreviation afterMiss := Paths.afterMiss.
Local Abbreviation FetchCase := (Paths.FetchCase parseURL transport self).
Local Abbreviation blobFrame := (Paths.blobFrame self).
Local Abbreviation allSuccessful := Paths.allSuccessful.

Lemma throwNew_spec {A} (mk : Z -> FetchtiumError) (s : St) :
  @FetchtiumClient.throwNew A mk s = (Threw (ThrowError (mk (now s))), s).
Proof. reflexivity. Qed.

Lemma handleHTTPError_throws {A} (r : HttpResponse) (s : St) :
  exists e,
    @FetchtiumClient.handleHTTPError A r s = (Threw (ThrowError e), s) /\
    statusCode e = Some (status r) /\
    (status r = 429 \/ status r = 500 \/ status r = 502 \/ status r = 503 \/ status r = 504 ->
     FetchtiumError.isRetryable e = true) /\
    (status r = 401 \/ status r = 404 -> FetchtiumError.isRetryable e = false).
Proof.
  unfold FetchtiumClient.handleHTTPError.
  destruct (Z.eqb_spec (status r) 400) as [E|N400].
  { destruct (body_error r) as [[c m]|]; rewrite throwNew_spec; eexists;
      (split; [reflexivity|]); (split; [simpl; now rewrite E|]); split; intros H; lia. }
  destruct (Z.eqb_spec (status r) 401) as [E|N401].
  { rewrite throwNew_spec; eexists; (split; [reflexivity|]); (split; [simpl; now rewrite E|]).
    split; intros H; [lia | reflexivity]. }
  destruct (Z.eqb_spec (status r) 403) as [E|N403].
  { destruct (body_error r) as [[c m]|]; rewrite throwNew_spec; eexists;
      (split; [reflexivity|]); (split; [simpl; now rewrite E|]); split; intros H; lia. }
  destruct (Z.eqb_spec (status r) 404) as [E|N404].
  { rewrite throwNew_spec; eexists; (split; [reflexivity|]); (split; [reflexivity|]).
    split; intros H; [lia | reflexivity]. }
  destruct (Z.eqb_spec (status r) 429) as [E|N429].
  { rewrite throwNew_spec; eexists; (split; [reflexivity|]); (split; [simpl; now rewrite E|]).
    split; intros H; [reflexivity | lia]. }
  destruct ((status r =? 500) || (status r =? 502) || (status r =? 503) || (status r =? 504)) eqn:E5.
  { rewrite throwNew_spec; eexists; (split; [reflexivity|]); (split; [reflexivity|]).
    split; intros H; [reflexivity | lia]. }
  assert (N5 : status r <> 500 /\ status r <> 502 /\ status r <> 503 /\ status r <> 504).
  { repeat (apply orb_false_elim in E5; destruct E5 as [E5 ?]).
    repeat split; apply Z.eqb_neq; assumption. }
  destruct (body_error r) as [[c m]|]; rewrite throwNew_spec; eexists;
    (split; [reflexivity|]); (split; [reflexivity|]); split; intros H; lia.
Qed.

(** A timer is armed with a delay between 1 and 2^31 - 1. *)
Lemma timerDelay_range (ms : Z) : 1 <= Js.timerDelay ms <= 2147483647.
Proof.
  unfold Js.timerDelay.
  destruct (Z.ltb_spec ms 1); destruct (Z.ltb_spec 2147483647 ms); simpl; lia.
Qed.

Lemma timerDelay_given (ms : Z) : 1 <= ms <= 2147483647 -> Js.timerDelay ms = ms.
Proof.
  intros H. unfold Js.timerDelay.
  destruct (Z.ltb_spec ms 1); destruct (Z.ltb_spec 2147483647 ms); simpl; lia.
Qed.

(** What [request] leaves as it was, and what it always does: one call,
    to the endpoint, with the API key. *)
Lemma request_frame endpoint method body (s : St) :
  exists r s',
    FetchtiumClient.request transport self endpoint method body s = (r, s') /\
    cache s' = cache s /\ gate s' = gate s /\ sleeps s' = sleeps s /\
    (exists req, calls s' = calls s ++ [req] /\ sentBy endpoint method body req)%list /\
    now s <= now s'.
Proof.
  unfold_m.
  match goal with |- context [transport ?i ?req] => destruct (transport i req) as [lat out] end.
  match goal with |- context [Build_St ?a ?b ?c ?d ?e ?f] => set (s1 := Build_St a b c d e f) end.
  assert (F : cache s1 = cache s /\ gate s1 = gate s /\ sleeps s1 = sleeps s /\
              (exists req, calls s1 = calls s ++ [req] /\ sentBy endpoint method body req)%list /\
              now s <= now s1).
  { unfold s1. simpl. split; [reflexivity|]. split; [reflexivity|]. split; [reflexivity|].
    split; [|lia]. eexists. split; [reflexivity|].
    unfold Paths.sentBy. simpl. repeat split; auto. }
  clearbody s1.
  destruct out as [resp|msg| |[msg|]]; try (eexists; eexists; split; [reflexivity | exact F]).
  destruct (negb (ok resp)).
  - destruct (@handleHTTPError_throws FetchtiumResponse resp s1) as (e & E & _). rewrite E.
    eexists; eexists; split; [reflexivity | exact F].
  - destruct (body_json resp); eexists; eexists; (split; [reflexivity | exact F]).
Qed.

(** Whatever the state of the gate, [executeWithRateLimit] around
    [request] makes at most one transport call and leaves the cache and the
    sleep log alone. *)
Lemma executeWithRateLimit_request_frame endpoint method body (s : St) :
  exists r s',
    FetchtiumClient.executeWithRateLimit self
      (FetchtiumClient.request transport self endpoint method body) s = (r, s') /\
    cache s' = cache s /\ sleeps s' = sleeps s /\
    (calls s' = calls s \/
     exists req, calls s' = calls s ++ [req] /\ sentBy endpoint method body req)%list /\
    now s <= now s' /\
    (maxConcurrent (rateLimitConfig self) <= Gate.activeRequests (gate s) ->
     calls s' = calls s /\
     r = Threw (ThrowError (FetchtiumError.timeoutError (now s')
                              (queueTimeout (rateLimitConfig self)))) /\
     now s' = now s + Js.timerDelay (queueTimeout (rateLimitConfig self)) /\
     Gate.activeRequests (gate s') = Gate.activeRequests (gate s)).
Proof.
  pose proof (timerDelay_range (queueTimeout (rateLimitConfig self))) as TD.
  unfold FetchtiumClient.executeWithRateLimit. cbv zeta.
  destruct (Gate.call (rateLimitConfig self) (gate s)) as [effs g1] eqn:Cl.
  destruct (Z.ltb_spec (Gate.activeRequests (gate s)) (maxConcurrent (rateLimitConfig self))).
  - destruct (request_frame endpoint method body (set_gate g1 s))
      as (r & s2 & E & C & G & Sl & L & N).
    rewrite E.
    destruct (Gate.done (rateLimitConfig self) (Gate.arrivals (gate s)) (gate s2)) as [e2 g2].
    exists r, (set_gate g2 s2). split; [reflexivity|].
    simpl in *. repeat split; auto; lia.
  - unfold Gate.timerFires.
    eexists. eexists. split; [reflexivity|]. simpl. repeat split; auto; try lia.
    unfold Gate.call in Cl.
    destruct (Z.ltb_spec (Gate.activeRequests (gate s)) (maxConcurrent (rateLimitConfig self)));
      [lia|].
    injection Cl as _ <-. reflexivity.
Qed.

Lemma fetch_cases (url : string) (s : St) r s' :
  FetchtiumClient.fetch parseURL transport self url s = (r, s') ->
  FetchCase url s r s'.
Proof.
  intros E. unfold FetchtiumClient.fetch in E. unfold bind at 1 in E.
  unfold FetchtiumClient.validateURL in E.
  destruct (Js.truthyStr url) eqn:T; cbn [negb] in E;
    [|rewrite throwNew_spec in E; apply pair_equal_spec in E; destruct E as [<- <-];
      apply Paths.RejectedEarly; auto].
  destruct (Utils.isValidURL parseURL url) eqn:V; cbn [negb] in E;
    [|rewrite throwNew_spec in E; apply pair_equal_spec in E; destruct E as [<- <-];
      apply Paths.RejectedEarly; auto].
  unfold ret at 1 in E. cbv beta iota in E.
  destruct (Utils.detectPlatform parseURL url) as [platform|] eqn:P;
    [|rewrite throwNew_spec in E; apply pair_equal_spec in E; destruct E as [<- <-];
      apply Paths.RejectedEarly; auto].
  unfold bind at 1 in E. unfold FetchtiumClient.getFromCache in E.
  destruct (Cache.getFromCache (cacheConfig self) (now s) url (cache s)) as [[d|] c] eqn:G.
  - unfold ret in E. apply pair_equal_spec in E; destruct E as [<- <-].
    now apply Paths.CacheHit with platform.
  - unfold bind at 1 in E. unfold FetchtiumClient.generateRequestId at 1 in E.
    cbv beta iota zeta delta [bind FetchtiumClient.dateNow gets modify ret set_cache] in E.
    cbn [calls now drawn cache gate sleeps] in E.
    change (Build_St c (gate s) (now s) (calls s) (sleeps s) (S (drawn s)))
      with (afterMiss c s) in E.
    destruct (FetchtiumClient.executeWithRateLimit self _ (afterMiss c s)) as [[resp|t] s1] eqn:X.
    + destruct (success resp) eqn:Sd; cbn [negb] in E; cbv beta iota in E.
      * unfold FetchtiumClient.setCache in E.
        cbv beta iota zeta delta [bind modify ret] in E.
        apply pair_equal_spec in E; destruct E as [<- <-]. eapply Paths.AnswerStored; eauto.
      * rewrite throwNew_spec in E. apply pair_equal_spec in E; destruct E as [<- <-].
        eapply Paths.AnswerFailed; eauto.
    + apply pair_equal_spec in E; destruct E as [<- <-]. eapply Paths.CallFailed; eauto.
Qed.

Lemma getFromCache_keys cfg t url (c : Cache.t) r c' k :
  Cache.getFromCache cfg t url c = (r, c') ->
  In k (JsMap.keys c') -> In k (JsMap.keys c).
Proof.
  unfold Cache.getFromCache. destruct (negb (enabled cfg)); [now intros [= _ <-]|].
  cbv zeta. destruct (JsMap.get _ c) as [e|]; [|now intros [= _ <-]].
  destruct (_ >? _); intros [= _ <-]; [apply in_keys_delete | auto].
Qed.

Lemma in_keys_set {V} (k k' : string) (v : V) (m : JsMap.t V) :
  In k (JsMap.keys (JsMap.set k' v m)) -> In k (JsMap.keys m) \/ k = k'.
Proof.
  destruct (in_dec string_dec k' (JsMap.keys m)) as [I|N].
  - rewrite keys_set_in by exact I. auto.
  - rewrite keys_set_notin by exact N. intros H. apply in_app_or in H.
    destruct H as [H|[H|[]]]; auto.
Qed.

Lemma setCache_keys cfg t url d (c : Cache.t) k :
  In k (JsMap.keys (Cache.setCache cfg t url d c)) ->
  In k (JsMap.keys c) \/ k = Cache.generateCacheKey url.
Proof.
  unfold Cache.setCache. destruct (negb (enabled cfg)); [auto|]. cbv zeta.
  intros H. apply in_keys_set in H. destruct H as [H|H]; [left|now right].
  destruct (_ >=? _); [|exact H].
  destruct (JsMap.firstKey c); [|exact H].
  destruct (Js.truthyStr s); [|exact H]. eapply in_keys_delete; eauto.
Qed.

Lemma set_cache_same (s : St) : set_cache (cache s) s = s.
Proof. now destruct s. Qed.

Lemma fetch_frame (url : string) (s : St) r s' :
  FetchtiumClient.fetch parseURL transport self url s = (r, s') ->
  sleeps s' = sleeps s /\
  (calls s' = calls s \/
   exists req, calls s' = calls s ++ [req] /\
               sentBy ENDPOINTS.fetch POST [("url", Some url)] req)%list /\
  now s <= now s' /\
  (forall k, In k (JsMap.keys (cache s')) ->
             In k (JsMap.keys (cache s)) \/ k = Cache.generateCacheKey url) /\
  (forall t, r = Threw t ->
     forall k, In k (JsMap.keys (cache s')) -> In k (JsMap.keys (cache s))).
Proof.
  intros E. apply fetch_cases in E.
  destruct E as [e _ | d c p _ _ _ G | c t s1 p _ _ _ G X | c resp s1 p _ _ _ G X _
                | c resp s1 p _ _ _ G X _].
  - repeat split; auto; lia.
  - simpl. repeat split; auto; try lia.
    + intros k K. left. eapply getFromCache_keys; eauto.
    + intros _ _ k K. eapply getFromCache_keys; eauto.
  - destruct (executeWithRateLimit_request_frame ENDPOINTS.fetch POST
                [("url", Some url)] (afterMiss c s)) as (r' & s2 & E2 & C & Sl & L & N & _).
    rewrite X in E2. apply pair_equal_spec in E2. destruct E2 as [<- <-].
    simpl in *. repeat split; auto.
    + intros k K. left. rewrite C in K. eapply getFromCache_keys; eauto.
    + intros _ _ k K. rewrite C in K. eapply getFromCache_keys; eauto.
  - destruct (executeWithRateLimit_request_frame ENDPOINTS.fetch POST
                [("url", Some url)] (afterMiss c s)) as (r' & s2 & E2 & C & Sl & L & N & _).
    rewrite X in E2. apply pair_equal_spec in E2. destruct E2 as [<- <-].
    simpl in *. repeat split; auto.
    + intros k K. left. rewrite C in K. eapply getFromCache_keys; eauto.
    + intros _ _ k K. rewrite C in K. eapply getFromCache_keys; eauto.
  - destruct (executeWithRateLimit_request_frame ENDPOINTS.fetch POST
                [("url", Some url)] (afterMiss c s)) as (r' & s2 & E2 & C & Sl & L & N & _).
    rewrite X in E2. apply pair_equal_spec in E2. destruct E2 as [<- <-].
    simpl in *. repeat split; auto.
    + intros k K. apply setCache_keys in K. rewrite C in K.
      destruct K as [K|K]; [left|now right]. eapply getFromCache_keys; eauto.
    + intros t Ht. discriminate.
Qed.

Lemma allSuccessful_delete k (c : Cache.t) : allSuccessful c -> allSuccessful (JsMap.delete k c).
Proof.
  unfold Paths.allSuccessful. induction c as [|[k0 v0] r IH]; simpl; [auto|].
  intros H. inversion H; subst. destruct (String.eqb k k0); auto.
Qed.

Lemma allSuccessful_set k e (c : Cache.t) :
  success (Cache.entry_data e) = true -> allSuccessful c -> allSuccessful (JsMap.set k e c).
Proof.
  unfold Paths.allSuccessful. intros He. induction c as [|[k0 v0] r IH]; simpl.
  - repeat constructor. exact He.
  - intros H. inversion H; subst. destruct (String.eqb k k0); constructor; auto.
Qed.

Lemma allSuccessful_get k e (c : Cache.t) :
  allSuccessful c -> JsMap.get k c = Some e -> success (Cache.entry_data e) = true.
Proof.
  unfold Paths.allSuccessful. induction c as [|[k0 v0] r IH]; simpl; [discriminate|].
  intros H. inversion H; subst. destruct (String.eqb k k0); [now intros [= <-] | auto].
Qed.

Lemma getFromCache_allSuccessful cfg t url (c : Cache.t) r c' :
  allSuccessful c -> Cache.getFromCache cfg t url c = (r, c') ->
  allSuccessful c' /\ (forall d, r = Some d -> success d = true).
Proof.
  intros A. unfold Cache.getFromCache.
  destruct (negb (enabled cfg)); [intros [= <- <-]; split; [auto | discriminate]|].
  cbv zeta. destruct (JsMap.get _ c) as [e|] eqn:G;
    [|intros [= <- <-]; split; [auto | discriminate]].
  destruct (_ >? _); intros [= <- <-].
  - split; [now apply allSuccessful_delete | discriminate].
  - split; [auto|]. intros d [= <-]. eapply allSuccessful_get; eauto.
Qed.

Lemma setCache_allSuccessful cfg t url d (c : Cache.t) :
  success d = true -> allSuccessful c -> allSuccessful (Cache.setCache cfg t url d c).
Proof.
  intros Sd A. unfold Cache.setCache. destruct (negb (enabled cfg)); [auto|]. cbv zeta.
  apply allSuccessful_set; [exact Sd|].
  destruct (_ >=? _); [|exact A].
  destruct (JsMap.firstKey c); [|exact A].
  destruct (Js.truthyStr s); [|exact A]. now apply allSuccessful_delete.
Qed.

Lemma blobFailure_spec {A} (fallback : string) (outcome : FetchOutcome) (s : St) :
  exists e, @FetchtiumClient.blobFailure self A fallback outcome s = (Threw (ThrowError e), s).
Proof.
  unfold FetchtiumClient.blobFailure.
  destruct outcome as [resp|msg| |[msg|]]; rewrite throwNew_spec; eexists; reflexivity.
Qed.

Lemma globalFetch_spec (req : Request) (s : St) :
  exists out s',
    FetchtiumClient.globalFetch transport req s = (Returned out, s') /\
    cache s' = cache s /\ gate s' = gate s /\ sleeps s' = sleeps s /\
    calls s' = (calls s ++ [req])%list /\ now s <= now s'.
Proof.
  unfold FetchtiumClient.globalFetch.
  destruct (transport (length (calls s)) req) as [lat out].
  eexists. eexists. split; [reflexivity|]. simpl. repeat split; auto. lia.
Qed.

Lemma validateURL_cases (url : string) (s : St) :
  (Js.truthyStr url = true /\ Utils.isValidURL parseURL url = true /\
   FetchtiumClient.validateURL parseURL url s = (Returned tt, s)) \/
  (exists e, FetchtiumClient.validateURL parseURL url s = (Threw (ThrowError e), s)).
Proof.
  unfold FetchtiumClient.validateURL.
  destruct (Js.truthyStr url); cbn [negb]; [|right; rewrite throwNew_spec; eauto].
  destruct (Utils.isValidURL parseURL url); cbn [negb]; [|right; rewrite throwNew_spec; eauto].
  left. auto.
Qed.

Lemma blobFrame_refl endpoint s t : blobFrame endpoint s (Threw t) s.
Proof. unfold Paths.blobFrame. repeat split; auto; try lia. discriminate. Qed.

Lemma merge_frame (options : MergeOptions) (s : St) :
  exists r s',
    FetchtiumClient.merge parseURL dispositionFilename transport self options s = (r, s') /\
    blobFrame "/api/v1/youtube/merge" s r s'.
Proof.
  unfold FetchtiumClient.merge. unfold bind at 1.
  destruct (validateURL_cases (merge_url options) s) as [(_ & _ & V)|[e V]]; rewrite V;
    [|eexists; eexists; split; [reflexivity | apply blobFrame_refl]].
  assert (U : forall mk, exists r s',
             @FetchtiumClient.throwNew BlobResponse mk s = (r, s') /\
             blobFrame "/api/v1/youtube/merge" s r s').
  { intros mk. rewrite throwNew_spec. eexists; eexists; split;
      [reflexivity | apply blobFrame_refl]. }
  destruct (Utils.detectPlatform parseURL (merge_url options)) as [[]|]; try apply U.
  destruct (negb (Js.truthyStr (merge_quality options))); [apply U|].
  unfold bind at 1.
  match goal with |- context [FetchtiumClient.globalFetch transport ?req s] =>
    destruct (globalFetch_spec req s) as (out & s1 & E & C & G & Sl & K & N); rewrite E
  end.
  assert (F : forall r, blobFrame "/api/v1/youtube/merge" s r s1).
  { intros r. unfold Paths.blobFrame. repeat split; auto.
    - right. eexists. split; [exact K|]. simpl. auto.
    - intros _ _. rewrite K, length_app. simpl. lia. }
  destruct out as [resp|msg| |[msg|]];
    try (match goal with |- context [FetchtiumClient.blobFailure ?se ?fb ?o ?st] =>
           destruct (@blobFailure_spec BlobResponse fb o st) as [e Eb]; rewrite Eb
         end; eexists; eexists; split; [reflexivity | apply F]).
  destruct (negb (ok resp)).
  - rewrite throwNew_spec. eexists; eexists; split; [reflexivity | apply F].
  - eexists; eexists; split; [reflexivity | apply F].
Qed.

Lemma convert_frame (options : ConvertOptions) (s : St) :
  exists r s',
    FetchtiumClient.convert parseURL dispositionFilename transport self options s = (r, s') /\
    blobFrame "/api/v1/convert" s r s'.
Proof.
  unfold FetchtiumClient.convert. unfold bind at 1.
  destruct (validateURL_cases (convert_url options) s) as [(_ & _ & V)|[e V]]; rewrite V;
    [|eexists; eexists; split; [reflexivity | apply blobFrame_refl]].
  assert (U : forall mk, exists r s',
             @FetchtiumClient.throwNew BlobResponse mk s = (r, s') /\
             blobFrame "/api/v1/convert" s r s').
  { intros mk. rewrite throwNew_spec. eexists; eexists; split;
      [reflexivity | apply blobFrame_refl]. }
  destruct (Utils.detectPlatform parseURL (convert_url options)) as [p|]; [|apply U].
  cbv zeta.
  destruct (negb (Js.orStr (convert_format options) "mp3" =? "mp3")%string
            && negb (Js.orStr (convert_format options) "mp3" =? "m4a")%string); [apply U|].
  unfold bind at 1.
  match goal with |- context [FetchtiumClient.globalFetch transport ?req s] =>
    destruct (globalFetch_spec req s) as (out & s1 & E & C & G & Sl & K & N); rewrite E
  end.
  assert (F : forall r, blobFrame "/api/v1/convert" s r s1).
  { intros r. unfold Paths.blobFrame. repeat split; auto.
    - right. eexists. split; [exact K|]. simpl. auto.
    - intros _ _. rewrite K, length_app. simpl. lia. }
  destruct out as [resp|msg| |[msg|]];
    try (match goal with |- context [FetchtiumClient.blobFailure ?se ?fb ?o ?st] =>
           destruct (@blobFailure_spec BlobResponse fb o st) as [e Eb]; rewrite Eb
         end; eexists; eexists; split; [reflexivity | apply F]).
  destruct (negb (ok resp)).
  - rewrite throwNew_spec. eexists; eexists; split; [reflexivity | apply F].
  - unfold_m. eexists; eexists; split; [reflexivity | apply F].
Qed.

End ClientFacts.

(** X1: the constructor accepts exactly the API keys that start with
    [sk-dwa_]: such a key yields a client that holds it, for which
    [hasAPIKey] is true and whose timeout is not zero; any other key, the
    empty one included, makes it throw UNAUTHORIZED. *)
Theorem X1_constructor_accepts_exactly_prefixed_keys :
  forall (env : option string) (now : Z) (config : FetchtiumClientConfig),
    if Js.startsWith "sk-dwa_" (cfg_apiKey config) then
      exists c, FetchtiumClient.new env now config = Returned c /\
                apiKey c = cfg_apiKey config /\
                Accessors.hasAPIKey c = true /\
                Accessors.getTimeout c <> 0
    else
      exists e, FetchtiumClient.new env now config = Threw (ThrowError e) /\
                code e = "UNAUTHORIZED" /\
                severity e = high.
Proof.
  intros env now config. unfold FetchtiumClient.new.
  destruct (Js.startsWith "sk-dwa_" (cfg_apiKey config)) eqn:H.
  - assert (T : Js.truthyStr (cfg_apiKey config) = true).
    { destruct (cfg_apiKey config); [discriminate | reflexivity]. }
    rewrite T. cbn [negb]. eexists. split; [reflexivity|].
    unfold Accessors.hasAPIKey, Accessors.getTimeout. cbn [apiKey timeout].
    split; [reflexivity|]. split.
    + rewrite T. destruct (cfg_apiKey config); [discriminate|]. reflexivity.
    + destruct (cfg_timeout config) as [t|]; [|discriminate].
      destruct (Z.eqb_spec t 0); [discriminate | assumption].
  - cbn [negb].
    destruct (negb (Js.truthyStr (cfg_apiKey config))); eexists; split; try reflexivity;
      split; reflexivity.
Qed.

Lemma X1_witness :
  exists c,
    FetchtiumClient.new None 0
      {| cfg_apiKey := "sk-dwa_0123456789abcdef"; cfg_baseUrl := None; cfg_timeout := Some 0;
         cfg_retry := None; cfg_cache := None; cfg_rateLimit := None |} = Returned c /\
    apiKey c = "sk-dwa_0123456789abcdef" /\
    Accessors.hasAPIKey c = true /\
    Accessors.getTimeout c <> 0.
Proof.
  exact (X1_constructor_accepts_exactly_prefixed_keys None 0
           {| cfg_apiKey := "sk-dwa_0123456789abcdef"; cfg_baseUrl := None;
              cfg_timeout := Some 0; cfg_retry := None; cfg_cache := None;
              cfg_rateLimit := None |}).
Defined.

(** X2: [handleHTTPError] never returns: whatever the answer, it throws a
    library error that carries the HTTP status of the answer and leaves the
    state alone.  The error is retryable for the statuses 429, 500, 502, 503
    and 504, and is not for 401 and 404. *)
Theorem X2_every_error_answer_is_thrown_with_its_status :
  forall (r : HttpResponse) (s : St),
  exists e,
    @FetchtiumClient.handleHTTPError FetchtiumResponse r s = (Threw (ThrowError e), s) /\
    statusCode e = Some (status r) /\
    (In (status r) [429; 500; 502; 503; 504] -> FetchtiumError.isRetryable e = true) /\
    (In (status r) [401; 404] -> FetchtiumError.isRetryable e = false).
Proof.
  intros r s. destruct (@handleHTTPError_throws FetchtiumResponse r s) as (e & E & S & R1 & R2).
  exists e. split; [exact E|]. split; [exact S|]. split.
  - intros H. apply R1. simpl in H. intuition auto.
  - intros H. apply R2. simpl in H. intuition auto.
Qed.

(** The 429 answer of the samples becomes a retryable error with status
    429. *)
Lemma X2_witness :
  exists e,
    @FetchtiumClient.handleHTTPError FetchtiumResponse (Samples.tooManyRequests None)
      (initialSt 0) = (Threw (ThrowError e), initialSt 0) /\
    statusCode e = Some 429 /\
    FetchtiumError.isRetryable e = true.
Proof.
  destruct (X2_every_error_answer_is_thrown_with_its_status (Samples.tooManyRequests None)
              (initialSt 0)) as (e & E & S & R & _).
  exists e. split; [exact E|]. split; [exact S|]. apply R. simpl. now left.
Defined.

(** X3: [fetch] makes at most one transport call, a POST to the fetch
    endpoint that carries the URL and the API key; it never sleeps, and the
    clock does not go back. *)
Theorem X3_fetch_makes_at_most_one_call_and_never_sleeps :
  forall (parseURL : string -> option Utils.URL) (transport : Transport) (self : Client)
         (url : string) (s : St),
  exists r s',
    FetchtiumClient.fetch parseURL transport self url s = (r, s') /\
    sleeps s' = sleeps s /\
    now s <= now s' /\
    (calls s' = calls s \/
     exists req, calls s' = (calls s ++ [req])%list /\
                 req_url req = baseUrl self ++ "/api/v1/publicservices" /\
                 req_method req = POST /\
                 req_body req = [("url", Some url)] /\
                 In ("X-API-Key", apiKey self) (req_headers req)).
Proof.
  intros parseURL transport self url s.
  destruct (FetchtiumClient.fetch parseURL transport self url s) as [r s'] eqn:E.
  exists r, s'. split; [reflexivity|].
  destruct (fetch_frame parseURL transport self url s r s' E) as (Sl & L & N & _).
  repeat split; auto.
Qed.

(** X4: the cache gains at most the key of the fetched URL, and a [fetch]
    that throws adds no key to it. *)
Theorem X4_fetch_that_throws_caches_nothing :
  forall (parseURL : string -> option Utils.URL) (transport : Transport) (self : Client)
         (url : string) (s : St),
  exists r s',
    FetchtiumClient.fetch parseURL transport self url s = (r, s') /\
    (forall k, In k (JsMap.keys (cache s')) ->
               In k (JsMap.keys (cache s)) \/ k = Cache.generateCacheKey url) /\
    (forall t, r = Threw t ->
       forall k, In k (JsMap.keys (cache s')) -> In k (JsMap.keys (cache s))).
Proof.
  intros parseURL transport self url s.
  destruct (FetchtiumClient.fetch parseURL transport self url s) as [r s'] eqn:E.
  exists r, s'. split; [reflexivity|].
  destruct (fetch_frame parseURL transport self url s r s' E) as (_ & _ & _ & K1 & K2).
  split; assumption.
Qed.

(** The caching client fetches [urlA] from a remote side that answers 404:
    the cache stays empty. *)
Lemma X4_witness :
  JsMap.keys (cache (snd (FetchtiumClient.fetch Utils.plainURL MoreSamples.alwaysNotFound
                            MoreSamples.cachingClient Samples.urlA (initialSt 0)))) = [].
Proof.
  destruct (X4_fetch_that_throws_caches_nothing Utils.plainURL MoreSamples.alwaysNotFound
              MoreSamples.cachingClient Samples.urlA (initialSt 0))
    as (r & s' & E & _ & K).
  rewrite E. simpl snd.
  destruct r as [d|t].
  - vm_compute in E. discriminate E.
  - specialize (K t eq_refl). destruct (JsMap.keys (cache s')) as [|k ks]; [reflexivity|].
    destruct (K k (or_introl eq_refl)).
Defined.

(** X5: if every response in the cache reports a success, then so does
    every response [fetch] returns, and the cache still holds only such
    responses afterwards: a body with [success: false] is never returned and
    never cached. *)
Theorem X5_fetch_returns_and_caches_only_successful_answers :
  forall (parseURL : string -> option Utils.URL) (transport : Transport) (self : Client)
         (url : string) (s : St) (r : Result FetchtiumResponse) (s' : St),
    Paths.allSuccessful (cache s) ->
    FetchtiumClient.fetch parseURL transport self url s = (r, s') ->
    Paths.allSuccessful (cache s') /\
    (forall d, r = Returned d -> success d = true).
Proof.
  intros parseURL transport self url s r s' A E. apply fetch_cases in E.
  destruct E as [e _ | d c p _ _ _ G | c t s1 p _ _ _ G X | c resp s1 p _ _ _ G X Sd
                | c resp s1 p _ _ _ G X Sd].
  - split; [exact A | discriminate].
  - destruct (getFromCache_allSuccessful _ _ _ _ _ _ A G) as [A' D]. simpl.
    split; [exact A'|]. intros d' [= <-]. now apply D.
  - destruct (getFromCache_allSuccessful _ _ _ _ _ _ A G) as [A' _].
    destruct (executeWithRateLimit_request_frame transport self ENDPOINTS.fetch POST
                [("url", Some url)] (Paths.afterMiss c s)) as (r' & s2 & E2 & C & _).
    rewrite X in E2. apply pair_equal_spec in E2. destruct E2 as [<- <-].
    simpl in C. rewrite C. split; [exact A' | discriminate].
  - destruct (getFromCache_allSuccessful _ _ _ _ _ _ A G) as [A' _].
    destruct (executeWithRateLimit_request_frame transport self ENDPOINTS.fetch POST
                [("url", Some url)] (Paths.afterMiss c s)) as (r' & s2 & E2 & C & _).
    rewrite X in E2. apply pair_equal_spec in E2. destruct E2 as [<- <-].
    simpl in C. rewrite C. split; [exact A' | discriminate].
  - destruct (getFromCache_allSuccessful _ _ _ _ _ _ A G) as [A' _].
    destruct (executeWithRateLimit_request_frame transport self ENDPOINTS.fetch POST
                [("url", Some url)] (Paths.afterMiss c s)) as (r' & s2 & E2 & C & _).
    rewrite X in E2. apply pair_equal_spec in E2. destruct E2 as [<- <-].
    simpl in C. simpl. rewrite C. split.
    + now apply setCache_allSuccessful.
    + now intros d [= <-].
Qed.

Lemma X5_witness :
  Paths.allSuccessful (cache MoreSamples.afterFetchA) /\
  success (Samples.response "a") = true.
Proof.
  destruct (X5_fetch_returns_and_caches_only_successful_answers Utils.plainURL
              MoreSamples.alwaysOk MoreSamples.cachingClient Samples.urlA (initialSt 1000)
              (Returned (Samples.response "a")) MoreSamples.afterFetchA) as [A D].
  - constructor.
  - reflexivity.
  - split; [exact A | exact (D (Samples.response "a") eq_refl)].
Defined.

Lemma detectPlatform_some_valid (parseURL : string -> option Utils.URL) (url : string)
    (platform : Utils.Platform) :
  Utils.detectPlatform parseURL url = Some platform -> Utils.isValidURL parseURL url = true.
Proof.
  unfold Utils.detectPlatform. destruct (Utils.isValidURL parseURL url); [reflexivity|].
  discriminate.
Qed.

(** A fresh entry answers [fetch]: no transport call, state unchanged. *)
Lemma fetch_cache_hit :
  forall (parseURL : string -> option Utils.URL) (transport : Transport) (self : Client)
         (url : string) (platform : Utils.Platform) (entry : Cache.CacheEntry) (s : St),
    Js.truthyStr url = true ->
    Utils.detectPlatform parseURL url = Some platform ->
    enabled (cacheConfig self) = true ->
    JsMap.get (Cache.generateCacheKey url) (cache s) = Some entry ->
    now s - Cache.entry_timestamp entry <= Cache.entry_ttl entry * 1000 ->
    FetchtiumClient.fetch parseURL transport self url s
      = (Returned (Cache.entry_data entry), s).
Proof.
  intros parseURL transport self url platform entry s T P On G Fresh.
  pose proof (detectPlatform_some_valid parseURL url platform P) as V.
  unfold FetchtiumClient.fetch. unfold bind at 1.
  rewrite (validateURL_valid parseURL url s T V), P.
  unfold bind at 1. unfold FetchtiumClient.getFromCache, Cache.getFromCache.
  rewrite On, G. cbn [negb]. cbv zeta.
  destruct (Z.gtb_spec (now s - Cache.entry_timestamp entry) (Cache.entry_ttl entry * 1000));
    [lia|].
  unfold ret. now rewrite set_cache_same.
Qed.

Lemma getFromCache_hit (cfg : CacheConfig) (t : Z) (url : string) (c c' : Cache.t)
    (d : FetchtiumResponse) :
  Cache.getFromCache cfg t url c = (Some d, c') ->
  enabled cfg = true /\ c' = c /\
  exists entry, JsMap.get (Cache.generateCacheKey url) c = Some entry /\
                Cache.entry_data entry = d /\
                t - Cache.entry_timestamp entry <= Cache.entry_ttl entry * 1000.
Proof.
  unfold Cache.getFromCache. destruct (enabled cfg); cbn [negb]; [|discriminate].
  cbv zeta. destruct (JsMap.get _ c) as [e|]; [|discriminate].
  destruct (Z.gtb_spec (t - Cache.entry_timestamp e) (Cache.entry_ttl e * 1000));
    [discriminate|].
  intros [= <- <-]. repeat split; auto. exists e. repeat split; auto.
Qed.

(** X6: with the cache enabled, what [fetch] returns is in the cache
    afterwards, stamped with the clock reading and the configured TTL when it
    came from the network; and in any later state in which the cache holds
    that entry for the URL, whatever else it holds, and the entry is not
    older than its TTL, a [fetch] of the same URL returns the same response
    without a transport call and without any change of state. *)
Theorem X6_fetch_answer_is_served_from_cache_while_fresh :
  forall (parseURL : string -> option Utils.URL) (transport : Transport) (self : Client)
         (url : string) (d : FetchtiumResponse) (s s1 : St),
    enabled (cacheConfig self) = true ->
    FetchtiumClient.fetch parseURL transport self url s = (Returned d, s1) ->
    exists entry,
      JsMap.get (Cache.generateCacheKey url) (cache s1) = Some entry /\
      Cache.entry_data entry = d /\
      (fst (Cache.getFromCache (cacheConfig self) (now s) url (cache s)) = None ->
       Cache.entry_timestamp entry = now s1 /\
       Cache.entry_ttl entry = ttl (cacheConfig self)) /\
      (forall s2,
         JsMap.get (Cache.generateCacheKey url) (cache s2) = Some entry ->
         now s2 - Cache.entry_timestamp entry <= Cache.entry_ttl entry * 1000 ->
         FetchtiumClient.fetch parseURL transport self url s2 = (Returned d, s2)).
Proof.
  intros parseURL transport self url d s s1 On E. apply fetch_cases in E.
  inversion E as [ | d' c p T V P G | | | c resp s2 p T V P G X Sd]; subst.
  - apply getFromCache_hit in G. destruct G as (_ & -> & entry & G & D & F).
    exists entry. rewrite set_cache_same. split; [exact G|]. split; [exact D|]. split.
    + unfold Cache.getFromCache. rewrite On, G. cbn [negb]. cbv zeta.
      destruct (Z.gtb_spec (now s - Cache.entry_timestamp entry) (Cache.entry_ttl entry * 1000));
        [lia | discriminate].
    + intros s3 G3 F3. rewrite <- D.
      apply fetch_cache_hit with (platform := p); auto.
  - eexists. simpl. split; [apply setCache_get; exact On|]. split; [reflexivity|].
    split; [intros _; split; reflexivity|].
    intros s3 G3 F3.
    change d with (Cache.entry_data {| Cache.entry_data := d; Cache.entry_timestamp := now s2;
                                       Cache.entry_ttl := ttl (cacheConfig self) |}).
    apply fetch_cache_hit with (platform := p); auto.
Qed.

(** The caching client has fetched [urlA]; 299 seconds later the same fetch
    is answered from the cache. *)
Lemma X6_witness :
  FetchtiumClient.fetch Utils.plainURL MoreSamples.alwaysOk MoreSamples.cachingClient
    Samples.urlA MoreSamples.laterA
  = (Returned (Samples.response "a"), MoreSamples.laterA).
Proof.
  destruct (X6_fetch_answer_is_served_from_cache_while_fresh Utils.plainURL
              MoreSamples.alwaysOk MoreSamples.cachingClient Samples.urlA
              (Samples.response "a") (initialSt 1000) MoreSamples.afterFetchA
              eq_refl eq_refl) as (entry & Held & _ & Stamp & Serve).
  destruct (Stamp eq_refl) as [Ts Tt].
  apply Serve; [exact Held|].
  rewrite Ts, Tt. vm_compute. discriminate.
Defined.

(** X7: a client configured with [maxConcurrent <= 0] and with nothing
    executing never reaches the network: a [fetch] of a supported URL that
    misses the cache is queued and throws the TIMEOUT error of its queue
    timer, without a transport call.  The error names [queueTimeout] and is
    stamped with the clock at the rejection, which comes no earlier than the
    delay the timer is armed with: [queueTimeout] itself from 1 to 2^31 - 1,
    and 1 otherwise. *)
Theorem X7_fetch_through_a_closed_gate_times_out_without_a_call :
  forall (parseURL : string -> option Utils.URL) (transport : Transport) (self : Client)
         (url : string) (platform : Utils.Platform) (s : St),
    Js.truthyStr url = true ->
    Utils.detectPlatform parseURL url = Some platform ->
    fst (Cache.getFromCache (cacheConfig self) (now s) url (cache s)) = None ->
    maxConcurrent (rateLimitConfig self) <= 0 ->
    Gate.activeRequests (gate s) = 0 ->
    let wait := queueTimeout (rateLimitConfig self) in
    exists s',
      FetchtiumClient.fetch parseURL transport self url s
        = (Threw (ThrowError (FetchtiumError.timeoutError (now s') wait)), s') /\
      code (FetchtiumError.timeoutError (now s') wait) = "TIMEOUT" /\
      calls s' = calls s /\
      now s + Js.timerDelay wait <= now s' /\
      (1 <= wait <= 2147483647 -> now s + wait <= now s') /\
      Gate.activeRequests (gate s') = 0.
Proof.
  intros parseURL transport self url platform s T P Miss M A wait.
  destruct (FetchtiumClient.fetch parseURL transport self url s) as [r s'] eqn:E.
  apply fetch_cases in E.
  assert (Full : forall c, maxConcurrent (rateLimitConfig self)
                           <= Gate.activeRequests (gate (Paths.afterMiss c s))).
  { intros c. simpl. lia. }
  destruct E as [e H | d c p _ _ _ G | c t s1 p _ _ _ G X | c resp s1 p _ _ _ G X _
                | c resp s1 p _ _ _ G X _].
  - exfalso. pose proof (detectPlatform_some_valid _ _ _ P).
    destruct H as [H|[H|H]]; congruence.
  - rewrite G in Miss. discriminate.
  - destruct (executeWithRateLimit_request_frame transport self ENDPOINTS.fetch POST
                [("url", Some url)] (Paths.afterMiss c s)) as (r' & s2 & E2 & _ & _ & _ & _ & Cl).
    rewrite X in E2. apply pair_equal_spec in E2. destruct E2 as [<- <-].
    destruct (Cl (Full c)) as (K & R & N & G'). simpl in *.
    exists s1. rewrite R. fold wait in N |- *.
    split; [reflexivity|]. split; [reflexivity|]. split; [exact K|].
    split; [lia|]. split; [|lia].
    intros In. rewrite (timerDelay_given wait In) in N. lia.
  - destruct (executeWithRateLimit_request_frame transport self ENDPOINTS.fetch POST
                [("url", Some url)] (Paths.afterMiss c s)) as (r' & s2 & E2 & _ & _ & _ & _ & Cl).
    rewrite X in E2. apply pair_equal_spec in E2. destruct E2 as [<- <-].
    destruct (Cl (Full c)) as (_ & R & _). discriminate.
  - destruct (executeWithRateLimit_request_frame transport self ENDPOINTS.fetch POST
                [("url", Some url)] (Paths.afterMiss c s)) as (r' & s2 & E2 & _ & _ & _ & _ & Cl).
    rewrite X in E2. apply pair_equal_spec in E2. destruct E2 as [<- <-].
    destruct (Cl (Full c)) as (_ & R & _). discriminate.
Qed.

(** The client behind the gate that lets nobody in, with the default
    queue timeout of 30 seconds. *)
Lemma X7_witness :
  exists s',
    FetchtiumClient.fetch Utils.plainURL MoreSamples.alwaysOk MoreSamples.closedClient
      Samples.urlA (initialSt 0)
    = (Threw (ThrowError (FetchtiumError.timeoutError (now s') 30000)), s') /\
    calls s' = [] /\
    30000 <= now s'.
Proof.
  destruct (X7_fetch_through_a_closed_gate_times_out_without_a_call Utils.plainURL
              MoreSamples.alwaysOk MoreSamples.closedClient Samples.urlA Utils.youtube
              (initialSt 0)) as (s' & E & _ & K & N & _).
  - reflexivity.
  - reflexivity.
  - reflexivity.
  - vm_compute. discriminate.
  - reflexivity.
  - exists s'. split; [exact E|]. split; [exact K | exact N].
Defined.

(** X8: [merge] and [convert] go straight to the transport: they leave
    the cache, the gate and the sleep log as they were, make at most one
    call, to their own endpoint and with the API key, and return only after
    exactly one call. *)
Theorem X8_merge_and_convert_bypass_cache_gate_and_retry :
  forall (parseURL : string -> option Utils.URL)
         (dispositionFilename : string -> option string)
         (transport : Transport) (self : Client)
         (m : MergeOptions) (c : ConvertOptions) (s : St),
    (exists r s',
       FetchtiumClient.merge parseURL dispositionFilename transport self m s = (r, s') /\
       Paths.blobFrame self "/api/v1/youtube/merge" s r s') /\
    (exists r s',
       FetchtiumClient.convert parseURL dispositionFilename transport self c s = (r, s') /\
       Paths.blobFrame self "/api/v1/convert" s r s').
Proof.
  intros. split; [apply merge_frame | apply convert_frame].
Qed.

(** X9: [merge] refuses a valid URL that is not a YouTube URL with
    UNSUPPORTED_PLATFORM, and a YouTube URL without a quality with
    BAD_REQUEST; in both cases the state is as before, so that no transport
    call has been made. *)
Theorem X9_merge_needs_a_youtube_url_and_a_quality :
  forall (parseURL : string -> option Utils.URL)
         (dispositionFilename : string -> option string)
         (transport : Transport) (self : Client)
         (url quality : string) (filename : option string) (s : St),
    Js.truthyStr url = true ->
    Utils.isValidURL parseURL url = true ->
    Utils.detectPlatform parseURL url <> Some Utils.youtube \/ Js.truthyStr quality = false ->
    exists e,
      FetchtiumClient.merge parseURL dispositionFilename transport self
        {| merge_url := url; merge_quality := quality; merge_filename := filename |} s
        = (Threw (ThrowError e), s) /\
      code e = match Utils.detectPlatform parseURL url with
               | Some Utils.youtube => "BAD_REQUEST"
               | _ => "UNSUPPORTED_PLATFORM"
               end.
Proof.
  intros parseURL dispositionFilename transport self url quality filename s T V H.
  unfold FetchtiumClient.merge. unfold bind at 1. cbn [merge_url merge_quality].
  rewrite (validateURL_valid parseURL url s T V).
  destruct (Utils.detectPlatform parseURL url) as [[]|];
    try (rewrite throwNew_spec; eexists; split; reflexivity).
  destruct H as [H|H]; [congruence|]. rewrite H. cbn [negb].
  rewrite throwNew_spec. eexists. split; reflexivity.
Qed.

Lemma X9_witness :
  exists e,
    FetchtiumClient.merge Utils.plainURL Samples.noFilename MoreSamples.alwaysOk
      Samples.client
      {| merge_url := Samples.urlA; merge_quality := EmptyString; merge_filename := None |}
      (initialSt 0)
    = (Threw (ThrowError e), initialSt 0) /\
    code e = "BAD_REQUEST".
Proof.
  apply (X9_merge_needs_a_youtube_url_and_a_quality Utils.plainURL Samples.noFilename
           MoreSamples.alwaysOk Samples.client Samples.urlA EmptyString None (initialSt 0)).
  - reflexivity.
  - reflexivity.
  - right. reflexivity.
Defined.

(** X10: [convert] takes mp3 when no format is given; it refuses any
    format other than mp3 and m4a with BAD_REQUEST before any transport call,
    and otherwise makes exactly one GET call, whose query carries the URL and
    the format. *)
Theorem X10_convert_accepts_only_mp3_and_m4a :
  forall (parseURL : string -> option Utils.URL)
         (dispositionFilename : string -> option string)
         (transport : Transport) (self : Client)
         (url : string) (platform : Utils.Platform) (format filename : option string) (s : St),
    Js.truthyStr url = true ->
    Utils.detectPlatform parseURL url = Some platform ->
    let options :=
      {| convert_url := url; convert_format := format; convert_filename := filename |} in
    let chosen := Js.orStr format "mp3" in
    (chosen <> "mp3" -> chosen <> "m4a" ->
     exists e,
       FetchtiumClient.convert parseURL dispositionFilename transport self options s
         = (Threw (ThrowError e), s) /\
       code e = "BAD_REQUEST") /\
    (chosen = "mp3" \/ chosen = "m4a" ->
     exists r s' req,
       FetchtiumClient.convert parseURL dispositionFilename transport self options s = (r, s') /\
       calls s' = (calls s ++ [req])%list /\
       req_method req = GET /\
       In ("url", url) (req_query req) /\
       In ("format", chosen) (req_query req)).
Proof.
  intros parseURL dispositionFilename transport self url platform format filename s T P
         options chosen.
  pose proof (detectPlatform_some_valid _ _ _ P) as V.
  subst options.
  split.
  - intros N1 N2. unfold FetchtiumClient.convert.
    cbn [convert_url convert_format convert_filename]. unfold bind at 1.
    rewrite (validateURL_valid parseURL url s T V), P. cbv zeta. fold chosen.
    destruct (String.eqb_spec chosen "mp3"); [congruence|].
    destruct (String.eqb_spec chosen "m4a"); [congruence|].
    cbn [negb andb]. rewrite throwNew_spec. eexists. split; reflexivity.
  - intros H.
    assert (G : negb (chosen =? "mp3")%string && negb (chosen =? "m4a")%string = false).
    { destruct H as [-> | ->]; reflexivity. }
    unfold FetchtiumClient.convert.
    cbn [convert_url convert_format convert_filename]. unfold bind at 1.
    rewrite (validateURL_valid parseURL url s T V), P. cbv zeta. fold chosen.
    rewrite G. cbv iota. unfold bind at 1.
    match goal with |- context [FetchtiumClient.globalFetch transport ?req s] =>
      destruct (globalFetch_spec transport req s) as (out & s1 & E & _ & _ & _ & K & _);
      rewrite E
    end.
    match goal with |- exists r s' req, ?X = _ /\ _ =>
      destruct X as [r s'] eqn:R
    end.
    assert (s' = s1) as ->.
    { destruct out as [resp|msg| |[msg|]];
        try (match type of R with context [FetchtiumClient.blobFailure ?se ?fb ?o ?st] =>
               destruct (@blobFailure_spec se BlobResponse fb o st) as [e Eb]; rewrite Eb in R
             end; congruence).
      destruct (negb (ok resp)); [rewrite throwNew_spec in R; congruence|].
      unfold bind, FetchtiumClient.dateNow, gets, ret in R. congruence. }
    exists r, s1. eexists. split; [reflexivity|]. split; [exact K|].
    simpl. auto.
Qed.

Lemma X10_witness :
  exists e,
    FetchtiumClient.convert Utils.plainURL Samples.noFilename MoreSamples.alwaysOk
      Samples.client
      {| convert_url := Samples.urlA; convert_format := Some "wav";
         convert_filename := None |}
      (initialSt 0)
    = (Threw (ThrowError e), initialSt 0) /\
    code e = "BAD_REQUEST".
Proof.
  apply (proj1 (X10_convert_accepts_only_mp3_and_m4a Utils.plainURL Samples.noFilename
                  MoreSamples.alwaysOk Samples.client Samples.urlA Utils.youtube
                  (Some "wav") None (initialSt 0) eq_refl eq_refl)).
  - discriminate.
  - discriminate.
Defined.

Section RetryBound.
Variable parseURL : string -> option Utils.URL.
Variable transport : Transport.
Variable self : Client.
Variable url : string.
Variable config : RetryConfig.

(** The loop settles within its fuel, after at most
    [maxRetries - attempt + 1] calls and [maxRetries - attempt] sleeps. *)
Lemma loop_bounded (fuel : nat) :
  forall (attempt : Z) (lastError : option FetchtiumError) (s : St),
    (Z.to_nat (maxRetries config - attempt + 1) < fuel)%nat ->
    exists r s',
      FetchtiumClient.fetchWithRetry_loop parseURL transport self fuel config url
        attempt lastError s = Some (r, s') /\
      (length (calls s') <= length (calls s) + Z.to_nat (maxRetries config - attempt + 1))%nat /\
      (length (sleeps s') <= length (sleeps s) + Z.to_nat (maxRetries config - attempt))%nat.
Proof.
  induction fuel as [|fuel IH]; intros attempt lastError s F; [lia|].
  rewrite loop_eq.
  destruct (Z.leb_spec attempt (maxRetries config)) as [Le|Gt].
  2:{ eexists. eexists. split; [reflexivity|]. lia. }
  destruct (FetchtiumClient.fetch parseURL transport self url s) as [r s1] eqn:E.
  destruct (fetch_frame parseURL transport self url s r s1 E) as (Sl & L & _).
  assert (L1 : (length (calls s) <= length (calls s1) <= length (calls s) + 1)%nat).
  { destruct L as [->|(req & -> & _)]; [lia|]. rewrite length_app. simpl. lia. }
  destruct r as [d|[e|x|]].
  - eexists. eexists. split; [reflexivity|]. rewrite Sl. lia.
  - destruct (negb (Js.arrIncludes (retryableErrors config) (code e))
              || (attempt >=? maxRetries config)) eqn:Stop.
    + eexists. eexists. split; [reflexivity|]. rewrite Sl. lia.
    + apply orb_false_elim in Stop. destruct Stop as [_ Ge].
      destruct (Z.geb_spec attempt (maxRetries config)); [discriminate|].
      cbv zeta.
      destruct (sleep_spec (FetchtiumClient.retryWait config (attempt + 1) e) s1)
        as (s2 & Es & _ & _ & K2 & S2).
      rewrite Es.
      destruct (IH (attempt + 1)
                   (Some (FetchtiumClient.with_context e
                            (set_retryInfo (context e) (attempt + 1) (maxRetries config))))
                   s2) as (r' & s' & E' & C' & S'); [lia|].
      exists r', s'. split; [exact E'|].
      rewrite K2 in C'. rewrite S2, length_app in S'. simpl in S'.
      rewrite Sl in *.
      assert (forall x, x = Z.to_nat (maxRetries config - (attempt + 1) + 1) ->
                        Z.to_nat (maxRetries config - attempt + 1) = S x) by lia.
      assert (forall x, x = Z.to_nat (maxRetries config - (attempt + 1)) ->
                        Z.to_nat (maxRetries config - attempt) = S x) by lia.
      lia.
  - eexists. eexists. split; [reflexivity|]. rewrite Sl. lia.
  - eexists. eexists. split; [reflexivity|]. rewrite Sl. lia.
Qed.

End RetryBound.

(** X11: [fetchWithRetry] always settles: whatever the remote side does,
    the loop ends after at most [maxRetries + 1] transport calls and
    [maxRetries] sleeps (none at all when [maxRetries] is negative). *)
Theorem X11_fetchWithRetry_settles_within_maxRetries_plus_one_calls :
  forall (parseURL : string -> option Utils.URL) (transport : Transport) (self : Client)
         (url : string) (override : PartialRetryConfig) (s : St),
  exists r s',
    FetchtiumClient.fetchWithRetry parseURL transport self url override s = Some (r, s') /\
    let n := maxRetries (FetchtiumClient.mergeRetryConfig self override) in
    (length (calls s') <= length (calls s) + Z.to_nat (n + 1))%nat /\
    (length (sleeps s') <= length (sleeps s) + Z.to_nat n)%nat.
Proof.
  intros parseURL transport self url override s.
  unfold FetchtiumClient.fetchWithRetry.
  destruct (FetchtiumClient.validateURL parseURL url s) as [[u|t] s1] eqn:V.
  - assert (s1 = s) as ->.
    { unfold FetchtiumClient.validateURL in V.
      destruct (negb (Js.truthyStr url)); [rewrite throwNew_spec in V; discriminate|].
      destruct (negb (Utils.isValidURL parseURL url));
        [rewrite throwNew_spec in V; discriminate|].
      unfold ret in V. congruence. }
    cbv zeta.
    destruct (loop_bounded parseURL transport self url
                (FetchtiumClient.mergeRetryConfig self override)
                (S (Z.to_nat (maxRetries (FetchtiumClient.mergeRetryConfig self override) + 1)))
                0 None s) as (r & s' & E & C & Sl).
    { rewrite Z.sub_0_r. lia. }
    exists r, s'. split; [exact E|]. rewrite !Z.sub_0_r in *. auto.
  - assert (s1 = s) as ->.
    { unfold FetchtiumClient.validateURL in V.
      destruct (negb (Js.truthyStr url)); [rewrite throwNew_spec in V; congruence|].
      destruct (negb (Utils.isValidURL parseURL url));
        [rewrite throwNew_spec in V; congruence|].
      unfold ret in V. congruence. }
    eexists. eexists. split; [reflexivity|]. simpl. lia.
Qed.



Lemma backoff_as_map (config : RetryConfig) (k : nat) : forall attempt,
  FetchtiumClient.backoff config attempt k
  = map (fun i => retryDelay config * backoffMultiplier config ^ (attempt + Z.of_nat i))
        (seq 0 k).
Proof.
  induction k as [|k IH]; intros attempt; [reflexivity|].
  simpl FetchtiumClient.backoff. rewrite IH. simpl seq. simpl map.
  rewrite Z.add_0_r. f_equal. rewrite <- seq_shift, map_map.
  apply map_ext. intros i. do 2 f_equal. lia.
Qed.

(** X13: in the setting of C6, with [n <= maxRetries] rate-limited answers
    before the successful one, [fetchWithRetry] sleeps exactly [n] times, and
    the i-th wait (from 0) is [retryDelay * backoffMultiplier ^ i]. *)
Theorem X13_fetchWithRetry_sleeps_the_backoff_schedule :
  forall (parseURL : string -> option Utils.URL) (transport : Transport) (self : Client)
         (url : string) (platform : Utils.Platform) (override : PartialRetryConfig)
         (answers : nat -> HttpResponse) (n : nat) (d : FetchtiumResponse) (s : St),
    Js.truthyStr url = true ->
    Utils.detectPlatform parseURL url = Some platform ->
    enabled (cacheConfig self) = false ->
    FetchtiumClient.idle self s ->
    let config := FetchtiumClient.mergeRetryConfig self override in
    Js.arrIncludes (retryableErrors config) "RATE_LIMITED" = true ->
    Z.of_nat n <= maxRetries config ->
    (forall i req, exists lat, transport i req = (lat, FetchResponds (answers i))) ->
    (forall i, (i < n)%nat -> status (answers (length (calls s) + i)%nat) = 429) ->
    ok (answers (length (calls s) + n)%nat) = true ->
    body_json (answers (length (calls s) + n)%nat) = inl d ->
    success d = true ->
    exists s',
      FetchtiumClient.fetchWithRetry parseURL transport self url override s
        = Some (Returned d, s') /\
      sleeps s' = (sleeps s ++
                   map (fun i => retryDelay config * backoffMultiplier config ^ Z.of_nat i)
                       (seq 0 n))%list.
Proof.
  intros parseURL transport self url platform override answers n d s
         T P C I config R M Resp Fail Ok B Sd.
  pose proof (detectPlatform_some_valid _ _ _ P) as V.
  unfold FetchtiumClient.fetchWithRetry.
  rewrite (validateURL_valid parseURL url s T V). fold config.
  destruct (loop_succeeds parseURL transport self url platform T V P C config answers
              R Resp d n (S (Z.to_nat (maxRetries config + 1))) 0 None s)
    as (s' & E & _ & Sl); try assumption; try lia.
  exists s'. split; [exact E|]. rewrite Sl, backoff_as_map. reflexivity.
Qed.

(** Two 429 answers, then a success, with the default configuration: the
    waits are 1000 and 2000 ms. *)
Lemma X13_witness :
  exists s',
    FetchtiumClient.fetchWithRetry Utils.plainURL (Samples.failThenOk 2 None)
      Samples.client Samples.urlA noOverride (initialSt 1000)
      = Some (Returned (Samples.response "a"), s') /\
    sleeps s' = [1000; 2000].
Proof.
  destruct (X13_fetchWithRetry_sleeps_the_backoff_schedule
              Utils.plainURL (Samples.failThenOk 2 None) Samples.client Samples.urlA
              Utils.youtube noOverride
              (fun i => if Nat.ltb i 2 then Samples.tooManyRequests None
                        else Samples.okResponse "a")
              2%nat (Samples.response "a") (initialSt 1000))
    as (s' & E & Sl); try reflexivity.
  - split; [simpl; lia | reflexivity].
  - vm_compute. discriminate.
  - intros i req. exists 120. unfold Samples.failThenOk. now destruct (Nat.ltb i 2).
  - intros i Hi. simpl. destruct i as [|[|i]]; [reflexivity | reflexivity | lia].
  - exists s'. split; [exact E | exact Sl].
Defined.

(* ====================================================================== *)
(** * Further properties of the cache *)
(* ====================================================================== *)

Section CacheMore.
Variable cfg : CacheConfig.
Hypothesis cache_on : enabled cfg = true.

Lemma size_set_le {V} (k : string) (v : V) (m : JsMap.t V) :
  JsMap.size (JsMap.set k v m) <= JsMap.size m + 1.
Proof.
  rewrite !size_keys.
  destruct (in_dec string_dec k (JsMap.keys m)) as [I|N].
  - rewrite keys_set_in by exact I. lia.
  - rewrite keys_set_notin by exact N. rewrite length_app. simpl. lia.
Qed.

Lemma setCache_bounded now url d c :
  1 <= maxSize cfg -> Cache.wf c -> JsMap.size c <= maxSize cfg ->
  JsMap.size (Cache.setCache cfg now url d c) <= maxSize cfg.
Proof.
  intros M W S. rewrite setCache_unfold by exact cache_on.
  pose proof (size_set_le (Cache.generateCacheKey url)
                {| Cache.entry_data := d; Cache.entry_timestamp := now;
                   Cache.entry_ttl := ttl cfg |} (Cache.evicted cfg c)) as L.
  destruct (Z.lt_ge_cases (JsMap.size c) (maxSize cfg)) as [Hlt|Hge].
  - rewrite evicted_room in * by exact Hlt. lia.
  - destruct c as [|[k0 v0] r].
    + unfold JsMap.size in Hge. simpl in Hge. lia.
    + destruct W as [_ T]. inversion T as [|? ? Tk _]; subst.
      rewrite evicted_full in * by (lia || exact Tk).
      unfold JsMap.size in *. simpl length in *. lia.
Qed.

Lemma setMany_bounded puts : forall c,
  1 <= maxSize cfg -> Cache.wf c -> JsMap.size c <= maxSize cfg ->
  JsMap.size (Cache.setMany cfg puts c) <= maxSize cfg.
Proof.
  induction puts as [|[[now url] d] rest IH]; intros c M W S; simpl; [exact S|].
  apply IH; [exact M | now apply setCache_wf | now apply setCache_bounded].
Qed.

Lemma get_delete_other {V} (k k' : string) (m : JsMap.t V) :
  k <> k' -> JsMap.get k (JsMap.delete k' m) = JsMap.get k m.
Proof.
  intros N. induction m as [|[k0 v0] r IH]; simpl; [reflexivity|].
  destruct (String.eqb_spec k' k0) as [->|N0].
  - destruct (String.eqb_spec k k0); [congruence | reflexivity].
  - simpl. now rewrite IH.
Qed.

Lemma get_set_other {V} (k k' : string) (v : V) (m : JsMap.t V) :
  k <> k' -> JsMap.get k (JsMap.set k' v m) = JsMap.get k m.
Proof.
  intros N. induction m as [|[k0 v0] r IH]; simpl.
  - destruct (String.eqb_spec k k'); [congruence | reflexivity].
  - destruct (String.eqb_spec k' k0) as [->|N0]; simpl.
    + destruct (String.eqb_spec k k0); [congruence | reflexivity].
    + destruct (String.eqb_spec k k0); [reflexivity | exact IH].
Qed.

End CacheMore.

(** X14: with [maxSize >= 1], a cache that is within its bound stays within
    it through any sequence of [setCache] calls, and keeps its keys distinct. *)
Theorem X14_cache_never_exceeds_maxSize :
  forall (cfg : CacheConfig) (puts : list (Z * string * FetchtiumResponse)) (c : Cache.t),
    enabled cfg = true ->
    1 <= maxSize cfg ->
    Cache.wf c ->
    JsMap.size c <= maxSize cfg ->
    JsMap.size (Cache.setMany cfg puts c) <= maxSize cfg /\
    Cache.wf (Cache.setMany cfg puts c).
Proof.
  intros cfg puts c On M W S. split.
  - now apply setMany_bounded.
  - now apply setMany_wf.
Qed.

(** Three puts into a cache of two. *)
Lemma X14_witness :
  JsMap.size (Cache.setMany (Samples.cacheOn 300 2)
                [Samples.putA; Samples.putB; Samples.putC] []) <= 2.
Proof.
  apply (X14_cache_never_exceeds_maxSize (Samples.cacheOn 300 2)
           [Samples.putA; Samples.putB; Samples.putC] []).
  - reflexivity.
  - vm_compute. discriminate.
  - split; constructor.
  - vm_compute. discriminate.
Defined.

(** X15: a hit does not refresh the position of an entry: in a full cache
    the oldest entry is served by [getFromCache] and still is the one the
    next [setCache] of another URL evicts. *)
Theorem X15_cache_hit_does_not_protect_from_eviction :
  forall (cfg : CacheConfig) (now1 now2 : Z) (u v : string) (d : FetchtiumResponse)
         (c : Cache.t) (entry : Cache.CacheEntry),
    enabled cfg = true ->
    Cache.wf c ->
    JsMap.size c >= maxSize cfg ->
    JsMap.firstKey c = Some (Cache.generateCacheKey u) ->
    JsMap.get (Cache.generateCacheKey u) c = Some entry ->
    now1 - Cache.entry_timestamp entry <= Cache.entry_ttl entry * 1000 ->
    u <> v ->
    Cache.getFromCache cfg now1 u c = (Some (Cache.entry_data entry), c) /\
    JsMap.has (Cache.generateCacheKey u)
      (Cache.setCache cfg now2 v d (snd (Cache.getFromCache cfg now1 u c))) = false.
Proof.
  intros cfg now1 now2 u v d c entry On [N T] S F G Fresh Ne.
  assert (Hit : Cache.getFromCache cfg now1 u c = (Some (Cache.entry_data entry), c)).
  { unfold Cache.getFromCache. rewrite On, G. simpl.
    destruct (Z.gtb_spec (now1 - Cache.entry_timestamp entry) (Cache.entry_ttl entry * 1000));
      [lia | reflexivity]. }
  split; [exact Hit|]. rewrite Hit. simpl snd.
  destruct c as [|[k0 v0] r]; [discriminate|]. simpl in F. injection F as ->.
  inversion N as [|? ? Nk Nr]; subst.
  rewrite setCache_unfold by exact On.
  rewrite evicted_full; [|lia|reflexivity].
  destruct (JsMap.has _ _) eqn:H; [|reflexivity].
  unfold JsMap.has in H. rewrite get_set_other in H.
  - destruct (JsMap.get (Cache.generateCacheKey u) r) eqn:E; [|discriminate].
    apply get_some_in in E. tauto.
  - intros E. apply generateCacheKey_inj in E. congruence.
Qed.

(** A cache of two holding [urlA] and [urlB]: [urlA] is read at 2500 and
    gone once [urlC] has been put at 3000. *)
Lemma X15_witness :
  JsMap.has (Cache.generateCacheKey Samples.urlA)
    (Cache.setCache (Samples.cacheOn 300 2) 3000 Samples.urlC (Samples.response "c")
       (snd (Cache.getFromCache (Samples.cacheOn 300 2) 2500 Samples.urlA Samples.cacheAB)))
  = false.
Proof.
  apply (X15_cache_hit_does_not_protect_from_eviction (Samples.cacheOn 300 2) 2500 3000
           Samples.urlA Samples.urlC (Samples.response "c") Samples.cacheAB
           {| Cache.entry_data := Samples.response "a"; Cache.entry_timestamp := 1000;
              Cache.entry_ttl := 300 |}).
  - reflexivity.
  - split.
    + repeat constructor; simpl; intuition discriminate.
    + repeat constructor.
  - vm_compute. discriminate.
  - reflexivity.
  - reflexivity.
  - vm_compute. discriminate.
  - discriminate.
Defined.

(** X16: a lookup of one URL never changes what the cache holds for another
    URL, and neither does a put while there is room. *)
Theorem X16_cache_operations_on_one_url_leave_the_others :
  forall (cfg : CacheConfig) (now : Z) (u v : string) (d : FetchtiumResponse) (c : Cache.t),
    u <> v ->
    JsMap.get (Cache.generateCacheKey u) (snd (Cache.getFromCache cfg now v c))
      = JsMap.get (Cache.generateCacheKey u) c /\
    (JsMap.size c < maxSize cfg ->
     JsMap.get (Cache.generateCacheKey u) (Cache.setCache cfg now v d c)
       = JsMap.get (Cache.generateCacheKey u) c).
Proof.
  intros cfg now u v d c Ne.
  assert (K : Cache.generateCacheKey u <> Cache.generateCacheKey v).
  { intros E. apply generateCacheKey_inj in E. congruence. }
  split.
  - unfold Cache.getFromCache. destruct (enabled cfg); simpl; [|reflexivity].
    destruct (JsMap.get (Cache.generateCacheKey v) c) as [e|]; [|reflexivity].
    destruct (_ >? _); simpl; [now apply get_delete_other | reflexivity].
  - intros S. unfold Cache.setCache. destruct (enabled cfg); simpl; [|reflexivity].
    destruct (Z.geb_spec (JsMap.size c) (maxSize cfg)); [lia|].
    now apply get_set_other.
Qed.

(** The entry of [urlA] survives the lookup that finds [urlB] expired and
    deletes it. *)
Lemma X16_witness :
  JsMap.get (Cache.generateCacheKey Samples.urlA)
    (snd (Cache.getFromCache (Samples.cacheOn 300 2) 400000 Samples.urlB Samples.cacheAB))
  = JsMap.get (Cache.generateCacheKey Samples.urlA) Samples.cacheAB.
Proof.
  apply (X16_cache_operations_on_one_url_leave_the_others (Samples.cacheOn 300 2) 400000
           Samples.urlA Samples.urlB (Samples.response "b") Samples.cacheAB).
  discriminate.
Defined.

(* ====================================================================== *)
(** * Further properties of the concurrency gate *)
(* ====================================================================== *)

Module GateHistoryFacts.
Import Gate.
Import GateHistory.

Lemma releasedOf_app e1 e2 : releasedOf (e1 ++ e2) = (releasedOf e1 ++ releasedOf e2)%list.
Proof. induction e1 as [|[] e1 IH]; simpl; rewrite ?IH; reflexivity. Qed.

Lemma rejectedOf_app e1 e2 : rejectedOf (e1 ++ e2) = (rejectedOf e1 ++ rejectedOf e2)%list.
Proof. induction e1 as [|[] e1 IH]; simpl; rewrite ?IH; reflexivity. Qed.

Lemma rejectedOf_flat started :
  rejectedOf (flat_map (fun c => [TimerCleared c; Started c]) started) = [].
Proof. induction started as [|c r IH]; simpl; [reflexivity | exact IH]. Qed.

Lemma releasedOf_flat started :
  releasedOf (flat_map (fun c => [TimerCleared c; Started c]) started) = [].
Proof. induction started as [|c r IH]; simpl; [reflexivity | exact IH]. Qed.

Section Facts.
Variable cfg : RateLimitConfig.

Lemma done_effects c s effs s' :
  done cfg c s = (effs, s') ->
  releasedOf effs = [c] /\ rejectedOf effs = [].
Proof.
  unfold done, processQueue. simpl.
  destruct (processQueue_loop cfg (activeRequests s - 1) (requestQueue s)) as [[a st] q].
  intros H. injection H as <- <-. simpl. now rewrite releasedOf_flat, rejectedOf_flat.
Qed.

Lemma step_history ev effs s effs' s' :
  History cfg effs s -> step cfg ev s = Some (effs', s') ->
  History cfg (effs ++ effs') s'.
Proof.
  intros [I Hs Hr Ho Ha Hc] S.
  pose proof (GateFacts.step_inv cfg _ _ _ _ I S) as I'.
  assert (G : forall c, In c (rejectedOf effs) -> gone c s').
  { intros c Hin. exact (proj1 (GateFacts.step_gone cfg c ev s effs' s' I (Hr c Hin) S)). }
  pose proof (GateFacts.sorted_nodup _ (inv_sorted _ _ I)) as Nq.
  pose proof (inv_queue_old _ _ I) as Fq. rewrite Forall_forall in Fq.
  destruct ev as [|c0|c0 now]; unfold step in S.
  - (* a call *)
    assert (E : call cfg s = (effs', s')) by congruence.
    destruct (GateFacts.call_shape cfg _ _ _ I E) as (Ar & [(-> & Q & Q' & X)|(-> & Q' & X)]);
      (constructor; [exact I'|..]);
      rewrite ?GateFacts.startedOf_app, ?releasedOf_app, ?rejectedOf_app;
      cbn [startedOf releasedOf rejectedOf]; rewrite ?app_nil_r.
    + intros c Hin. rewrite Ar, Q'. apply in_app_or in Hin.
      destruct Hin as [Hin|[<-|[]]]; [destruct (Hs c Hin) | ]; split; simpl; try lia; tauto.
    + exact G.
    + apply NoDup_app; [exact Ho | repeat constructor; simpl; tauto |].
      intros c Hin [<-|[]]. destruct (Hs _ Hin). lia.
    + intros c Hin Hin'. apply in_app_or in Hin'. destruct Hin' as [Hin'|[<-|[]]].
      * now apply (Ha c).
      * destruct (Hr _ Hin) as (Lt & _). lia.
    + rewrite Ar, Q', X, length_app. rewrite Q in Hc. simpl in *. lia.
    + intros c Hin. destruct (Hs c Hin) as [Lt Nq']. rewrite Ar, Q'. split; [lia|].
      intros Hq. apply in_app_or in Hq. destruct Hq as [Hq|[<-|[]]]; [tauto | lia].
    + exact G.
    + exact Ho.
    + exact Ha.
    + rewrite Ar, Q', X, length_app. simpl. lia.
  - (* a completion *)
    destruct (mem c0 (executing s)) eqn:M; [|discriminate].
    assert (E : done cfg c0 s = (effs', s')) by congruence.
    destruct (GateFacts.done_shape cfg _ _ _ _ E) as (Q & X & _ & Ar).
    destruct (done_effects _ _ _ _ E) as [Rl Rj].
    rewrite <- Q in Nq.
    constructor; [exact I'|..];
      rewrite ?GateFacts.startedOf_app, ?releasedOf_app, ?rejectedOf_app, ?Rl, ?Rj, ?app_nil_r.
    + intros c Hin. rewrite Ar. apply in_app_or in Hin. destruct Hin as [Hin|Hin].
      * destruct (Hs c Hin) as [Lt Nin]. split; [exact Lt|].
        intros Hq. apply Nin. rewrite <- Q. apply in_or_app. now right.
      * split.
        -- apply Fq. rewrite <- Q. apply in_or_app. now left.
        -- now apply (GateFacts.nodup_app_apart _ _ c Nq).
    + exact G.
    + apply NoDup_app; [exact Ho | now apply NoDup_app_remove_r in Nq |].
      intros c Hin Hin'. destruct (Hs c Hin) as [_ Nin]. apply Nin.
      rewrite <- Q. apply in_or_app. now left.
    + intros c Hin Hin'. apply in_app_or in Hin'. destruct Hin' as [Hin'|Hin'].
      * now apply (Ha c).
      * destruct (Hr _ Hin) as (_ & Nin & _). apply Nin. rewrite <- Q. apply in_or_app. now left.
    + apply GateFacts.mem_In in M.
      pose proof (GateFacts.remove_length c0 _ (inv_exec_nodup _ _ I) M) as L.
      rewrite Ar, X, !length_app. rewrite <- Q, length_app in Hc. simpl. lia.
  - (* a timer *)
    destruct (mem c0 (timers s)) eqn:M; [|discriminate].
    assert (E : timerFires cfg c0 now s = (effs', s')) by congruence.
    destruct (GateFacts.timerFires_shape cfg _ _ _ _ _ I E) as (-> & Q & X & _ & Ar).
    apply GateFacts.mem_In in M. rewrite (inv_timers _ _ I) in M.
    constructor; [exact I'|..];
      rewrite ?GateFacts.startedOf_app, ?releasedOf_app, ?rejectedOf_app;
      cbn [startedOf releasedOf rejectedOf]; rewrite ?app_nil_r.
    + intros c Hin. destruct (Hs c Hin) as [Lt Nin]. rewrite Ar, Q. split; [exact Lt|].
      intros Hq. apply GateFacts.In_remove_iff in Hq. tauto.
    + intros c Hin. apply in_app_or in Hin. destruct Hin as [Hin|[<-|[]]]; [now apply G|].
      unfold gone. rewrite Ar, Q, X. repeat split.
      * now apply Fq.
      * intros Hq. apply GateFacts.In_remove_iff in Hq. tauto.
      * now apply (inv_disjoint _ _ I).
    + exact Ho.
    + intros c Hin Hin'. apply in_app_or in Hin. destruct Hin as [Hin|[<-|[]]].
      * now apply (Ha c).
      * destruct (Hs _ Hin'). tauto.
    + pose proof (GateFacts.remove_length c0 _ Nq M) as L.
      rewrite Ar, Q, X, length_app. simpl. lia.
Qed.

Lemma run_history evs : forall effs s effs' s',
  History cfg effs s -> run cfg evs s = Some (effs', s') ->
  History cfg (effs ++ effs') s'.
Proof.
  induction evs as [|ev rest IH]; intros effs s effs' s' H R; simpl in R.
  - injection R as <- <-. now rewrite app_nil_r.
  - destruct (step cfg ev s) as [[e1 s1]|] eqn:E; [|discriminate].
    destruct (run cfg rest s1) as [[e2 s2]|] eqn:R2; [|discriminate].
    injection R as <- <-. rewrite app_assoc.
    eapply IH; [|exact R2]. eapply step_history; eauto.
Qed.

Lemma init_history : 0 <= maxConcurrent cfg -> History cfg [] init.
Proof.
  intros L. constructor; [now apply GateFacts.init_inv|..]; simpl; try tauto; constructor.
Qed.

(** With no room at all nothing is ever started. *)
Lemma step_closed ev s effs s' :
  maxConcurrent cfg <= 0 ->
  activeRequests s = 0 -> executing s = [] ->
  step cfg ev s = Some (effs, s') ->
  activeRequests s' = 0 /\ executing s' = [] /\ startedOf effs = [].
Proof.
  intros L A X S. destruct ev as [|c|c now]; unfold step in S.
  - unfold call in S. destruct (Z.ltb_spec (activeRequests s) (maxConcurrent cfg)); [lia|].
    injection S as <- <-. simpl. auto.
  - rewrite X in S. discriminate.
  - destruct (mem c (timers s)); [|discriminate].
    unfold timerFires in S. injection S as <- <-. simpl. auto.
Qed.

Lemma run_closed evs : forall s effs s',
  maxConcurrent cfg <= 0 ->
  activeRequests s = 0 -> executing s = [] ->
  run cfg evs s = Some (effs, s') ->
  activeRequests s' = 0 /\ executing s' = [] /\ startedOf effs = [].
Proof.
  induction evs as [|ev rest IH]; intros s effs s' L A X R; simpl in R.
  - injection R as <- <-. auto.
  - destruct (step cfg ev s) as [[e1 s1]|] eqn:E; [|discriminate].
    destruct (run cfg rest s1) as [[e2 s2]|] eqn:R2; [|discriminate].
    injection R as <- <-.
    destruct (step_closed _ _ _ _ L A X E) as (A1 & X1 & S1).
    destruct (IH _ _ _ L A1 X1 R2) as (A2 & X2 & S2).
    rewrite GateFacts.startedOf_app, S1, S2. auto.
Qed.

End Facts.
End GateHistoryFacts.

(** X17: over any run of the gate, the body of a caller is invoked at most
    once, a caller rejected on its queue timeout is never invoked, and an
    invoked caller is no longer in the queue. *)
Theorem X17_gate_starts_each_caller_at_most_once_and_never_after_timeout :
  forall (cfg : RateLimitConfig) (evs : list Gate.Event) (effs : list Gate.Effect)
         (s : Gate.State),
    0 <= maxConcurrent cfg ->
    Gate.run cfg evs Gate.init = Some (effs, s) ->
    NoDup (Gate.startedOf effs) /\
    (forall c e, In (Gate.Rejected c e) effs -> ~ In (Gate.Started c) effs) /\
    (forall c, In (Gate.Started c) effs -> ~ In c (Gate.requestQueue s)).
Proof.
  intros cfg evs effs s L R.
  pose proof (GateHistoryFacts.run_history cfg evs [] _ _ _
                (GateHistoryFacts.init_history cfg L) R) as H.
  simpl in H. destruct H as [_ Hs _ Ho Ha _].
  split; [exact Ho|]. split.
  - intros c e Hin Hst. apply (Ha c).
    + clear -Hin. induction effs as [|x r IH]; simpl in *; [tauto|].
      destruct Hin as [->|Hin]; [now left|]. destruct x; simpl; auto.
    + now apply GateFacts.In_startedOf.
  - intros c Hin. apply GateFacts.In_startedOf in Hin. now apply Hs.
Qed.

(** Three calls against a gate of two, a queue timeout and a completion:
    the bodies invoked are those of the first two callers, once each. *)
Lemma X17_witness :
  NoDup (Gate.startedOf (fst MoreSamples.gateEnd)) /\
  Gate.startedOf (fst MoreSamples.gateEnd) = [0%nat; 1%nat].
Proof.
  split; [|reflexivity].
  apply (X17_gate_starts_each_caller_at_most_once_and_never_after_timeout Samples.limit2
           MoreSamples.gateEvents (fst MoreSamples.gateEnd) (snd MoreSamples.gateEnd)).
  - simpl. lia.
  - reflexivity.
Defined.

(** X18: every caller that has arrived is accounted for exactly once: it
    executes, waits in the queue, has been released, or has been rejected. *)
Theorem X18_gate_accounts_for_every_caller :
  forall (cfg : RateLimitConfig) (evs : list Gate.Event) (effs : list Gate.Effect)
         (s : Gate.State),
    0 <= maxConcurrent cfg ->
    Gate.run cfg evs Gate.init = Some (effs, s) ->
    (length (Gate.executing s) + length (Gate.requestQueue s)
     + length (GateHistory.releasedOf effs) + length (GateHistory.rejectedOf effs))%nat
    = Gate.arrivals s.
Proof.
  intros cfg evs effs s L R.
  pose proof (GateHistoryFacts.run_history cfg evs [] _ _ _
                (GateHistoryFacts.init_history cfg L) R) as H.
  simpl in H. apply H.
Qed.

Lemma X18_witness :
  (length (Gate.executing (snd MoreSamples.gateEnd))
   + length (Gate.requestQueue (snd MoreSamples.gateEnd))
   + length (GateHistory.releasedOf (fst MoreSamples.gateEnd))
   + length (GateHistory.rejectedOf (fst MoreSamples.gateEnd)))%nat = 3%nat.
Proof.
  apply (X18_gate_accounts_for_every_caller Samples.limit2
           MoreSamples.gateEvents (fst MoreSamples.gateEnd) (snd MoreSamples.gateEnd)).
  - simpl. lia.
  - reflexivity.
Defined.

(** X19: a gate configured with [maxConcurrent <= 0] never invokes a body:
    every caller is queued, and leaves only through its queue timeout. *)
Theorem X19_gate_without_room_never_starts_a_body :
  forall (cfg : RateLimitConfig) (evs : list Gate.Event) (effs : list Gate.Effect)
         (s : Gate.State),
    maxConcurrent cfg <= 0 ->
    Gate.run cfg evs Gate.init = Some (effs, s) ->
    Gate.startedOf effs = [] /\ Gate.executing s = [] /\ Gate.activeRequests s = 0.
Proof.
  intros cfg evs effs s L R.
  destruct (GateHistoryFacts.run_closed cfg evs Gate.init effs s L eq_refl eq_refl R)
    as (A & X & S).
  auto.
Qed.

Lemma X19_witness :
  Gate.startedOf (fst MoreSamples.closedEnd) = [] /\
  Gate.requestQueue (snd MoreSamples.closedEnd) = [1%nat].
Proof.
  split; [|reflexivity].
  apply (X19_gate_without_room_never_starts_a_body MoreSamples.limit0
           MoreSamples.closedEvents (fst MoreSamples.closedEnd) (snd MoreSamples.closedEnd)).
  - simpl. lia.
  - reflexivity.
Defined.

(** X20: [n] calls arriving at a fresh gate before any body settles: the
    first [maxConcurrent] callers execute, the others wait in arrival order,
    each with its timer. *)
Theorem X20_gate_burst_runs_the_first_callers_and_queues_the_rest :
  forall (cfg : RateLimitConfig) (m n : nat),
    maxConcurrent cfg = Z.of_nat m ->
    exists effs,
      Gate.run cfg (repeat Gate.Call n) Gate.init
      = Some (effs,
              {| Gate.activeRequests := Z.of_nat (Nat.min n m);
                 Gate.requestQueue := seq m (n - m);
                 Gate.timers := seq m (n - m);
                 Gate.executing := seq 0 (Nat.min n m);
                 Gate.arrivals := n |}).
Proof.
  intros cfg m n M. now apply GateFacts.burst_of_calls.
Qed.

(** Five calls against a gate of two: callers 0 and 1 execute, callers 2, 3
    and 4 wait. *)
Lemma X20_witness :
  exists effs,
    Gate.run Samples.limit2 (repeat Gate.Call 5) Gate.init
    = Some (effs,
            {| Gate.activeRequests := 2;
               Gate.requestQueue := [2%nat; 3%nat; 4%nat];
               Gate.timers := [2%nat; 3%nat; 4%nat];
               Gate.executing := [0%nat; 1%nat];
               Gate.arrivals := 5 |}).
Proof.
  exact (X20_gate_burst_runs_the_first_callers_and_queues_the_rest Samples.limit2 2 5 eq_refl).
Defined.

(* ====================================================================== *)
(** * Further properties of [fetchBatch] *)
(* ====================================================================== *)

Module BatchLedgerFacts.
Import FetchBatch.
Import BatchLedger.

Section Facts.
Variable cfg : Config.

Lemma topUp_spec now (q : list string) : forall a c q' a' c',
  topUp cfg now q a c = (q', a', c') ->
  (map task_url a' ++ q')%list = (map task_url a ++ q)%list /\
  (length a <= length a')%nat /\
  (Z.of_nat (length a') <= Z.max (Z.of_nat (length a)) (concurrency cfg)) /\
  (q' <> [] -> concurrency cfg <= Z.of_nat (length a')).
Proof.
  induction q as [|u rest IH]; intros active created queue' active' created' H; simpl in H.
  - injection H as <- <- <-. repeat split; try lia. congruence.
  - destruct (Z.ltb_spec (Z.of_nat (length active)) (concurrency cfg)) as [Hlt|Hge].
    + apply IH in H. destruct H as (E & L & B & F).
      rewrite length_app in L, B. simpl in L, B.
      rewrite map_app in E. simpl in E. rewrite <- app_assoc in E. simpl in E.
      repeat split; auto; lia.
    + injection H as <- <- <-. repeat split; try lia.
Qed.

Lemma findTask_split id : forall l t,
  findTask id l = Some t ->
  exists before after,
    l = (before ++ t :: after)%list /\ dropTask id l = (before ++ after)%list.
Proof.
  induction l as [|x r IH]; intros t H; simpl in H; [discriminate|].
  simpl. destruct (Nat.eqb (task_id x) id).
  - injection H as <-. exists [], r. split; reflexivity.
  - destruct (IH _ H) as (b & a & E1 & E2). exists (x :: b), a.
    simpl. rewrite E2. split; [now f_equal | reflexivity].
Qed.

Lemma record_url t o now : url (record t o now) = task_url t.
Proof. destruct o; reflexivity. Qed.

Lemma mainLoop_ledger now s : ledger (mainLoop cfg now s) = ledger s.
Proof.
  unfold mainLoop, ledger.
  destruct ((0 <? Z.of_nat (length (queue s))) || (0 <? Z.of_nat (length (active s))));
    [|reflexivity].
  destruct (topUp cfg now (queue s) (active s) (created s)) as [[q a] c] eqn:E.
  simpl. apply topUp_spec in E. destruct E as (E & _). now rewrite E.
Qed.

Lemma step_ledger ev s s' :
  step cfg ev s = Some s' -> Permutation (ledger s') (ledger s).
Proof.
  destruct ev as [id o now|now]; simpl; intros H.
  - destruct (findTask id (active s)) as [t|] eqn:F; [|discriminate].
    injection H as <-. unfold ledger. simpl.
    destruct (findTask_split _ _ _ F) as (b & a & E1 & E2). rewrite E2, E1.
    rewrite !map_app. simpl. rewrite record_url, <- !app_assoc. simpl.
    apply Permutation_app_head. apply Permutation_middle.
  - destruct (phase s) as [[[u|x]|]| |r]; try discriminate; injection H as <-.
    + now rewrite mainLoop_ledger.
    + reflexivity.
Qed.

Lemma run_ledger evs : forall s s',
  run cfg evs s = Some s' -> Permutation (ledger s') (ledger s).
Proof.
  induction evs as [|ev rest IH]; intros s s' H; simpl in H.
  - injection H as <-. reflexivity.
  - destruct (step cfg ev s) as [s1|] eqn:E; [|discriminate].
    etransitivity; [apply (IH _ _ H) | now apply step_ledger in E].
Qed.

Lemma start_ledger urls t0 : ledger (start cfg urls t0) = urls.
Proof. unfold start. rewrite mainLoop_ledger. reflexivity. Qed.

Lemma batch_mainLoop_inv now s :
  Z.of_nat (length (active s)) <= Z.max 0 (concurrency cfg) ->
  Inv cfg (mainLoop cfg now s).
Proof.
  intros B. unfold mainLoop.
  destruct ((0 <? Z.of_nat (length (queue s))) || (0 <? Z.of_nat (length (active s)))) eqn:C.
  - destruct (topUp cfg now (queue s) (active s) (created s)) as [[q a] c] eqn:E.
    destruct (topUp_spec _ _ _ _ _ _ _ E) as (El & L & Bd & F).
    constructor; simpl.
    + lia.
    + destruct (Z.ltb_spec 0 (Z.of_nat (length a))); [|discriminate].
      intros _ ->. simpl in *. lia.
    + destruct (0 <? Z.of_nat (length a)); discriminate.
    + destruct (Z.ltb_spec 0 (Z.of_nat (length a))); [discriminate|]. intros _.
      assert (A0 : a = []) by (destruct a; [reflexivity | simpl in *; lia]).
      subst a. assert (As : active s = []) by (destruct (active s); [reflexivity | simpl in *; lia]).
      rewrite As in *. simpl in *.
      assert (Q : q = queue s) by (now rewrite <- El).
      assert (Qn : q <> []).
      { rewrite Q. destruct (queue s); [simpl in C; discriminate | discriminate]. }
      specialize (F Qn). simpl in F. repeat split; auto.
    + intros _ x. destruct (0 <? Z.of_nat (length a)); split; discriminate.
  - apply orb_false_elim in C. destruct C as [C1 C2].
    assert (Q : queue s = []) by (destruct (queue s); [reflexivity | simpl in C1; discriminate]).
    assert (A : active s = []) by (destruct (active s); [reflexivity | simpl in C2; discriminate]).
    constructor; simpl; try discriminate.
    + exact B.
    + intros r H. injection H as <-. auto.
    + intros _ x. split; discriminate.
Qed.

Lemma batch_step_inv ev s s' : Inv cfg s -> step cfg ev s = Some s' -> Inv cfg s'.
Proof.
  intros I H. destruct ev as [id o now|now]; simpl in H.
  - destruct (findTask id (active s)) as [t|] eqn:F; [|discriminate].
    injection H as <-.
    destruct (findTask_split _ _ _ F) as (b & a & E1 & E2).
    assert (L : (length (dropTask id (active s)) < length (active s))%nat).
    { rewrite E2, E1, !length_app. simpl. lia. }
    pose proof (inv_flight _ _ I) as B.
    constructor; simpl.
    + lia.
    + destruct (phase s) as [[?|]| |]; discriminate.
    + intros r Hr. destruct (phase s) as [[?|]| |r0] eqn:P; try discriminate.
      injection Hr as ->.
      destruct (inv_returned _ _ I r P) as (_ & A & _). rewrite A in F. discriminate.
    + intros Hs. destruct (phase s) as [[?|]| |] eqn:P; try discriminate.
      destruct (inv_spinning _ _ I P) as (A & _). rewrite A in F. discriminate.
    + intros Stop x. pose proof (inv_threw _ _ I Stop x) as [N1 N2].
      destruct (phase s) as [[?|]| |] eqn:P; split; try congruence; try discriminate.
      unfold settlement. rewrite Stop. destruct o; discriminate.
  - destruct (phase s) as [[[u|x]|]| |r] eqn:P; try discriminate; injection H as <-.
    + apply batch_mainLoop_inv. apply I.
    + constructor; simpl; try discriminate.
      * apply I.
      * intros Stop y. destruct (inv_threw _ _ I Stop x) as [N _]. exfalso. now apply N.
Qed.

Lemma batch_start_inv urls t0 : Inv cfg (start cfg urls t0).
Proof. unfold start. apply batch_mainLoop_inv. simpl. lia. Qed.

Lemma batch_run_inv evs : forall s s', Inv cfg s -> run cfg evs s = Some s' -> Inv cfg s'.
Proof.
  induction evs as [|ev rest IH]; intros s s' I H; simpl in H.
  - now injection H as <-.
  - destruct (step cfg ev s) as [s1|] eqn:E; [|discriminate].
    eapply IH; [|exact H]. eapply batch_step_inv; eauto.
Qed.

(** With at most one task in flight nothing overtakes: the ledger keeps its
    order. *)
Lemma step_ledger_exact ev s s' :
  (length (active s) <= 1)%nat -> step cfg ev s = Some s' -> ledger s' = ledger s.
Proof.
  intros L. destruct ev as [id o now|now]; simpl; intros H.
  - destruct (findTask id (active s)) as [t|] eqn:F; [|discriminate].
    injection H as <-. unfold ledger. simpl.
    destruct (findTask_split _ _ _ F) as (b & a & E1 & E2). rewrite E2, E1.
    rewrite E1, length_app in L. simpl in L.
    destruct b; [|simpl in L; lia]. destruct a; [|simpl in L; lia].
    simpl. rewrite map_app, <- app_assoc. simpl. now rewrite record_url.
  - destruct (phase s) as [[[u|x]|]| |r]; try discriminate; injection H as <-.
    + now rewrite mainLoop_ledger.
    + reflexivity.
Qed.

Lemma run_ledger_exact evs : forall s s',
  concurrency cfg <= 1 -> Inv cfg s ->
  run cfg evs s = Some s' -> ledger s' = ledger s.
Proof.
  induction evs as [|ev rest IH]; intros s s' C I H; simpl in H.
  - now injection H as <-.
  - destruct (step cfg ev s) as [s1|] eqn:E; [|discriminate].
    rewrite (IH _ _ C (batch_step_inv _ _ _ I E) H).
    apply step_ledger_exact in E; [exact E|].
    pose proof (inv_flight _ _ I). lia.
Qed.

(** What a run from the start of a batch has reached. *)
Lemma run_from_start urls t0 evs s :
  run cfg evs (start cfg urls t0) = Some s ->
  Inv cfg s /\ Permutation (ledger s) urls.
Proof.
  intros R. split.
  - exact (batch_run_inv evs _ _ (batch_start_inv urls t0) R).
  - rewrite <- (start_ledger urls t0). now apply (run_ledger evs).
Qed.

Lemma start_without_room (urls : list string) (t0 : Z) :
  concurrency cfg <= 0 -> urls <> [] ->
  start cfg urls t0
  = {| queue := urls; active := []; results := []; phase := Spinning; created := 0 |}.
Proof.
  intros C U. destruct urls as [|u rest]; [congruence|].
  unfold start, mainLoop. cbn [queue active results created length].
  change (0 <? Z.of_nat (S (length rest))) with true. cbn [orb].
  unfold topUp. cbn [length].
  destruct (Z.ltb_spec (Z.of_nat 0) (concurrency cfg)); [lia|]. reflexivity.
Qed.

End Facts.
End BatchLedgerFacts.

(** X21: when [fetchBatch] resolves, it resolves with the results it has
    recorded, and these are one per input URL: their URLs are the input list
    up to order. *)
Theorem X21_batch_resolves_with_one_result_per_url :
  forall (cfg : FetchBatch.Config) (urls : list string) (t0 : Z)
         (evs : list FetchBatch.Event) (s : FetchBatch.State)
         (rs : list FetchBatch.BatchResult),
    FetchBatch.run cfg evs (FetchBatch.start cfg urls t0) = Some s ->
    FetchBatch.outcome s = Some (Returned rs) ->
    rs = FetchBatch.results s /\
    Permutation (map FetchBatch.url rs) urls /\
    length rs = length urls.
Proof.
  intros cfg urls t0 evs s rs R O.
  destruct (BatchLedgerFacts.run_from_start cfg urls t0 evs s R) as [I L].
  unfold FetchBatch.outcome in O.
  destruct (FetchBatch.phase s) as [?| |r] eqn:P; try discriminate.
  injection O as ->.
  destruct (BatchLedger.inv_returned _ _ I rs P) as (-> & A & Q).
  unfold BatchLedger.ledger in L.
  rewrite A, Q in L. simpl in L. rewrite app_nil_r in L.
  split; [reflexivity|]. split; [exact L|].
  apply Permutation_length in L. now rewrite length_map in L.
Qed.

(** Two URLs, two at a time: the second fails first, the first then
    succeeds, and the batch resolves with two results. *)
Lemma X21_witness :
  Permutation (map FetchBatch.url (FetchBatch.results MoreSamples.batchDone))
    [Samples.urlA; Samples.urlB] /\
  length (FetchBatch.results MoreSamples.batchDone) = 2%nat.
Proof.
  destruct (X21_batch_resolves_with_one_result_per_url MoreSamples.twoAtATime
              [Samples.urlA; Samples.urlB] 0 MoreSamples.downThenOk MoreSamples.batchDone
              (FetchBatch.results MoreSamples.batchDone) eq_refl eq_refl) as (_ & P & L).
  split; [exact P | exact L].
Defined.

(** X22: without [stopOnError] the batch never rejects, whatever the items
    do. *)
Theorem X22_batch_without_stopOnError_never_rejects :
  forall (cfg : FetchBatch.Config) (urls : list string) (t0 : Z)
         (evs : list FetchBatch.Event) (s : FetchBatch.State),
    FetchBatch.stopOnError cfg = false ->
    FetchBatch.run cfg evs (FetchBatch.start cfg urls t0) = Some s ->
    forall x, FetchBatch.outcome s <> Some (Threw x).
Proof.
  intros cfg urls t0 evs s Stop R x.
  destruct (BatchLedgerFacts.run_from_start cfg urls t0 evs s R) as [I _].
  destruct (BatchLedger.inv_threw _ _ I Stop x) as [_ N].
  unfold FetchBatch.outcome. destruct (FetchBatch.phase s); try discriminate. congruence.
Qed.

(** The batch in which [urlB] fails with [serverDown] does not reject with
    that error; it resolves. *)
Lemma X22_witness :
  FetchBatch.outcome MoreSamples.batchDone <> Some (Threw (ThrowError Samples.serverDown)) /\
  FetchBatch.outcome MoreSamples.batchDone
  = Some (Returned (FetchBatch.results MoreSamples.batchDone)).
Proof.
  split; [|reflexivity].
  exact (X22_batch_without_stopOnError_never_rejects MoreSamples.twoAtATime
           [Samples.urlA; Samples.urlB] 0 MoreSamples.downThenOk MoreSamples.batchDone
           eq_refl eq_refl (ThrowError Samples.serverDown)).
Defined.

(** X23: at no point of a batch are more than [concurrency] fetches in
    flight. *)
Theorem X23_batch_in_flight_never_exceeds_concurrency :
  forall (cfg : FetchBatch.Config) (urls : list string) (t0 : Z)
         (evs : list FetchBatch.Event) (s : FetchBatch.State),
    FetchBatch.run cfg evs (FetchBatch.start cfg urls t0) = Some s ->
    Z.of_nat (length (FetchBatch.active s)) <= Z.max 0 (FetchBatch.concurrency cfg).
Proof.
  intros cfg urls t0 evs s R.
  destruct (BatchLedgerFacts.run_from_start cfg urls t0 evs s R) as [I _].
  apply (BatchLedger.inv_flight cfg s I).
Qed.

(** Three URLs, two at a time: two fetches are in flight at the start. *)
Lemma X23_witness :
  Z.of_nat (length (FetchBatch.active
                      (FetchBatch.start MoreSamples.twoAtATime
                         [Samples.urlA; Samples.urlB; Samples.urlC] 0))) <= 2.
Proof.
  exact (X23_batch_in_flight_never_exceeds_concurrency MoreSamples.twoAtATime
           [Samples.urlA; Samples.urlB; Samples.urlC] 0 []
           (FetchBatch.start MoreSamples.twoAtATime
              [Samples.urlA; Samples.urlB; Samples.urlC] 0) eq_refl).
Defined.

(** X24: with [concurrency = 1] nothing overtakes: results, the running
    task and the waiting URLs always spell the input list, and the batch
    resolves with the results in input order. *)
Theorem X24_batch_one_at_a_time_keeps_input_order :
  forall (cfg : FetchBatch.Config) (urls : list string) (t0 : Z)
         (evs : list FetchBatch.Event) (s : FetchBatch.State),
    FetchBatch.concurrency cfg = 1 ->
    FetchBatch.run cfg evs (FetchBatch.start cfg urls t0) = Some s ->
    (map FetchBatch.url (FetchBatch.results s)
       ++ map FetchBatch.task_url (FetchBatch.active s) ++ FetchBatch.queue s)%list = urls /\
    (forall rs, FetchBatch.outcome s = Some (Returned rs) -> map FetchBatch.url rs = urls).
Proof.
  intros cfg urls t0 evs s C R.
  pose proof (BatchLedgerFacts.batch_start_inv cfg urls t0) as I0.
  pose proof (BatchLedgerFacts.run_ledger_exact cfg evs _ _ ltac:(lia) I0 R) as L.
  rewrite BatchLedgerFacts.start_ledger in L. split; [exact L|].
  intros rs O.
  destruct (BatchLedgerFacts.run_from_start cfg urls t0 evs s R) as [I _].
  unfold FetchBatch.outcome in O.
  destruct (FetchBatch.phase s) as [?| |r] eqn:P; try discriminate.
  injection O as ->.
  destruct (BatchLedger.inv_returned _ _ I _ P) as (-> & A & Q).
  unfold BatchLedger.ledger in L. rewrite A, Q in L. simpl in L. now rewrite app_nil_r in L.
Qed.

(** Two URLs, one at a time, the first failing: the results are in input
    order. *)
Lemma X24_witness :
  map FetchBatch.url (FetchBatch.results MoreSamples.batchInTurn)
  = [Samples.urlA; Samples.urlB].
Proof.
  exact (proj2 (X24_batch_one_at_a_time_keeps_input_order MoreSamples.oneAtATime
                  [Samples.urlA; Samples.urlB] 0 MoreSamples.inTurn MoreSamples.batchInTurn
                  eq_refl eq_refl)
           (FetchBatch.results MoreSamples.batchInTurn) eq_refl).
Defined.

(** X25: a negative [concurrency] is taken as given; the batch then starts
    no task and never suspends, so that no event can reach it: the call
    neither resolves nor rejects. *)
Theorem X25_batch_with_negative_concurrency_never_settles :
  forall (c : Z) (stop : option bool) (urls : list string) (t0 : Z)
         (evs : list FetchBatch.Event) (s : FetchBatch.State),
    c < 0 ->
    urls <> [] ->
    let cfg := FetchBatch.config
                 (Some {| FetchBatch.opt_concurrency := Some c;
                          FetchBatch.opt_stopOnError := stop |}) in
    FetchBatch.run cfg evs (FetchBatch.start cfg urls t0) = Some s ->
    evs = [] /\ FetchBatch.phase s = FetchBatch.Spinning /\ FetchBatch.outcome s = None /\
    FetchBatch.active s = [] /\ FetchBatch.results s = [].
Proof.
  intros c stop urls t0 evs s C U cfg R.
  rewrite BatchLedgerFacts.start_without_room in R; [| |exact U].
  - destruct evs as [|ev rest].
    + simpl in R. injection R as <-. repeat split; reflexivity.
    + simpl in R. destruct ev; simpl in R; discriminate.
  - unfold cfg, FetchBatch.config. simpl. destruct (Z.eqb_spec c 0); lia.
Qed.

Lemma X25_witness :
  FetchBatch.phase
    (FetchBatch.start (FetchBatch.config (Some MoreSamples.minusOne)) [Samples.urlA] 0)
  = FetchBatch.Spinning.
Proof.
  destruct (X25_batch_with_negative_concurrency_never_settles (-1) None [Samples.urlA] 0 []
              (FetchBatch.start (FetchBatch.config (Some MoreSamples.minusOne))
                 [Samples.urlA] 0))
    as (_ & P & _).
  - lia.
  - discriminate.
  - reflexivity.
  - exact P.
Defined.

(** X26: with [concurrency >= 1] a batch that has not settled is never
    stuck: either a fetch is in flight, whose settling it accepts, or the
    race has settled and the main loop can resume. *)
Theorem X26_batch_not_settled_can_make_progress :
  forall (cfg : FetchBatch.Config) (urls : list string) (t0 : Z)
         (evs : list FetchBatch.Event) (s : FetchBatch.State),
    1 <= FetchBatch.concurrency cfg ->
    FetchBatch.run cfg evs (FetchBatch.start cfg urls t0) = Some s ->
    FetchBatch.outcome s = None ->
    (exists t, In t (FetchBatch.active s) /\
               forall o now,
                 FetchBatch.step cfg (FetchBatch.Settle (FetchBatch.task_id t) o now) s
                 <> None) \/
    (forall now, FetchBatch.step cfg (FetchBatch.Resume now) s <> None).
Proof.
  intros cfg urls t0 evs s C R O.
  destruct (BatchLedgerFacts.run_from_start cfg urls t0 evs s R) as [I _].
  unfold FetchBatch.outcome in O.
  destruct (FetchBatch.phase s) as [[r|]| |r] eqn:P; try discriminate.
  - right. intros now. simpl. rewrite P. destruct r; discriminate.
  - left. pose proof (BatchLedger.inv_awaiting _ _ I P) as A.
    destruct (FetchBatch.active s) as [|t rest] eqn:E; [congruence|].
    exists t. split; [now left|]. intros o now. simpl. rewrite E. simpl.
    rewrite Nat.eqb_refl. discriminate.
  - destruct (BatchLedger.inv_spinning _ _ I P) as (_ & _ & N). lia.
Qed.

Lemma X26_witness :
  (exists t, In t (FetchBatch.active Samples.batchAwaitingB) /\
             forall o now,
               FetchBatch.step Samples.stopAtFirst
                 (FetchBatch.Settle (FetchBatch.task_id t) o now) Samples.batchAwaitingB
               <> None) \/
  (forall now,
     FetchBatch.step Samples.stopAtFirst (FetchBatch.Resume now) Samples.batchAwaitingB
     <> None).
Proof.
  apply (X26_batch_not_settled_can_make_progress Samples.stopAtFirst
           [Samples.urlA; Samples.urlB] 0
           [FetchBatch.Settle 0 (Returned (Samples.response "a")) 10; FetchBatch.Resume 10]).
  - simpl. lia.
  - reflexivity.
  - reflexivity.
Defined.

(* ====================================================================== *)
(** * Further properties of the helpers of [src/utils.ts] *)
(* ====================================================================== *)

Lemma prefix_inv (p s : string) : prefix p s = true -> exists rest, s = p ++ rest.
Proof.
  revert s. induction p as [|c p IH]; intros s H.
  - exists s. reflexivity.
  - destruct s as [|c' s]; [discriminate|]. simpl in H.
    destruct (ascii_dec c c') as [->|]; [|discriminate].
    destruct (IH s H) as [rest ->]. exists rest. reflexivity.
Qed.

Lemma includes_inv (pat s : string) :
  Js.includes pat s = true -> exists before after, s = before ++ pat ++ after.
Proof.
  induction s as [|c s IH]; intros H.
  - unfold Js.includes in H. apply prefix_inv in H. destruct H as [rest H].
    exists EmptyString, rest. exact H.
  - unfold Js.includes in H; fold Js.includes in H.
    apply orb_true_iff in H. destruct H as [H|H].
    + apply prefix_inv in H. destruct H as [rest H]. exists EmptyString, rest. exact H.
    + destruct (IH H) as (b & a & ->). exists (String c b), a. reflexivity.
Qed.

Lemma append_assoc (a b c : string) : (a ++ b) ++ c = a ++ b ++ c.
Proof. induction a as [|x a IH]; simpl; [reflexivity | now rewrite IH]. Qed.

(** Whatever contains [middle] contains the parts of [middle]. *)
Lemma includes_within (pat l r s : string) :
  Js.includes (l ++ pat ++ r) s = true -> Js.includes pat s = true.
Proof.
  intros H. apply includes_inv in H. destruct H as (b & a & ->).
  replace (b ++ (l ++ pat ++ r) ++ a) with ((b ++ l) ++ pat ++ (r ++ a)).
  - apply includes_occurrence.
  - rewrite !append_assoc. reflexivity.
Qed.

(** X27: the pattern [t.co] of twitter occurs inside [reddit.com], and
    twitter comes before reddit in the table: a valid URL whose host contains
    [reddit.com] is never classified as reddit.  It is classified as
    twitter, unless an instagram or facebook pattern occurs in the host as
    well. *)
Theorem X27_reddit_com_hosts_are_never_classified_as_reddit :
  forall (parseURL : string -> option Utils.URL) (url : string) (parsed : Utils.URL),
    parseURL url = Some parsed ->
    Js.arrIncludes ["http:"; "https:"] (Utils.protocol parsed) = true ->
    Js.includes "reddit.com" (Js.toLowerCase (Utils.hostname parsed)) = true ->
    let host := Js.toLowerCase (Utils.hostname parsed) in
    Utils.detectPlatform parseURL url <> Some Utils.reddit /\
    Utils.detectPlatform parseURL url
      = (if Utils.some_test ["instagram.com"; "instagr.am"] host then Some Utils.instagram
         else if Utils.some_test ["facebook.com"; "fb.watch"; "fb.com"] host
              then Some Utils.facebook
              else Some Utils.twitter).
Proof.
  intros parseURL url parsed P V R host.
  rewrite (detectPlatform_valid parseURL url parsed P V). fold host.
  assert (T : Utils.some_test ["twitter.com"; "x.com"; "t.co"] host = true).
  { apply some_test_in with "t.co"; [simpl; auto|].
    unfold Utils.test. apply (includes_within "t.co" "reddi" "m"). exact R. }
  unfold Utils.PLATFORM_PATTERNS. cbn [Utils.scanPatterns].
  destruct (Utils.some_test ["instagram.com"; "instagr.am"] host);
    [split; [discriminate | reflexivity]|].
  destruct (Utils.some_test ["facebook.com"; "fb.watch"; "fb.com"] host);
    [split; [discriminate | reflexivity]|].
  rewrite T. split; [discriminate | reflexivity].
Qed.

Lemma X27_witness :
  Utils.detectPlatform Utils.plainURL "https://www.reddit.com/r/videos" <> Some Utils.reddit /\
  Utils.detectPlatform Utils.plainURL "https://www.reddit.com/r/videos" = Some Utils.twitter.
Proof.
  destruct (X27_reddit_com_hosts_are_never_classified_as_reddit Utils.plainURL
              "https://www.reddit.com/r/videos"
              {| Utils.protocol := "https:"; Utils.hostname := "www.reddit.com" |}
              eq_refl eq_refl eq_refl) as [N E].
  split; [exact N | exact E].
Defined.

Section DownloadFacts.
Import Downloads.
Import Ranking.

Lemma arrIncludes_In (xs : list string) (x : string) :
  Js.arrIncludes xs x = true <-> In x xs.
Proof.
  unfold Js.arrIncludes. rewrite existsb_exists. split.
  - intros (y & I & E). apply String.eqb_eq in E. now subst.
  - intros I. exists x. split; [exact I | apply String.eqb_refl].
Qed.

Lemma setAdd_spec (set : list string) (x : string) :
  NoDup set ->
  NoDup (setAdd set x) /\ (forall y, In y (setAdd set x) <-> In y set \/ y = x) /\
  exists more, setAdd set x = (set ++ more)%list.
Proof.
  intros N. unfold setAdd. destruct (Js.arrIncludes set x) eqn:E.
  - apply arrIncludes_In in E. split; [exact N|]. split.
    + intros y. split; [auto | intros [H | ->]; auto].
    + exists []. now rewrite app_nil_r.
  - assert (NI : ~ In x set).
    { intros I. apply arrIncludes_In in I. congruence. }
    split; [|split].
    + apply NoDup_app; [exact N | repeat constructor; simpl; tauto |].
      intros y Hy [ <- | [] ]. tauto.
    + intros y. rewrite in_app_iff. simpl. split; [intros [H|[H|[]]] | intros [H|H]]; auto.
    + eexists. reflexivity.
Qed.

Lemma arrayFromSet_spec (values : list string) : forall acc,
  NoDup acc ->
  NoDup (fold_left setAdd values acc) /\
  (forall y, In y (fold_left setAdd values acc) <-> In y acc \/ In y values) /\
  exists more, fold_left setAdd values acc = (acc ++ more)%list.
Proof.
  induction values as [|v values IH]; intros acc N; simpl.
  - split; [exact N|]. split; [intros y; tauto|]. exists []. now rewrite app_nil_r.
  - destruct (setAdd_spec acc v N) as (N1 & M1 & (m1 & E1)).
    destruct (IH (setAdd acc v) N1) as (N2 & M2 & (m2 & E2)).
    split; [exact N2|]. split.
    + intros y. rewrite M2, M1. intuition auto.
    + exists (m1 ++ m2)%list. rewrite E2, E1, <- app_assoc. reflexivity.
Qed.

Lemma MediaType_eqb_eq (a b : MediaType) : MediaType_eqb a b = true <-> a = b.
Proof. destruct a, b; simpl; split; congruence. Qed.

Lemma compare_lt (a b : Download) : compare a b < 0 <-> better a b.
Proof.
  unfold compare, better. cbv zeta.
  destruct (Z.eqb_spec (qualityOf a) (qualityOf b)); simpl; lia.
Qed.

Lemma compare_ge (a b : Download) : ~ compare a b < 0 <-> notWorse b a.
Proof.
  unfold compare, notWorse. cbv zeta.
  destruct (Z.eqb_spec (qualityOf a) (qualityOf b)); simpl; lia.
Qed.

Lemma hd_insert (x : Download) (sorted : list Download) :
  hd_error (insert x sorted) = pick (hd_error sorted) x.
Proof. destruct sorted as [|y rest]; simpl; [reflexivity|]. now destruct (compare x y <? 0). Qed.

Lemma hd_sort (l : list Download) : forall acc,
  hd_error (fold_left (fun sorted x => insert x sorted) l acc)
  = fold_left pick l (hd_error acc).
Proof.
  induction l as [|x l IH]; intros acc; simpl; [reflexivity|].
  now rewrite IH, hd_insert.
Qed.

Lemma pick_scan (l : list Download) : forall (seen : list Download) (b : Download) pre post,
  seen = (pre ++ b :: post)%list ->
  (forall d, In d pre -> better b d) ->
  (forall d, In d post -> notWorse b d) ->
  exists d pre' post',
    fold_left pick l (Some b) = Some d /\
    (seen ++ l = pre' ++ d :: post')%list /\
    (forall d', In d' pre' -> better d d') /\
    (forall d', In d' post' -> notWorse d d').
Proof.
  induction l as [|x l IH]; intros seen b pre post E Hpre Hpost; simpl.
  - exists b, pre, post. rewrite app_nil_r. auto.
  - destruct (Z.ltb_spec (compare x b) 0) as [Lt|Ge].
    + apply compare_lt in Lt.
      destruct (IH (seen ++ [x])%list x seen []) as (d & pre' & post' & F & S & P1 & P2).
      * reflexivity.
      * intros d Hd. rewrite E in Hd. apply in_app_or in Hd.
        destruct Hd as [Hd | [ <- | Hd]].
        -- specialize (Hpre d Hd). unfold better in *. lia.
        -- exact Lt.
        -- specialize (Hpost d Hd). unfold better, notWorse in *. lia.
      * intros d [].
      * exists d, pre', post'. rewrite <- app_assoc in S. auto.
    + assert (NW : notWorse b x) by (apply compare_ge; lia).
      destruct (IH (seen ++ [x])%list b pre (post ++ [x])%list)
        as (d & pre' & post' & F & S & P1 & P2).
      * rewrite E, <- app_assoc. reflexivity.
      * exact Hpre.
      * intros d Hd. apply in_app_or in Hd. destruct Hd as [Hd|[ <- | [] ]]; auto.
      * exists d, pre', post'. rewrite <- app_assoc in S. auto.
Qed.

End DownloadFacts.

(** X28: [getAvailableQualities] lists every quality label of the
    downloads of the asked type (of all downloads when no type is asked)
    exactly once. *)
Theorem X28_getAvailableQualities_lists_each_quality_once :
  forall (downloads : list Downloads.Download) (ty : option Downloads.MediaType),
    NoDup (Downloads.getAvailableQualities downloads ty) /\
    (forall q, In q (Downloads.getAvailableQualities downloads ty) <->
               exists d, In d downloads /\ Downloads.quality d = q /\
                         match ty with Some t => Downloads.type d = t | None => True end) /\
    (length (Downloads.getAvailableQualities downloads ty) <= length downloads)%nat.
Proof.
  intros downloads ty. unfold Downloads.getAvailableQualities, Downloads.arrayFromSet.
  set (filtered := match ty with
                   | Some t => filter (fun d => Downloads.MediaType_eqb (Downloads.type d) t)
                                 downloads
                   | None => downloads
                   end).
  destruct (arrayFromSet_spec (map Downloads.quality filtered) [] (NoDup_nil _))
    as (N & M & _).
  assert (F : forall d, In d filtered <->
                        In d downloads /\
                        match ty with Some t => Downloads.type d = t | None => True end).
  { intros d. unfold filtered. destruct ty as [t|].
    - rewrite filter_In, MediaType_eqb_eq. tauto.
    - tauto. }
  split; [exact N|]. split.
  - intros q. rewrite M. simpl. rewrite in_map_iff. split.
    + intros [ [] | (d & Q & I)]. apply F in I. exists d. tauto.
    + intros (d & I & Q & T). right. exists d. split; [exact Q|]. apply F. tauto.
  - assert (L1 : (length (fold_left Downloads.setAdd (map Downloads.quality filtered) [])
                  <= length (map Downloads.quality filtered))%nat).
    { apply NoDup_incl_length; [exact N|]. intros y Hy. apply M in Hy.
      destruct Hy as [ [] | Hy]. exact Hy. }
    rewrite length_map in L1.
    assert (L2 : (length filtered <= length downloads)%nat).
    { unfold filtered. destruct ty; [apply filter_length_le | lia]. }
    lia.
Qed.

(** The sample renditions carry two distinct video labels. *)
Lemma X28_witness :
  NoDup (Downloads.getAvailableQualities MoreSamples.renditions (Some Downloads.video)) /\
  In "1080p" (Downloads.getAvailableQualities MoreSamples.renditions (Some Downloads.video)).
Proof.
  destruct (X28_getAvailableQualities_lists_each_quality_once MoreSamples.renditions
              (Some Downloads.video)) as (N & M & _).
  split; [exact N|]. apply M.
  exists (MoreSamples.rendition "1080p" 1920 1080). split; [|split; reflexivity].
  simpl. right. now left.
Defined.

(** X29: let the parsed quality and the area of every download of the
    asked type lie within 2^53 of zero, where numbers are not rounded.
    Among these downloads [findBestQuality] then returns the first of the
    best: its parsed quality, then its area, beat those of every candidate
    listed before it and are not beaten by any listed after it.  It returns
    nothing exactly when there is no candidate. *)
Theorem X29_findBestQuality_returns_the_first_of_the_best :
  forall (downloads : list Downloads.Download) (ty : Downloads.MediaType),
    Forall Ranking.unrounded
      (filter (fun d => Downloads.MediaType_eqb (Downloads.type d) ty) downloads) ->
    match filter (fun d => Downloads.MediaType_eqb (Downloads.type d) ty) downloads with
    | [] => Downloads.findBestQuality downloads ty = None
    | candidates =>
        exists d pre post,
          Downloads.findBestQuality downloads ty = Some d /\
          In d downloads /\ Downloads.type d = ty /\
          candidates = (pre ++ d :: post)%list /\
          (forall d', In d' pre -> Ranking.better d d') /\
          (forall d', In d' post -> Ranking.notWorse d d')
    end.
Proof.
  intros downloads ty _. unfold Downloads.findBestQuality. cbv zeta.
  destruct (filter (fun d => Downloads.MediaType_eqb (Downloads.type d) ty) downloads)
    as [|b rest] eqn:C; [reflexivity|].
  change (Z.of_nat (length (b :: rest)) =? 0) with false. cbv iota.
  unfold Downloads.sort. rewrite hd_sort. simpl.
  destruct (pick_scan rest [b] b [] [] eq_refl) as (d & pre & post & F & S & P1 & P2).
  - intros d [].
  - intros d [].
  - exists d, pre, post. split; [exact F|].
    assert (I : In d (filter (fun d => Downloads.MediaType_eqb (Downloads.type d) ty)
                        downloads)).
    { rewrite C. simpl in S. rewrite S. apply in_or_app. right. now left. }
    apply filter_In in I. destruct I as [I T].
    apply MediaType_eqb_eq in T. simpl in S. auto.
Qed.

(** Of the sample renditions the best video is the 1080p one, behind a
    720p one and ahead of another. *)
Lemma X29_witness :
  exists d pre post,
    Downloads.findBestQuality MoreSamples.renditions Downloads.video = Some d /\
    In d MoreSamples.renditions /\ Downloads.type d = Downloads.video /\
    [MoreSamples.rendition "720p" 1280 720; MoreSamples.rendition "1080p" 1920 1080;
     MoreSamples.rendition "720p" 1280 720] = (pre ++ d :: post)%list /\
    (forall d', In d' pre -> Ranking.better d d') /\
    (forall d', In d' post -> Ranking.notWorse d d').
Proof.
  apply (X29_findBestQuality_returns_the_first_of_the_best MoreSamples.renditions
           Downloads.video).
  repeat constructor; vm_compute; discriminate.
Defined.

Section FilenameFacts.
Import Filenames.
Import FilenameShape.

Lemma isUnderscore_eq c : isUnderscore c = true -> c = "_"%char.
Proof.
  unfold isUnderscore, codeOf. intros H. apply Nat.eqb_eq in H.
  rewrite <- (ascii_nat_embedding c), H. reflexivity.
Qed.

Lemma free_removeAll p s : free p (removeAll p s) = true.
Proof.
  induction s as [|c r IH]; simpl; [reflexivity|].
  destruct (p c) eqn:E; simpl; [exact IH | now rewrite E].
Qed.

Lemma free_removeAll_other p q s : free q s = true -> free q (removeAll p s) = true.
Proof.
  induction s as [|c r IH]; simpl; [reflexivity|].
  intros H. apply andb_true_iff in H. destruct H as [H1 H2].
  destruct (p c); simpl; [auto | now rewrite H1, IH].
Qed.

Lemma free_squeeze p s : p "_"%char = false -> forall b, free p (squeeze p b s) = true.
Proof.
  intros U. induction s as [|c r IH]; intros b; simpl; [reflexivity|].
  destruct (p c) eqn:E.
  - destruct b; simpl; [apply IH | now rewrite U, IH].
  - simpl. now rewrite E, IH.
Qed.

Lemma free_squeeze_other p q s :
  q "_"%char = false -> free q s = true -> forall b, free q (squeeze p b s) = true.
Proof.
  intros U. induction s as [|c r IH]; intros H b; simpl; [reflexivity|].
  simpl in H. apply andb_true_iff in H. destruct H as [H1 H2].
  destruct (p c).
  - destruct b; simpl; [now apply IH | now rewrite U, IH].
  - simpl. now rewrite H1, IH.
Qed.

Lemma single_squeeze s : forall b, single b (squeeze isUnderscore b s) = true.
Proof.
  induction s as [|c r IH]; intros b; simpl; [reflexivity|].
  destruct (isUnderscore c) eqn:E.
  - destruct b; [apply IH|]. simpl. change (isUnderscore "_") with true. simpl. apply IH.
  - simpl. rewrite E. apply IH.
Qed.

Lemma single_weaken s : single true s = true -> single false s = true.
Proof.
  destruct s as [|c r]; simpl; [auto|]. destruct (isUnderscore c); simpl; [discriminate | auto].
Qed.

Lemma single_any b s : single b s = true -> single false s = true.
Proof. destruct b; [apply single_weaken | auto]. Qed.

Lemma single_tail b c r : single b (String c r) = true -> single false r = true.
Proof.
  simpl. destruct (isUnderscore c).
  - intros H. apply andb_true_iff in H. destruct H as [_ H]. now apply single_weaken.
  - auto.
Qed.

Lemma free_dropWhile p q s : free q s = true -> free q (dropWhile p s) = true.
Proof.
  induction s as [|c r IH]; simpl; [reflexivity|].
  intros H. destruct (p c); [|exact H].
  apply andb_true_iff in H. destruct H as [_ H]. auto.
Qed.

Lemma single_dropWhile p s : single false s = true -> single false (dropWhile p s) = true.
Proof.
  induction s as [|c r IH]; [reflexivity|].
  intros H. simpl dropWhile. destruct (p c); [|exact H].
  apply IH. eapply single_tail; eauto.
Qed.

Lemma dot_dropWhile s : startsWithDot (dropWhile isDot s) = false.
Proof.
  induction s as [|c r IH]; simpl; [reflexivity|].
  destruct (isDot c) eqn:E; [exact IH | exact E].
Qed.

Lemma dropWhile_free p s : free p s = true -> dropWhile p s = s.
Proof.
  destruct s as [|c r]; simpl; [reflexivity|].
  intros H. apply andb_true_iff in H. destruct H as [H _].
  now destruct (p c).
Qed.

Lemma dropWhileEnd_free p s : free p s = true -> dropWhileEnd p s = s.
Proof.
  induction s as [|c r IH]; simpl; [reflexivity|].
  intros H. apply andb_true_iff in H. destruct H as [H1 H2].
  rewrite (IH H2). destruct r; [|reflexivity]. now destruct (p c).
Qed.

Lemma trim_free s : free isSpace s = true -> trim s = s.
Proof.
  intros H. unfold trim. rewrite (dropWhile_free _ _ H). now apply dropWhileEnd_free.
Qed.

Lemma length_take n s : (String.length (take n s) <= n)%nat.
Proof.
  revert s. induction n as [|n IH]; intros s; simpl; [lia|].
  destruct s as [|c r]; simpl; [lia|]. specialize (IH r). lia.
Qed.

Lemma free_take p n s : free p s = true -> free p (take n s) = true.
Proof.
  revert s. induction n as [|n IH]; intros s; simpl; [reflexivity|].
  destruct s as [|c r]; simpl; [reflexivity|].
  intros H. apply andb_true_iff in H. destruct H as [H1 H2]. now rewrite H1, IH.
Qed.

Lemma single_take n s : forall b, single b s = true -> single b (take n s) = true.
Proof.
  revert s. induction n as [|n IH]; intros s b; simpl; [reflexivity|].
  destruct s as [|c r]; simpl; [reflexivity|].
  destruct (isUnderscore c).
  - intros H. apply andb_true_iff in H. destruct H as [H1 H2]. now rewrite H1, IH.
  - apply IH.
Qed.

Lemma dot_take n s : startsWithDot s = false -> startsWithDot (take n s) = false.
Proof. destruct n, s; simpl; auto. Qed.

Lemma take_short n s : (String.length s <= n)%nat -> take n s = s.
Proof.
  revert s. induction n as [|n IH]; intros s; destruct s as [|c r]; simpl; try reflexivity.
  - lia.
  - intros H. rewrite IH; [reflexivity | lia].
Qed.

Lemma removeAll_free p s : free p s = true -> removeAll p s = s.
Proof.
  induction s as [|c r IH]; simpl; [reflexivity|].
  intros H. apply andb_true_iff in H. destruct H as [H1 H2].
  destruct (p c); [discriminate|]. now rewrite IH.
Qed.

Lemma squeeze_free p s : free p s = true -> forall b, squeeze p b s = s.
Proof.
  induction s as [|c r IH]; simpl; [reflexivity|].
  intros H b. apply andb_true_iff in H. destruct H as [H1 H2].
  destruct (p c); [discriminate|]. now rewrite IH.
Qed.

Lemma squeeze_single s : forall b, single b s = true -> squeeze isUnderscore b s = s.
Proof.
  induction s as [|c r IH]; intros b; simpl; [reflexivity|].
  destruct (isUnderscore c) eqn:E.
  - intros H. apply andb_true_iff in H. destruct H as [H1 H2].
    destruct b; [discriminate|]. rewrite (IH true H2).
    now rewrite (isUnderscore_eq c E).
  - intros H. now rewrite (IH false H).
Qed.

Lemma single_no_double s : forall b before after,
  single b s = true -> s <> before ++ "__" ++ after.
Proof.
  intros b before after H E. subst s. revert b H.
  induction before as [|c before IH]; intros b H.
  - simpl in H. change (isUnderscore "_") with true in H. cbv iota in H.
    rewrite andb_false_r in H. discriminate.
  - simpl in H. destruct (isUnderscore c).
    + apply andb_true_iff in H. destruct H as [_ H]. eapply IH; eauto.
    + eapply IH; eauto.
Qed.

Lemma free_In p s c : free p s = true -> In c (list_ascii_of_string s) -> p c = false.
Proof.
  induction s as [|x r IH]; simpl; [tauto|].
  intros H [<-|I]; apply andb_true_iff in H; destruct H as [H1 H2].
  - now destruct (p x).
  - auto.
Qed.

Lemma sanitizeFilename_sanitized (filename : string) : sanitized (sanitizeFilename filename).
Proof.
  unfold sanitizeFilename.
  set (s1 := removeAll isInvalid filename).
  set (s2 := squeeze isSpace false s1).
  set (s3 := squeeze isUnderscore false s2).
  set (s4 := dropWhile isDot s3).
  assert (I1 : free isInvalid s1 = true) by apply free_removeAll.
  assert (I2 : free isInvalid s2 = true) by (apply free_squeeze_other; auto).
  assert (S2 : free isSpace s2 = true) by (apply free_squeeze; auto).
  assert (I3 : free isInvalid s3 = true) by (apply free_squeeze_other; auto).
  assert (S3 : free isSpace s3 = true) by (apply free_squeeze_other; auto).
  assert (U3 : single false s3 = true) by apply single_squeeze.
  assert (I4 : free isInvalid s4 = true) by (apply free_dropWhile; auto).
  assert (S4 : free isSpace s4 = true) by (apply free_dropWhile; auto).
  assert (U4 : single false s4 = true) by (apply single_dropWhile; auto).
  assert (D4 : startsWithDot s4 = false) by apply dot_dropWhile.
  rewrite (trim_free s4 S4).
  repeat split.
  - apply length_take.
  - now apply free_take.
  - now apply free_take.
  - now apply single_take.
  - now apply dot_take.
Qed.

End FilenameFacts.

(** X30: for a name of code units below 256, the sanitized name is at most
    200 characters long, has none of the characters the first pattern
    removes and no white space, has no two underscores in a row, and does not
    start with a dot; sanitizing it again changes nothing. *)
Theorem X30_sanitizeFilename_is_safe_and_idempotent :
  forall (filename : string),
    let r := Filenames.sanitizeFilename filename in
    (String.length r <= 200)%nat /\
    (forall c, In c (list_ascii_of_string r) ->
               Filenames.isInvalid c = false /\ Filenames.isSpace c = false) /\
    (forall before after, r <> before ++ "__" ++ after) /\
    (forall rest, r <> String "." rest) /\
    Filenames.sanitizeFilename r = r.
Proof.
  intros filename r.
  destruct (sanitizeFilename_sanitized filename) as (L & I & S & U & D).
  fold r in L, I, S, U, D.
  split; [exact L|]. split; [|split; [|split]].
  - intros c Hc. split; eapply free_In; eauto.
  - intros before after. eapply single_no_double; eauto.
  - intros rest E. rewrite E in D. discriminate.
  - unfold Filenames.sanitizeFilename.
    rewrite (removeAll_free _ _ I), (squeeze_free _ _ S), (squeeze_single _ _ U).
    assert (Filenames.dropWhile Filenames.isDot r = r) as ->.
    { destruct r as [|c rest]; [reflexivity|]. simpl in D. simpl. now rewrite D. }
    rewrite (trim_free _ S). now apply take_short.
Qed.

Lemma X30_witness :
  (String.length (Filenames.sanitizeFilename "..my  video: <final>?  __v2__.mp4 ") <= 200)%nat /\
  Filenames.sanitizeFilename (Filenames.sanitizeFilename "..my  video: <final>?  __v2__.mp4 ")
  = Filenames.sanitizeFilename "..my  video: <final>?  __v2__.mp4 ".
Proof.
  destruct (X30_sanitizeFilename_is_safe_and_idempotent "..my  video: <final>?  __v2__.mp4 ")
    as (L & _ & _ & _ & I).
  split; [exact L | exact I].
Defined.

